(** * Student Management System: the record store, its derived fields,
      the CSV codec, the comparators and the statistics

    A shallow embedding of [student_management_system_(final).c].

    - [int] values are integers of [Z]; where the C code adds or subtracts
      them the 32-bit wrap-around is written out ([wrap32]).
    - [float] values are IEEE-754 binary32 numbers, represented with the
      standard library's [spec_float] at precision 24 and [emax] 128;
      [double] values (only met in [atof] and [printf]) are the same at
      precision 53 and [emax] 1024.
    - A C string is the list of its characters before the terminating NUL,
      each character an [unsigned char] code in [Z].
    - The global array [students] with its counter [studentCount] is the
      list of the live records, in array order.
    - The keyboard is the list of the characters still to be read, the
      screen and the files are the lists of the characters written. *)

From Stdlib Require Import String Ascii.
From Stdlib Require Import ZArith List Bool Lia QArith Qabs Qpower Lqa.
From Stdlib Require Import Permutation Sorted.
From Stdlib Require DecimalPos DecimalFacts.
From Stdlib Require Import Floats.SpecFloat.
Import ListNotations.
Local Open Scope Z_scope.

(* ================================================================== *)
(** * Machine integers and characters *)

Definition INT_MIN : Z := - 2 ^ 31.
Definition INT_MAX : Z := 2 ^ 31 - 1.

(** Two's-complement reduction of an integer to the range of [int]. *)
Definition wrap32 (z : Z) : Z := (z + 2 ^ 31) mod 2 ^ 32 - 2 ^ 31.

Definition in_int (z : Z) : Prop := INT_MIN <= z <= INT_MAX.

Definition char := Z.

Definition ch (a : ascii) : char := Z.of_N (N_of_ascii a).

(** The characters of a string literal. *)
Definition cstr (s : string) : list char := map ch (list_ascii_of_string s).

Definition MAX_STUDENTS : Z := 1000.
Definition MAX_NAME : Z := 100.
Definition MAX_SUBJECTS : Z := 10.

(* ================================================================== *)
(** * Single-precision floats *)

Definition float := spec_float.
Definition double := spec_float.

Definition f32_prec : Z := 24.
Definition f32_emax : Z := 128.
Definition f64_prec : Z := 53.
Definition f64_emax : Z := 1024.

(** [(float) z] for an [int] *)
Definition f32_of_int (z : Z) : float := binary_normalize f32_prec f32_emax z 0 false.

Definition f32_add : float -> float -> float := SFadd f32_prec f32_emax.
Definition f32_div : float -> float -> float := SFdiv f32_prec f32_emax.

(** The C comparisons on floats; each is false when an operand is a NaN. *)
Definition f32_lt (x y : float) : bool := SFltb x y.
Definition f32_gt (x y : float) : bool := SFltb y x.
Definition f32_ge (x y : float) : bool := SFleb y x.

(** [(float) d] for a [double] *)
Definition f32_of_double (d : double) : float :=
  match d with
  | S754_finite s m e => binary_round f32_prec f32_emax s m e
  | _ => d
  end.

(** The rational number a finite float stands for (0 for the others). *)
Definition f32_value (x : float) : Q :=
  match x with
  | S754_finite s m e =>
      (if s then - inject_Z (Zpos m) else inject_Z (Zpos m)) * Qpower 2 e
  | _ => 0%Q
  end.

(** Half the distance between a finite float and its neighbours. *)
Definition f32_half_ulp (x : float) : Q :=
  match x with
  | S754_finite _ _ e => Qpower 2 (e - 1)
  | _ => 0%Q
  end.

Definition f32_is_nan (x : float) : bool :=
  match x with S754_nan => true | _ => false end.

Definition f32_is_finite (x : float) : bool :=
  match x with S754_finite _ _ _ | S754_zero _ => true | _ => false end.

(* ================================================================== *)
(** * The record *)

Record Student := mkStudent {
  roll : Z;
  name : list char;
  subjectCount : Z;
  marks : list Z;
  average : float;
  grade : char
}.

(** [Student s = {0};] *)
Definition zeroStudent : Student :=
  mkStudent 0 [] 0 (repeat 0 (Z.to_nat MAX_SUBJECTS)) (S754_zero false) 0.

(** The live scores of a record: [marks[0 .. subjectCount-1]]. *)
Definition scores (s : Student) : list Z :=
  firstn (Z.to_nat (subjectCount s)) (marks s).

Definition set_roll (s : Student) (r : Z) : Student :=
  mkStudent r (name s) (subjectCount s) (marks s) (average s) (grade s).
Definition set_name (s : Student) (n : list char) : Student :=
  mkStudent (roll s) n (subjectCount s) (marks s) (average s) (grade s).
Definition set_subjectCount (s : Student) (c : Z) : Student :=
  mkStudent (roll s) (name s) c (marks s) (average s) (grade s).
Definition set_marks (s : Student) (m : list Z) : Student :=
  mkStudent (roll s) (name s) (subjectCount s) m (average s) (grade s).
Definition set_average (s : Student) (a : float) : Student :=
  mkStudent (roll s) (name s) (subjectCount s) (marks s) a (grade s).
Definition set_grade (s : Student) (g : char) : Student :=
  mkStudent (roll s) (name s) (subjectCount s) (marks s) (average s) g.

(* ================================================================== *)
(** * Grade rule *)

Definition calculateGrade (avg : float) : char :=
  if f32_ge avg (f32_of_int 90) then ch "A"%char
  else if f32_ge avg (f32_of_int 75) then ch "B"%char
  else if f32_ge avg (f32_of_int 60) then ch "C"%char
  else if f32_ge avg (f32_of_int 50) then ch "D"%char
  else ch "F"%char.

(** [for (i = 0; i < subjectCount; ++i) sum += marks[i];] *)
Definition sum_marks (s : Student) : Z :=
  fold_left (fun sum i => wrap32 (sum + nth i (marks s) 0))
            (seq 0 (Z.to_nat (subjectCount s))) 0.

Definition recompute (s : Student) : Student :=
  let sum := sum_marks s in
  let avg := f32_div (f32_of_int sum) (f32_of_int (subjectCount s)) in
  set_grade (set_average s avg) (calculateGrade avg).

(** The scores the input helper lets through: a count in
    [1..MAX_SUBJECTS] and marks in [0..100]. *)
Definition valid_scores (s : Student) : Prop :=
  1 <= subjectCount s <= MAX_SUBJECTS /\
  (Z.to_nat (subjectCount s) <= length (marks s))%nat /\
  Forall (fun m => 0 <= m <= 100) (scores s).

(** The exact arithmetic mean of a list of integers. *)
Definition mean (l : list Z) : Q :=
  inject_Z (fold_right Z.add 0 l) / inject_Z (Z.of_nat (length l)).

(** The mean of a list of integers in floating-point arithmetic: their
    sum, converted, divided by their number, converted. *)
Definition float_mean (l : list Z) : float :=
  f32_div (f32_of_int (fold_right Z.add 0 l)) (f32_of_int (Z.of_nat (length l))).

(** The threshold table read on an exact mean. *)
Definition grade_of_mean (q : Q) : char :=
  if Qle_bool 90 q then ch "A"%char
  else if Qle_bool 75 q then ch "B"%char
  else if Qle_bool 60 q then ch "C"%char
  else if Qle_bool 50 q then ch "D"%char
  else ch "F"%char.

(* ================================================================== *)
(** * Arrays *)

(** [a[i] = x] on an array held as a list; nothing is written outside it. *)
Fixpoint set_nth {A} (i : nat) (x : A) (a : list A) : list A :=
  match a, i with
  | [], _ => []
  | _ :: t, O => x :: t
  | h :: t, S i' => h :: set_nth i' x t
  end.

(** [for (i = 0; i < n; ++i) a[i] = input i;] *)
Definition write_marks (n : Z) (input : list Z) (a : list Z) : list Z :=
  fold_left (fun a i => set_nth i (nth i input 0) a) (seq 0 (Z.to_nat n)) a.

(* ================================================================== *)
(** * Strings *)

Definition tolower (c : char) : char :=
  if (ch "A"%char <=? c) && (c <=? ch "Z"%char) then c + 32 else c.

(** [strncpy(dst, src, n)] into a buffer whose byte [n] is NUL. *)
Definition strncpy (n : Z) (src : list char) : list char :=
  firstn (Z.to_nat n) src.

Definition sanitizeName (nm : list char) : list char :=
  map (fun c => if c =? ch ","%char then ch " "%char else c) nm.

Fixpoint strcasecmp (a b : list char) : Z :=
  match a, b with
  | [], [] => 0
  | [], c :: _ => - tolower c
  | c :: _, [] => tolower c
  | c1 :: a', c2 :: b' =>
      let d := tolower c1 - tolower c2 in
      if d =? 0 then strcasecmp a' b' else d
  end.

(* ================================================================== *)
(** * The store *)

Definition Store := list Student.

Definition studentCount (st : Store) : Z := Z.of_nat (length st).

Definition findMaxRoll (st : Store) : Z :=
  fold_left (fun maxr s => if roll s >? maxr then roll s else maxr) st 0.

Fixpoint findIndexByRoll_from (i : Z) (st : Store) (r : Z) : Z :=
  match st with
  | [] => -1
  | s :: rest => if roll s =? r then i else findIndexByRoll_from (i + 1) rest r
  end.

Definition findIndexByRoll (st : Store) (r : Z) : Z := findIndexByRoll_from 0 st r.

(** What an action prints before it returns. *)
Inductive message :=
| MsgLimitReached
| MsgNameEmpty
| MsgAdded (s : Student)
| MsgNoRecords
| MsgNoStudent (r : Z)
| MsgNameUnchanged
| MsgCancelled
| MsgUpdated
| MsgDeleted
| MsgSorted.

(** What the input helper [inputIntInRange] hands over for a subject
    count and its marks. *)
Definition entered_ok (n : Z) (ms : list Z) : Prop :=
  1 <= n <= MAX_SUBJECTS /\ Z.of_nat (length ms) = n /\
  Forall (fun m => 0 <= m <= 100) ms.

(** [addStudent]: [buf] is the line read for the name, [n] and [ms] the
    subject count and the marks read by [inputIntInRange].  The new
    array is what [saveAll] then writes. *)
Definition addStudent (st : Store) (buf : list char) (n : Z) (ms : list Z)
  : Store * message :=
  if studentCount st >=? MAX_STUDENTS then (st, MsgLimitReached)
  else
    let s := set_roll zeroStudent (wrap32 (findMaxRoll st + 1)) in
    match buf with
    | [] => (st, MsgNameEmpty)
    | _ =>
        let s := set_name s (strncpy (MAX_NAME - 1) (sanitizeName buf)) in
        let s := set_subjectCount s n in
        let s := set_marks s (write_marks n ms (marks s)) in
        let s := recompute s in
        (st ++ [s], MsgAdded s)
    end.

(** [updateStudent]: [r] is the roll asked for, [choice] the menu entry,
    [buf] the new name (entry 1), [n] and [ms] the new scores (entry 2). *)
Definition updateStudent (st : Store) (r : Z) (choice : Z)
           (buf : list char) (n : Z) (ms : list Z) : Store * message :=
  match st with
  | [] => (st, MsgNoRecords)
  | _ =>
      let idx := findIndexByRoll st r in
      if idx <? 0 then (st, MsgNoStudent r)
      else
        let i := Z.to_nat idx in
        let s := nth i st zeroStudent in
        if choice =? 1 then
          match buf with
          | [] => (st, MsgNameUnchanged)
          | _ =>
              let s := set_name s (strncpy (MAX_NAME - 1) (sanitizeName buf)) in
              (set_nth i (recompute s) st, MsgUpdated)
          end
        else if choice =? 2 then
          let s := set_subjectCount s n in
          let s := set_marks s (write_marks n ms (marks s)) in
          let s := recompute s in
          (set_nth i (recompute s) st, MsgUpdated)
        else (st, MsgCancelled)
  end.

(** [for (i = idx; i < studentCount - 1; ++i) students[i] = students[i + 1];
    studentCount--;] *)
Definition shift_left (idx : nat) (st : Store) : Store :=
  firstn (length st - 1)
    (fold_left (fun a i => set_nth i (nth (i + 1) a zeroStudent) a)
               (seq idx (length st - 1 - idx)) st).

(** [deleteStudent]: [r] is the roll asked for, [c] the character read as
    the answer to the confirmation. *)
Definition deleteStudent (st : Store) (r : Z) (c : Z) : Store * message :=
  match st with
  | [] => (st, MsgNoRecords)
  | _ =>
      let idx := findIndexByRoll st r in
      if idx <? 0 then (st, MsgNoStudent r)
      else if negb (c =? ch "y"%char) && negb (c =? ch "Y"%char)
           then (st, MsgCancelled)
      else (shift_left (Z.to_nat idx) st, MsgDeleted)
  end.

(* ================================================================== *)
(** * Sorting *)

Definition cmpRollAsc (x y : Student) : Z := wrap32 (roll x - roll y).
Definition cmpRollDesc (x y : Student) : Z := wrap32 (- cmpRollAsc x y).

Definition cmpNameAsc (x y : Student) : Z := strcasecmp (name x) (name y).
Definition cmpNameDesc (x y : Student) : Z := wrap32 (- cmpNameAsc x y).

Definition cmpAvgAsc (x y : Student) : Z :=
  if f32_lt (average x) (average y) then -1
  else if f32_gt (average x) (average y) then 1
  else 0.
Definition cmpAvgDesc (x y : Student) : Z := wrap32 (- cmpAvgAsc x y).

Definition comparator := Student -> Student -> Z.

(** The comparator behind each entry of the sort menu. *)
Definition menu_comparator (choice : Z) : option comparator :=
  if choice =? 1 then Some cmpRollAsc
  else if choice =? 2 then Some cmpRollDesc
  else if choice =? 3 then Some cmpNameAsc
  else if choice =? 4 then Some cmpNameDesc
  else if choice =? 5 then Some cmpAvgAsc
  else if choice =? 6 then Some cmpAvgDesc
  else None.

(** The contract of the C library's [qsort]: the array afterwards holds
    the same elements, in ascending order of the comparison function.
    Which algorithm produces it is not fixed. *)
Definition qsort_post (cmp : comparator) (a a' : Store) : Prop :=
  Permutation a a' /\ StronglySorted (fun x y => cmp x y <= 0) a'.

(** One sorting procedure that meets the contract whenever the comparison
    function is an ordering of the elements: insertion sort. *)
Fixpoint insert_sorted (cmp : comparator) (x : Student) (l : Store) : Store :=
  match l with
  | [] => [x]
  | y :: t => if cmp x y <=? 0 then x :: l else y :: insert_sorted cmp x t
  end.

Definition isort (cmp : comparator) (l : Store) : Store :=
  fold_right (insert_sorted cmp) [] l.

(** [sortMenu] with the menu entry [choice] (1..6, as [inputIntInRange]
    returns it): the arrays it may leave. *)
Definition sortMenu (st : Store) (choice : Z) (st' : Store) : Prop :=
  match st with
  | [] => st' = st
  | _ => exists cmp, menu_comparator choice = Some cmp /\ qsort_post cmp st st'
  end.

(* ================================================================== *)
(** * Statistics *)

Record Stats := mkStats {
  classSum : float;
  topIdx : nat;
  lowIdx : nat;
  gradeA : Z;
  gradeB : Z;
  gradeC : Z;
  gradeD : Z;
  gradeF : Z
}.

(** One turn of the loop of [showStats]. *)
Definition stats_step (st : Store) (acc : Stats) (i : nat) : Stats :=
  let s := nth i st zeroStudent in
  let sum := f32_add (classSum acc) (average s) in
  let top := if f32_gt (average s) (average (nth (topIdx acc) st zeroStudent))
             then i else topIdx acc in
  let low := if f32_lt (average s) (average (nth (lowIdx acc) st zeroStudent))
             then i else lowIdx acc in
  let g := grade s in
  if g =? ch "A"%char then
    mkStats sum top low (gradeA acc + 1) (gradeB acc) (gradeC acc) (gradeD acc) (gradeF acc)
  else if g =? ch "B"%char then
    mkStats sum top low (gradeA acc) (gradeB acc + 1) (gradeC acc) (gradeD acc) (gradeF acc)
  else if g =? ch "C"%char then
    mkStats sum top low (gradeA acc) (gradeB acc) (gradeC acc + 1) (gradeD acc) (gradeF acc)
  else if g =? ch "D"%char then
    mkStats sum top low (gradeA acc) (gradeB acc) (gradeC acc) (gradeD acc + 1) (gradeF acc)
  else
    mkStats sum top low (gradeA acc) (gradeB acc) (gradeC acc) (gradeD acc) (gradeF acc + 1).

(** [classSum = 0.0f; topIdx = 0, lowIdx = 0;] and the five counters at 0 *)
Definition stats_init : Stats := mkStats (S754_zero false) 0 0 0 0 0 0 0.

Definition stats_loop (st : Store) : Stats :=
  fold_left (stats_step st) (seq 0 (length st)) stats_init.

(** What [showStats] prints: the count, the class average, the topper,
    the lowest and the five grade counters; nothing on an empty store. *)
Record Report := mkReport {
  total : Z;
  classAvg : float;
  topper : Student;
  lowest : Student;
  grades : Z * Z * Z * Z * Z
}.

Definition showStats (st : Store) : option Report :=
  match st with
  | [] => None
  | _ =>
      let r := stats_loop st in
      Some (mkReport (studentCount st)
                     (f32_div (classSum r) (f32_of_int (studentCount st)))
                     (nth (topIdx r) st zeroStudent)
                     (nth (lowIdx r) st zeroStudent)
                     (gradeA r, gradeB r, gradeC r, gradeD r, gradeF r))
  end.

(* ================================================================== *)
(** * Formatted output *)

Fixpoint uint_chars (d : Decimal.uint) : list char :=
  match d with
  | Decimal.Nil => []
  | Decimal.D0 d => 48 :: uint_chars d
  | Decimal.D1 d => 49 :: uint_chars d
  | Decimal.D2 d => 50 :: uint_chars d
  | Decimal.D3 d => 51 :: uint_chars d
  | Decimal.D4 d => 52 :: uint_chars d
  | Decimal.D5 d => 53 :: uint_chars d
  | Decimal.D6 d => 54 :: uint_chars d
  | Decimal.D7 d => 55 :: uint_chars d
  | Decimal.D8 d => 56 :: uint_chars d
  | Decimal.D9 d => 57 :: uint_chars d
  end.

(** [printf("%d", z)] *)
Definition fmt_d (z : Z) : list char :=
  match Z.to_int z with
  | Decimal.Pos d => uint_chars d
  | Decimal.Neg d => ch "-"%char :: uint_chars d
  end.

(** The integer nearest to [num / den], ties to the even one
    ([num >= 0], [den > 0]). *)
Definition round_half_even (num den : Z) : Z :=
  let q := num / den in
  let r := num mod den in
  match 2 * r ?= den with
  | Lt => q
  | Gt => q + 1
  | Eq => if Z.even q then q else q + 1
  end.

(** The hundredths of the magnitude of a finite float, rounded as
    [printf] rounds the exact binary value. *)
Definition hundredths (m : positive) (e : Z) : Z :=
  if 0 <=? e then Zpos m * 2 ^ e * 100
  else round_half_even (Zpos m * 100) (2 ^ (- e)).

Definition fmt_sign (s : bool) : list char := if s then [ch "-"%char] else [].

Definition fmt_hundredths (n : Z) : list char :=
  fmt_d (n / 100) ++ [ch "."%char; 48 + (n / 10) mod 10; 48 + n mod 10].

(** [printf("%.2f", x)] for a [float] argument (promoted to [double]
    without change of value).  The sign of a NaN is not represented. *)
Definition fmt_2f (x : float) : list char :=
  match x with
  | S754_nan => cstr "nan"
  | S754_infinity s => fmt_sign s ++ cstr "inf"
  | S754_zero s => fmt_sign s ++ cstr "0.00"
  | S754_finite s m e => fmt_sign s ++ fmt_hundredths (hundredths m e)
  end.

(* ================================================================== *)
(** * Persistence: writing *)

Definition header_line : list char :=
  cstr "roll,name,subjectCount,marks,average,grade" ++ [ch "010"%char].

(** The marks joined by semicolons:
    [for (j = 0; j < subjectCount; ++j) { "%d"; if (j != subjectCount - 1) ";" }] *)
Definition fmt_marks (s : Student) : list char :=
  fold_left (fun out j =>
               out ++ fmt_d (nth j (marks s) 0)
                   ++ (if Z.of_nat j =? subjectCount s - 1 then [] else [ch ";"%char]))
            (seq 0 (Z.to_nat (subjectCount s))) [].

(** The text written for one record, without the final newline. *)
Definition fmt_record (s : Student) : list char :=
  fmt_d (roll s) ++ [ch ","%char] ++ name s ++ [ch ","%char]
  ++ fmt_d (subjectCount s) ++ [ch ","%char]
  ++ fmt_marks s
  ++ [ch ","%char] ++ fmt_2f (average s) ++ [ch ","%char] ++ [grade s].

(** The contents [saveAll] gives the data file. *)
Definition saveAll (st : Store) : list char :=
  header_line ++ concat (map (fun s => fmt_record s ++ [ch "010"%char]) st).

(* ================================================================== *)
(** * Reading numbers *)

Definition isspace (c : char) : bool :=
  (c =? 32) || ((9 <=? c) && (c <=? 13)).

Definition isdigit (c : char) : bool := (48 <=? c) && (c <=? 57).

Fixpoint skip_spaces (l : list char) : list char :=
  match l with
  | c :: t => if isspace c then skip_spaces t else l
  | [] => []
  end.

(** An optional sign: whether it is a minus, and what follows it. *)
Definition read_sign (l : list char) : bool * list char :=
  match l with
  | c :: t => if c =? ch "-"%char then (true, t)
              else if c =? ch "+"%char then (false, t)
              else (false, l)
  | [] => (false, [])
  end.

(** The leading decimal digits of [l], accumulated onto [acc]; also how
    many there are and what follows them. *)
Fixpoint read_digits (l : list char) (acc : Z) (k : nat) : Z * nat * list char :=
  match l with
  | c :: t => if isdigit c then read_digits t (acc * 10 + (c - 48)) (S k)
              else (acc, k, l)
  | [] => (acc, k, [])
  end.

Definition LONG_MAX : Z := 2 ^ 63 - 1.
Definition LONG_MIN : Z := - 2 ^ 63.

(** [strtol(s, NULL, 10)], which stops at the bounds of [long]. *)
Definition strtol (s : list char) : Z :=
  let '(neg, l) := read_sign (skip_spaces s) in
  let '(v, _, _) := read_digits l 0 0 in
  Z.max LONG_MIN (Z.min LONG_MAX (if neg then - v else v)).

(** [atoi(s)] is [(int) strtol(s, NULL, 10)]. *)
Definition atoi (s : list char) : Z := wrap32 (strtol s).

(** The exponent part of a decimal floating constant, when there is one. *)
Definition read_exponent (l : list char) : Z :=
  match l with
  | c :: t =>
      if (c =? ch "e"%char) || (c =? ch "E"%char) then
        let '(neg, t') := read_sign t in
        let '(x, k, _) := read_digits t' 0 0 in
        match k with O => 0 | _ => if neg then - x else x end
      else 0
  | [] => 0
  end.

(** [atof(s)] on the decimal notation [digits[.digits][e[+-]digits]]: the
    [double] nearest to the number written.  The hexadecimal, infinity
    and NaN notations of [strtod] are not read by this definition; no
    text written by [saveAll] for a finite average uses them. *)
Definition atof (s : list char) : double :=
  let '(neg, l) := read_sign (skip_spaces s) in
  let '(n1, k1, l1) := read_digits l 0 0 in
  let '(n, k2, l2) :=
    match l1 with
    | c :: t => if c =? ch "."%char then read_digits t n1 0 else (n1, O, l1)
    | [] => (n1, O, l1)
    end in
  match (k1 + k2)%nat with
  | O => S754_zero false
  | _ =>
      let x := read_exponent l2 - Z.of_nat k2 in
      match n with
      | Zpos p =>
          SFdiv f64_prec f64_emax
                (S754_finite neg (Z.to_pos (Zpos p * 10 ^ Z.max x 0)) 0)
                (S754_finite false (Z.to_pos (10 ^ Z.max (- x) 0)) 0)
      | _ => S754_zero neg
      end
  end.

(* ================================================================== *)
(** * Tokens *)

Fixpoint skip_delims (d : char) (l : list char) : list char :=
  match l with
  | c :: t => if c =? d then skip_delims d t else l
  | [] => []
  end.

(** The characters of [l] before the first [d], and what follows that [d]. *)
Fixpoint split_at (d : char) (l : list char) : list char * list char :=
  match l with
  | c :: t => if c =? d then ([], t)
              else let '(tok, rest) := split_at d t in (c :: tok, rest)
  | [] => ([], [])
  end.

(** One call of [strtok] from the position [s] with the single delimiter
    [d]: the token found, if any, and the position saved for the next
    call. *)
Definition strtok_at (s : list char) (d : char) : option (list char) * list char :=
  match skip_delims d s with
  | [] => (None, [])
  | l => let '(tok, rest) := split_at d l in (Some tok, rest)
  end.

(** Computations that use [strtok]: they carry the position the function
    keeps in its static variable, and fail where the loop body of
    [loadAll] does [continue]. *)
Definition Tok (A : Type) : Type := list char -> option (A * list char).

Definition ret {A} (a : A) : Tok A := fun save => Some (a, save).
Definition fail {A} : Tok A := fun _ => None.
Definition bind {A B} (m : Tok A) (f : A -> Tok B) : Tok B :=
  fun save => match m save with
              | Some (a, save') => f a save'
              | None => None
              end.

Notation "x <- m ;; k" := (bind m (fun x => k))
  (at level 61, m at next level, right associativity).
Notation "' p <- m ;; k" := (bind m (fun x => let 'p := x in k))
  (at level 61, p pattern, m at next level, right associativity).

(** [strtok(arg, d)]: from [arg] when it is given, from the saved
    position when it is [NULL]. *)
Definition strtok (arg : option (list char)) (d : char) : Tok (option (list char)) :=
  fun save =>
    let s := match arg with Some s => s | None => save end in
    let '(tok, save') := strtok_at s d in Some (tok, save').

(** [tok = strtok(arg, d); if (!tok) continue;] *)
Definition token (arg : option (list char)) (d : char) : Tok (list char) :=
  t <- strtok arg d ;;
  match t with Some tok => ret tok | None => fail end.

(* ================================================================== *)
(** * Persistence: reading *)

(** The characters [fgets] stores when it may store at most [n]: it stops
    after a newline. *)
Fixpoint fgets_chars (n : nat) (fp : list char) : list char * list char :=
  match n, fp with
  | S n', c :: rest =>
      if c =? 10 then ([c], rest)
      else let '(l, r) := fgets_chars n' rest in (c :: l, r)
  | _, _ => ([], fp)
  end.

(** [fgets(line, size, fp)]: the buffer and the rest of the stream, or
    nothing at the end of the stream. *)
Definition fgets (size : Z) (fp : list char) : option (list char * list char) :=
  match fp with
  | [] => None
  | _ => Some (fgets_chars (Z.to_nat (size - 1)) fp)
  end.

(** The C string held by a buffer: what precedes its first NUL. *)
Fixpoint c_string (buf : list char) : list char :=
  match buf with
  | c :: t => if c =? 0 then [] else c :: c_string t
  | [] => []
  end.

(** [if (ln && (p[ln-1] == '\n' || p[ln-1] == '\r')) p[--ln] = '\0';] *)
Definition strip_newline (p : list char) : list char :=
  match rev p with
  | c :: r => if (c =? 10) || (c =? 13) then rev r else p
  | [] => p
  end.

(** [strncmp(line, "roll,", 5) == 0] *)
Definition has_header (line : list char) : bool :=
  if list_eq_dec Z.eq_dec (firstn 5 line) (cstr "roll,") then true else false.

(** [while (mtok && idx < subjectCount) { marks[idx++] = atoi(mtok);
    mtok = strtok(NULL, ";"); }] with [k] turns left before [idx]
    reaches [subjectCount]. *)
Fixpoint marks_loop (k : nat) (idx : nat) (mtok : option (list char))
         (a : list Z) : Tok (nat * list Z) :=
  match k, mtok with
  | S k', Some t =>
      mtok' <- strtok None (ch ";"%char) ;;
      marks_loop k' (S idx) mtok' (set_nth idx (atoi t) a)
  | _, _ => ret (idx, a)
  end.

(** The block that reads the marks field [tok] of a record with [n]
    subjects into the array [a]: [strncpy(tmp, tok, 511)], a first
    [strtok(tmp, ";")], then the loop.  It returns [idx] and the array. *)
Definition read_marks (tok : list char) (n : Z) (a : list Z) : Tok (nat * list Z) :=
  let tmp := strncpy 511 tok in
  mtok <- strtok (Some tmp) (ch ";"%char) ;;
  marks_loop (Z.to_nat n) 0 mtok a.

(** The body of the reading loop of [loadAll] on one line [p] (newline
    already stripped): the record it stores, or a failure where it does
    [continue].  The first call of [strtok] is on [p] itself, so the
    position saved by an earlier line plays no part. *)
Definition parseLine (p : list char) : Tok Student :=
  let comma := ch ","%char in
  tok <- token (Some p) comma ;;
  let s := set_roll zeroStudent (atoi tok) in
  tok <- token None comma ;;
  let s := set_name s (strncpy (MAX_NAME - 1) tok) in
  tok <- token None comma ;;
  let s := set_subjectCount s (atoi tok) in
  if (subjectCount s <? 1) || (subjectCount s >? MAX_SUBJECTS) then fail
  else
    tok <- token None comma ;;
    '(idx, a) <- read_marks tok (subjectCount s) (marks s) ;;
    if negb (Z.of_nat idx =? subjectCount s) then fail
    else
      let s := set_marks s a in
      tok <- token None comma ;;
      let s := set_average s (f32_of_double (atof tok)) in
      tok <- token None comma ;;
      let s := set_grade s (hd 0 tok) in
      ret s.

(** The reading loop of [loadAll]; every turn takes at least one
    character off the stream, so [fuel] = its length is enough. *)
Fixpoint load_loop (fuel : nat) (fp : list char) (st : Store) : Store :=
  match fuel with
  | O => st
  | S fuel' =>
      match fgets 1024 fp with
      | None => st
      | Some (line, rest) =>
          if studentCount st >=? MAX_STUDENTS then st
          else
            match parseLine (strip_newline (c_string line)) [] with
            | Some (s, _) => load_loop fuel' rest (st ++ [s])
            | None => load_loop fuel' rest st
            end
      end
  end.

(** [loadAll]: [file] is the contents of the data file, if it exists;
    [st] the array before the call. *)
Definition loadAll (st : Store) (file : option (list char)) : Store :=
  match file with
  | None => []
  | Some fp =>
      match fgets 1024 fp with
      | None => st
      | Some (line, rest) =>
          let data := if has_header (c_string line) then rest else fp in
          load_loop (length data) data []
      end
  end.

Definition Zrange (lo hi : Z) : list Z :=
  map (fun k => lo + Z.of_nat k) (seq 0 (Z.to_nat (hi - lo))).

Definition check_recompute (n sum : Z) : bool :=
  let avg := f32_div (f32_of_int sum) (f32_of_int n) in
  let q := (inject_Z sum / inject_Z n)%Q in
  f32_is_finite avg
  && Qle_bool (Qabs (f32_value avg - q)) (f32_half_ulp avg)
  && Qle_bool (f32_half_ulp avg) (1 # 262144)
  && (calculateGrade avg =? grade_of_mean q)
  && (if (sum * 2 ^ 17) mod n =? 0 then Qeq_bool (f32_value avg) q else true).

(** The single-precision float nearest to the decimal [n / 10 ^ k], as a
    floating constant with suffix [f] denotes it ([n > 0]). *)
Definition f32_lit (n : Z) (k : Z) : float :=
  SFdiv f32_prec f32_emax (S754_finite false (Z.to_pos n) 0)
        (S754_finite false (Z.to_pos (10 ^ k)) 0).

Definition alice_entry : Student :=
  mkStudent 1 (cstr "Alice") 3 [85; 90; 78; 0; 0; 0; 0; 0; 0; 0] (S754_zero false) 0.

(** The largest element of a list of rolls, 0 when there is none. *)
Definition max_roll (l : list Z) : Z :=
  match l with
  | [] => 0
  | x :: t => fold_left Z.max t x
  end.

Definition rolls (st : Store) : list Z := map roll st.

(* ================================================================== *)
(** * The states the program reaches *)

(** The array starts empty; [main] calls [loadAll] once and then the menu
    runs the actions in any order.  An add is a step only while
    [findMaxRoll() + 1] is representable: signed overflow has no defined
    behaviour in C.  The scores come from [inputIntInRange]. *)
Inductive reachable : Store -> Prop :=
| reach_init : reachable []
| reach_load st file :
    reachable st -> reachable (loadAll st file)
| reach_add st buf n ms :
    reachable st -> entered_ok n ms -> findMaxRoll st < INT_MAX ->
    reachable (fst (addStudent st buf n ms))
| reach_update st r choice buf n ms :
    reachable st -> entered_ok n ms ->
    reachable (fst (updateStudent st r choice buf n ms))
| reach_delete st r c :
    reachable st -> reachable (fst (deleteStudent st r c))
| reach_sort st choice st' :
    reachable st -> sortMenu st choice st' -> reachable st'.

(* ================================================================== *)
(** * The order of floats *)

(** A key whose lexicographic order is the order [SFcompare] decides on
    floats that are not NaN: class (-2 for -inf, -1 negative, 0 zero,
    1 positive, 2 for +inf), then exponent and mantissa, negated for the
    negative numbers. *)
Definition f32_rank (x : float) : Z * Z * Z :=
  match x with
  | S754_nan => (0, 0, 0)
  | S754_zero _ => (0, 0, 0)
  | S754_infinity s => (if s then -2 else 2, 0, 0)
  | S754_finite false m e => (1, e, Zpos m)
  | S754_finite true m e => (-1, - e, Zneg m)
  end.

Definition lex_compare (a b : Z * Z * Z) : comparison :=
  let '(a1, a2, a3) := a in
  let '(b1, b2, b3) := b in
  match a1 ?= b1 with
  | Eq => match a2 ?= b2 with Eq => a3 ?= b3 | c => c end
  | c => c
  end.

Definition not_nan (s : Student) : Prop := f32_is_nan (average s) = false.

(** A record as [recompute] leaves it: valid scores, and the average field
    derived from them. *)
Definition average_derived (s : Student) : Prop :=
  valid_scores s /\ average s = average (recompute s).

(** The average of the record in cell [i]. *)
Definition avg_at (st : Store) (i : nat) : float := average (nth i st zeroStudent).

(** The running sum of [showStats] over a list of averages. *)
Definition float_sum (l : list float) : float := fold_left f32_add l (S754_zero false).

(** The exact arithmetic mean of a list of rationals. *)
Definition qmean (l : list Q) : Q :=
  (fold_right Qplus 0 l / inject_Z (Z.of_nat (length l)))%Q.

(* ================================================================== *)
(** * Example stores *)

Definition alice_store : Store :=
  fst (addStudent [] (cstr "Alice") 3 [85; 90; 78]).

Definition alice_bob_store : Store :=
  fst (addStudent alice_store (cstr "Bob") 3 [40; 45; 50]).

Definition three_store : Store :=
  fst (addStudent alice_bob_store (cstr "Carol") 1 [20]).

(** The keys the data model allows: a positive roll that fits an [int]
    and a name made of [unsigned char] codes. *)
Definition valid_key (s : Student) : Prop :=
  1 <= roll s <= INT_MAX /\ Forall (fun c => 0 <= c <= 255) (name s).

(** Two records have the same sort key for an entry of the sort menu:
    the same roll (entries 1 and 2), the same name once in lower case
    (entries 3 and 4), averages that are the same number (entries 5
    and 6). *)
Definition same_key (choice : Z) (x y : Student) : Prop :=
  if (choice =? 1) || (choice =? 2) then roll x = roll y
  else if (choice =? 3) || (choice =? 4)
       then map tolower (name x) = map tolower (name y)
       else (f32_value (average x) == f32_value (average y))%Q.

(** The sort keys of an array are pairwise distinct. *)
Definition distinct_sort_keys (choice : Z) (a : Store) : Prop :=
  ForallOrdPairs (fun x y => ~ same_key choice x y) a.

(* ================================================================== *)
(** * Reading back what was written *)

(** The number a string of decimal digits denotes, continuing [acc]. *)
Fixpoint decimal_value (ds : list char) (acc : Z) : Z :=
  match ds with
  | c :: t => decimal_value t (acc * 10 + (c - 48))
  | [] => acc
  end.

(** A reading of digits stops in front of [rest]. *)
Definition stops (rest : list char) : Prop :=
  match rest with
  | c :: _ => isdigit c = false
  | [] => True
  end.

(** Scores joined by semicolons. *)
Fixpoint join_marks (ms : list Z) : list char :=
  match ms with
  | [] => []
  | m :: t => fmt_d m ++ match t with [] => [] | _ => ch ";"%char :: join_marks t end
  end.

(** [a[idx] = m0; a[idx + 1] = m1; ...] *)
Fixpoint write_from (idx : nat) (ms : list Z) (a : list Z) : list Z :=
  match ms with
  | [] => a
  | m :: t => write_from (S idx) t (set_nth idx m a)
  end.

(** The comma-separated tokens [strtok] finds in a line when nothing else
    uses it in between: the first six. *)
Definition six_fields (p : list char) : Tok (list (list char)) :=
  let comma := ch ","%char in
  t1 <- token (Some p) comma ;;
  t2 <- token None comma ;;
  t3 <- token None comma ;;
  t4 <- token None comma ;;
  t5 <- token None comma ;;
  t6 <- token None comma ;;
  ret [t1; t2; t3; t4; t5; t6].

(** A well-formed record: a roll that is an [int], a name that is not
    empty, holds no comma and fits its buffer, valid scores, and the
    average and grade that [recompute] derives from them. *)
Definition well_formed (s : Student) : Prop :=
  in_int (roll s)
  /\ name s <> [] /\ ~ In (ch ","%char) (name s)
  /\ Z.of_nat (length (name s)) < MAX_NAME
  /\ valid_scores s
  /\ average s = average (recompute s)
  /\ grade s = grade (recompute s).

Definition check_average_text (n sum : Z) : bool :=
  let avg := f32_div (f32_of_int sum) (f32_of_int n) in
  let txt := fmt_2f avg in
  let back := f32_of_double (atof txt) in
  negb (existsb (Z.eqb (ch ","%char)) txt)
  && negb (Nat.eqb (length txt) 0)
  && (if list_eq_dec Z.eq_dec (fmt_2f back) txt then true else false)
  && Qle_bool (Qabs (f32_value back - f32_value avg)) ((1 # 200) + (1 # 262144))
  && negb (calculateGrade avg =? ch ","%char).

(* ================================================================== *)
(** * Rounding error of the class average *)

(** Position of a remainder [R] in [0, D) as the two bits of a shift
    record tell it. *)
Definition loc_sem (r s : bool) (R D : Z) : Prop :=
  0 <= R < D /\
  match r, s with
  | false, false => R = 0
  | false, true => 0 < 2 * R < D
  | true, false => 2 * R = D
  | true, true => D < 2 * R
  end.

(** The record [x] holds the integer part of [N / D] and the position of
    the rest. *)
Definition shr_inv (N D : Z) (x : shr_record) : Prop :=
  0 <= shr_m x /\
  exists R, N = shr_m x * D + R /\ loc_sem (shr_r x) (shr_s x) R D.

(** A positive normal number: full-width mantissa, exponent in range. *)
Definition normal (prec emax : Z) (m : positive) (e : Z) : Prop :=
  2 ^ (prec - 1) <= Zpos m < 2 ^ prec /\ emin prec emax <= e.

(** The value of a float in units of 2^-64 (an integer for the floats of
    exponent at least -64). *)
Definition f32_units (x : float) : Z :=
  match x with
  | S754_finite s m e => (if s then Zneg m else Zpos m) * 2 ^ (e + 64)
  | _ => 0
  end.

(** Zero, or a positive normal float of exponent at least -27: the
    averages of valid records and their running sums. *)
Definition f32_ok (x : float) : Prop :=
  x = S754_zero false
  \/ exists m e, x = S754_finite false m e /\ normal f32_prec f32_emax m e /\ -27 <= e.

(** The exact sum of a list of floats, in the same units. *)
Definition units_sum (l : list float) : Z := fold_right Z.add 0 (map f32_units l).

(** The counts: 1 .. MAX_STUDENTS converted to float. *)
Definition check_count (n : Z) : bool :=
  match f32_of_int n with
  | S754_finite false m e =>
      (2 ^ 23 <=? Zpos m) && (Zpos m <? 2 ^ 24) && (-23 <=? e) && (e <=? -14)
      && (Zpos m =? n * 2 ^ (- e))
  | _ => false
  end.

(** The average [recompute] derives from the sum [sum] of [n] valid scores:
    zero or a positive normal float of at most 100. *)
Definition check_average_ok (n sum : Z) : bool :=
  match f32_div (f32_of_int sum) (f32_of_int n) with
  | S754_zero false => true
  | S754_finite false m e =>
      (2 ^ 23 <=? Zpos m) && (Zpos m <? 2 ^ 24) && (-27 <=? e) && (e <=? 0)
      && (Zpos m * 2 ^ (e + 64) <=? 100 * 2 ^ 64)
  | _ => false
  end.

(** The unit as a rational: 2^64 units make one. *)
Definition two64 : Q := inject_Z (2 ^ 64).


(* ================================================================== *)
(** * Searching by name *)

(** The inner loop of [containsIgnoreCase], from the position [p] of the
    haystack: the index [i] it stops at, that is how many leading
    characters of [p] match those of the needle, letter case apart. *)
Fixpoint match_length (p needle : list char) : nat :=
  match needle, p with
  | n :: needle', c :: p' =>
      if tolower c =? tolower n then S (match_length p' needle') else O
  | _, _ => O
  end.

(** [for (p = haystack; *p; ++p) { ...; if (i == nlen) return 1; } return 0;] *)
Fixpoint contains_from (p needle : list char) : Z :=
  match p with
  | [] => 0
  | _ :: p' =>
      if Nat.eqb (match_length p needle) (length needle) then 1
      else contains_from p' needle
  end.

Definition containsIgnoreCase (haystack needle : list char) : Z :=
  match needle with
  | [] => 1
  | _ => contains_from haystack needle
  end.

(* ================================================================== *)
(** * The table on the screen *)

Definition endl : list char := [ch "010"%char].

(** A conversion with the flag [-] and the field width [w]: the text,
    then spaces up to the width. *)
Definition pad_right (w : nat) (l : list char) : list char :=
  l ++ repeat (ch " "%char) (w - length l).

(** ["%-6s  %-25s  %-8s  %-8s  %-5s\n"] on the five column titles, then
    the rule under them. *)
Definition fmt_table_head : list char :=
  pad_right 6 (cstr "Roll") ++ cstr "  " ++ pad_right 25 (cstr "Name") ++ cstr "  "
  ++ pad_right 8 (cstr "Subjects") ++ cstr "  " ++ pad_right 8 (cstr "Average")
  ++ cstr "  " ++ pad_right 5 (cstr "Grade") ++ endl
  ++ cstr "------  -------------------------  --------  --------  -----" ++ endl.

Definition printTableHeader : list char := endl ++ fmt_table_head.

(** ["%-6d  %-25.25s  %-8d  %-8.2f  %-5c\n"]: at most 25 characters of
    the name are printed. *)
Definition printStudentRow (s : Student) : list char :=
  pad_right 6 (fmt_d (roll s)) ++ cstr "  "
  ++ pad_right 25 (firstn 25 (name s)) ++ cstr "  "
  ++ pad_right 8 (fmt_d (subjectCount s)) ++ cstr "  "
  ++ pad_right 8 (fmt_2f (average s)) ++ cstr "  "
  ++ pad_right 5 [grade s] ++ endl.

(** [listAll]: the text it prints. *)
Definition listAll (st : Store) : list char :=
  match st with
  | [] => cstr "No records to display." ++ endl
  | _ => printTableHeader ++ fold_left (fun out s => out ++ printStudentRow s) st []
  end.

(** The marks as [searchByRoll] prints them:
    [for (i = 0; i < subjectCount; ++i) { "%d"; if (i != subjectCount - 1) ", " }] *)
Definition fmt_marks_detail (s : Student) : list char :=
  fold_left (fun out i =>
               out ++ fmt_d (nth i (marks s) 0)
                   ++ (if Z.of_nat i =? subjectCount s - 1 then [] else cstr ", "))
            (seq 0 (Z.to_nat (subjectCount s))) [].

(** [searchByRoll]: [r] is the roll [inputIntInRange] returned; the text
    printed after that dialogue (on an empty array, instead of it). *)
Definition searchByRoll (st : Store) (r : Z) : list char :=
  match st with
  | [] => cstr "No records." ++ endl
  | _ =>
      let idx := findIndexByRoll st r in
      if idx <? 0 then cstr "No student with roll " ++ fmt_d r ++ cstr "." ++ endl
      else
        let s := nth (Z.to_nat idx) st zeroStudent in
        printTableHeader ++ printStudentRow s
        ++ cstr "Marks: " ++ fmt_marks_detail s ++ endl
  end.

(** One turn of the loop of [searchByName]: the text so far and [hits]. *)
Definition search_step (q : list char) (acc : list char * Z) (s : Student)
  : list char * Z :=
  if containsIgnoreCase (name s) q =? 0 then acc
  else (fst acc ++ printStudentRow s, snd acc + 1).

(** [searchByName]: [q] is the line read for the query; the text printed. *)
Definition searchByName (st : Store) (q : list char) : list char :=
  match st with
  | [] => cstr "No records." ++ endl
  | _ =>
      cstr "Enter name (or part of it): "
      ++ match q with
         | [] => cstr "Query empty." ++ endl
         | _ =>
             let '(out, hits) := fold_left (search_step q) st (printTableHeader, 0) in
             if hits =? 0
             then out ++ cstr "No matches for " ++ [34] ++ q ++ [34] ++ cstr "." ++ endl
             else out
         end
  end.

(* ================================================================== *)
(** * The report file *)

(** One turn of the second loop of [exportReport]: the running sum and
    the two indices. *)
Definition export_step (st : Store) (acc : float * nat * nat) (i : nat)
  : float * nat * nat :=
  let '(sum, top, low) := acc in
  let a := average (nth i st zeroStudent) in
  (f32_add sum a,
   if f32_gt a (average (nth top st zeroStudent)) then i else top,
   if f32_lt a (average (nth low st zeroStudent)) then i else low).

(** ["Roll %d (%s) Avg %.2f\n"] after a label. *)
Definition fmt_extreme (label : list char) (s : Student) : list char :=
  label ++ cstr "Roll " ++ fmt_d (roll s) ++ cstr " (" ++ name s ++ cstr ") Avg "
  ++ fmt_2f (average s) ++ endl.

(** The five lines written after the table. *)
Definition fmt_summary (n : Z) (avg : float) (top low : Student) : list char :=
  endl ++ cstr "--- Summary ---" ++ endl
  ++ cstr "Total students : " ++ fmt_d n ++ endl
  ++ cstr "Class average  : " ++ fmt_2f avg ++ endl
  ++ fmt_extreme (cstr "Topper         : ") top
  ++ fmt_extreme (cstr "Lowest         : ") low.

Definition report_banner : list char :=
  cstr "==============================================" ++ endl
  ++ cstr "          Student Management Report           " ++ endl
  ++ cstr "==============================================" ++ endl ++ endl.

(** [exportReport]: the contents it gives the report file, which it is
    taken to open; on an empty array it writes no file.  The rows have
    the format of [printStudentRow]. *)
Definition exportReport (st : Store) : option (list char) :=
  match st with
  | [] => None
  | _ =>
      let '(sum, top, low) :=
        fold_left (export_step st) (seq 0 (length st)) (S754_zero false, O, O) in
      let avg := f32_div sum (f32_of_int (studentCount st)) in
      Some (report_banner ++ fmt_table_head
            ++ fold_left (fun out s => out ++ printStudentRow s) st []
            ++ fmt_summary (studentCount st) avg
                           (nth top st zeroStudent) (nth low st zeroStudent))
  end.

(* ================================================================== *)
(** * Reading the keyboard *)

(** [safeGets(buf, size)] on the input [stdin]: the string left in [buf]
    and the rest of the input; at the end of the input [fgets] fails and
    [buf] is not written. *)
Definition safeGets (size : Z) (stdin : list char) : option (list char) * list char :=
  match fgets size stdin with
  | None => (None, stdin)
  | Some (line, rest) =>
      let s := c_string line in
      (Some (match rev s with
             | c :: r => if c =? 10 then rev r else s
             | [] => s
             end), rest)
  end.

(** What [scanf("%d", &x)] does: a number stored, or no number found
    (the call returns 0 or [EOF]). *)
Inductive scan :=
| Scanned (x : Z)
| NoMatch.

(** [scanf("%d", &x)]: white space is skipped, a sign and the digits
    after it are taken off the input.  The number is converted as by
    [strtol], which stops at the bounds of [long], and stored in the
    [int]: of a number that does not fit, the low 32 bits are kept, as
    for [atoi]. *)
Definition scanf_d (stdin : list char) : scan * list char :=
  let '(neg, l) := read_sign (skip_spaces stdin) in
  let '(v, k, rest) := read_digits l 0 0 in
  match k with
  | O => (NoMatch, rest)
  | _ =>
      let x := if neg then - v else v in
      (Scanned (wrap32 (Z.max LONG_MIN (Z.min LONG_MAX x))), rest)
  end.

(** [while ((ch = getchar()) != '\n' && ch != EOF) {}] *)
Fixpoint flush_line (stdin : list char) : list char :=
  match stdin with
  | c :: t => if c =? 10 then t else flush_line t
  | [] => []
  end.

(** How a call of [inputIntInRange] ends: it returns [x] and leaves
    [rest] of the input, or it is still asking after the turns counted. *)
Inductive asked :=
| Entered (x : Z) (rest : list char)
| StillAsking.

(** [inputIntInRange(prompt, min, max)] on the input [stdin], for at most
    [turns] turns of its loop. *)
Fixpoint inputIntInRange (turns : nat) (min max : Z) (stdin : list char) : asked :=
  match turns with
  | O => StillAsking
  | S turns' =>
      match scanf_d stdin with
      | (Scanned x, rest) =>
          if (min <=? x) && (x <=? max) then Entered x (flush_line rest)
          else inputIntInRange turns' min max (flush_line rest)
      | (NoMatch, rest) => inputIntInRange turns' min max (flush_line rest)
      end
  end.

(* ================================================================== *)
(** * What the searches show, what the program keeps *)

(** Scores separated by a comma and a space. *)
Fixpoint join_detail (ms : list Z) : list char :=
  match ms with
  | [] => []
  | m :: t => fmt_d m ++ match t with [] => [] | _ => cstr ", " ++ join_detail t end
  end.

(** The records [searchByName] shows for the query [q]. *)
Definition name_matches (q : list char) (st : Store) : Store :=
  filter (fun s => containsIgnoreCase (name s) q =? 1) st.

(** A record as the program keeps it: well formed, with a positive roll
    and the full array of marks. *)
Definition kept_record (s : Student) : Prop :=
  well_formed s /\ 1 <= roll s /\ length (marks s) = Z.to_nat MAX_SUBJECTS.

(** How many records of an array have the grade [g]. *)
Definition count_grade (g : char) (st : Store) : Z :=
  Z.of_nat (length (filter (fun s => grade s =? g) st)).

(** How many have a grade that is none of A, B, C and D. *)
Definition count_other (st : Store) : Z :=
  Z.of_nat (length (filter (fun s => negb ((grade s =? ch "A"%char)
                                          || (grade s =? ch "B"%char)
                                          || (grade s =? ch "C"%char)
                                          || (grade s =? ch "D"%char))) st)).

(** The text of the average [recompute] derives from the sum [sum] of [n]
    valid scores has between four and six characters and no newline. *)
Definition check_average_width (n sum : Z) : bool :=
  let txt := fmt_2f (f32_div (f32_of_int sum) (f32_of_int n)) in
  Nat.leb 4 (length txt) && Nat.leb (length txt) 6
  && negb (existsb (Z.eqb 10) txt).

(* ================================================================== *)
(** * The dialogues *)

(** [getchar()]: the next character, or [EOF] at the end of the input. *)
Definition getchar (stdin : list char) : Z * list char :=
  match stdin with
  | c :: t => (c, t)
  | [] => (-1, [])
  end.

(** [for (i = 0; i < subjectCount; ++i) marks[i] = inputIntInRange(prompt, 0, 100);]
    for [k] subjects: the marks entered and the rest of the input, when
    every call returns within [turns] turns. *)
Fixpoint input_marks (turns : nat) (k : nat) (stdin : list char)
  : option (list Z * list char) :=
  match k with
  | O => Some ([], stdin)
  | S k' =>
      match inputIntInRange turns 0 100 stdin with
      | Entered m rest =>
          match input_marks turns k' rest with
          | Some (ms, rest') => Some (m :: ms, rest')
          | None => None
          end
      | _ => None
      end
  end.

(** The string in a buffer after [safeGets]: the line read, or, at the
    end of the input, the string [buf0] that the buffer, which is not
    initialised, happened to hold. *)
Definition buffer_after (buf0 : list char) (got : option (list char)) : list char :=
  match got with
  | Some buf => buf
  | None => buf0
  end.

(** [addStudent] with its dialogue: the name is read by [safeGets] into a
    buffer of 256 bytes that holds [buf0] before, the number of subjects
    and the marks by [inputIntInRange].  The result is the array, the
    message and the rest of the input; there is none when a call of
    [inputIntInRange] does not return within [turns] turns. *)
Definition addStudent_input (turns : nat) (st : Store) (buf0 : list char)
           (stdin : list char) : option (Store * message * list char) :=
  if studentCount st >=? MAX_STUDENTS then Some (st, MsgLimitReached, stdin)
  else
    let '(got, rest) := safeGets 256 stdin in
    match buffer_after buf0 got with
    | [] => Some (st, MsgNameEmpty, rest)
    | buf =>
        match inputIntInRange turns 1 MAX_SUBJECTS rest with
        | Entered n rest1 =>
            match input_marks turns (Z.to_nat n) rest1 with
            | Some (ms, rest2) =>
                let '(st', msg) := addStudent st buf n ms in Some (st', msg, rest2)
            | None => None
            end
        | StillAsking => None
        end
    end.

(** [deleteStudent] with its dialogue: the roll is read by
    [inputIntInRange]; the answer to the confirmation is the next
    character, and the input is then skipped up to the next newline. *)
Definition deleteStudent_input (turns : nat) (st : Store) (stdin : list char)
  : option (Store * message * list char) :=
  match st with
  | [] => Some (st, MsgNoRecords, stdin)
  | _ =>
      match inputIntInRange turns 1 1000000000 stdin with
      | Entered r rest =>
          if findIndexByRoll st r <? 0 then Some (st, MsgNoStudent r, rest)
          else
            let '(c, rest1) := getchar rest in
            let '(st', msg) := deleteStudent st r c in
            Some (st', msg, flush_line rest1)
      | _ => None
      end
  end.

(* ================================================================== *)
(** * The menu *)

(** [waitEnter]: the input is skipped up to the next newline, and one
    more character is read. *)
Definition waitEnter (stdin : list char) : list char :=
  snd (getchar (flush_line stdin)).

(** What [searchByRoll] and [searchByName] leave of the input: the first
    reads a roll with [inputIntInRange], the second a line with
    [safeGets] into a buffer of 128 bytes; neither reads anything on an
    empty array, and neither changes the array. *)
Definition searchByRoll_input (turns : nat) (st : Store) (stdin : list char)
  : option (list char) :=
  match st with
  | [] => Some stdin
  | _ =>
      match inputIntInRange turns 1 1000000000 stdin with
      | Entered _ rest => Some rest
      | StillAsking => None
      end
  end.

Definition searchByName_input (st : Store) (stdin : list char) : option (list char) :=
  match st with
  | [] => Some stdin
  | _ => Some (snd (safeGets 128 stdin))
  end.

(** [updateStudent] with its dialogue: the roll, then the entry of its
    menu, then the new name, read into a buffer of 256 bytes that holds
    [buf0] before, or the new scores. *)
Definition updateStudent_input (turns : nat) (st : Store) (buf0 : list char)
           (stdin : list char) : option (Store * message * list char) :=
  match st with
  | [] => Some (st, MsgNoRecords, stdin)
  | _ =>
      match inputIntInRange turns 1 1000000000 stdin with
      | Entered r rest =>
          if findIndexByRoll st r <? 0 then Some (st, MsgNoStudent r, rest)
          else
            match inputIntInRange turns 1 3 rest with
            | Entered choice rest1 =>
                if choice =? 1 then
                  let '(got, rest2) := safeGets 256 rest1 in
                  let '(st', msg) :=
                    updateStudent st r choice (buffer_after buf0 got) 0 [] in
                  Some (st', msg, rest2)
                else if choice =? 2 then
                  match inputIntInRange turns 1 MAX_SUBJECTS rest1 with
                  | Entered n rest2 =>
                      match input_marks turns (Z.to_nat n) rest2 with
                      | Some (ms, rest3) =>
                          let '(st', msg) := updateStudent st r choice [] n ms in
                          Some (st', msg, rest3)
                      | None => None
                      end
                  | StillAsking => None
                  end
                else
                  let '(st', msg) := updateStudent st r choice [] 0 [] in
                  Some (st', msg, rest1)
            | StillAsking => None
            end
      | StillAsking => None
      end
  end.

(** [sortMenu] with its dialogue: the arrays and inputs it may leave. *)
Definition sortMenu_input (turns : nat) (st : Store) (stdin : list char)
           (st' : Store) (rest : list char) : Prop :=
  match st with
  | [] => st' = st /\ rest = stdin
  | _ =>
      exists choice,
        inputIntInRange turns 1 6 stdin = Entered choice rest
        /\ sortMenu st choice st'
  end.

(** One entry of the main menu, from the array [st] and the input
    [stdin] to the array and the input it leaves.  Entries 2, 8 and 9
    ([listAll], [showStats], [exportReport]) read nothing and change
    nothing in the array.  The buffers for a name hold any string
    before they are read into.  [addStudent] computes
    [findMaxRoll() + 1] as soon as the array is not full: there is no run
    when that overflows. *)
Definition menu_action (turns : nat) (choice : Z) (st : Store) (stdin : list char)
           (st' : Store) (rest : list char) : Prop :=
  if choice =? 1 then
    (studentCount st < MAX_STUDENTS -> findMaxRoll st < INT_MAX)
    /\ exists buf0 msg, addStudent_input turns st buf0 stdin = Some (st', msg, rest)
  else if choice =? 3 then
    st' = st /\ searchByRoll_input turns st stdin = Some rest
  else if choice =? 4 then
    st' = st /\ searchByName_input st stdin = Some rest
  else if choice =? 5 then
    exists buf0 msg, updateStudent_input turns st buf0 stdin = Some (st', msg, rest)
  else if choice =? 6 then
    exists msg, deleteStudent_input turns st stdin = Some (st', msg, rest)
  else if choice =? 7 then
    sortMenu_input turns st stdin st' rest
  else st' = st /\ rest = stdin.

(** The loop of [menu], from the array [st] and the input [stdin] to the
    array and the input at the moment entry 0 is chosen: each turn reads
    the entry with [inputIntInRange], runs it and calls [waitEnter]. *)
Inductive menu (turns : nat) : Store -> list char -> Store -> list char -> Prop :=
| menu_exit st stdin rest :
    inputIntInRange turns 0 9 stdin = Entered 0 rest ->
    menu turns st stdin st rest
| menu_turn st stdin choice rest st1 rest1 st' rest' :
    inputIntInRange turns 0 9 stdin = Entered choice rest ->
    choice <> 0 ->
    menu_action turns choice st rest st1 rest1 ->
    menu turns st1 (waitEnter rest1) st' rest' ->
    menu turns st stdin st' rest'.

(** [main]: [loadAll] on the array, empty at the start, then [menu]; the
    array that [menu] saves when it returns, and the input left. *)
Definition main (turns : nat) (file : option (list char)) (stdin : list char)
           (st' : Store) (rest : list char) : Prop :=
  menu turns (loadAll [] file) stdin st' rest.

(* ================================================================== *)
(** * Proofs *)

(** ** Integer ranges *)

Lemma Zrange_In (lo hi z : Z) : lo <= z < hi -> In z (Zrange lo hi).
Proof.
  intros H. unfold Zrange. apply in_map_iff.
  exists (Z.to_nat (z - lo)). split; [lia|].
  apply in_seq. lia.
Qed.

Lemma wrap32_id (z : Z) : in_int z -> wrap32 z = z.
Proof.
  unfold in_int, INT_MIN, INT_MAX, wrap32. intros H.
  rewrite Z.mod_small; lia.
Qed.

(** ** The sum loop of [recompute] *)

Lemma fold_seq_nth {A} (g : A -> Z -> A) (l : list Z) :
  forall n k acc, (k + n <= length l)%nat ->
    fold_left (fun a i => g a (nth i l 0)) (seq k n) acc
    = fold_left g (firstn n (skipn k l)) acc.
Proof.
  induction n as [|n IH]; intros k acc Hk; [reflexivity|].
  simpl seq. simpl fold_left.
  rewrite IH by lia.
  assert (Hs : skipn k l = nth k l 0 :: skipn (S k) l).
  { clear - Hk. revert k Hk. induction l as [|x l IHl]; intros k Hk; simpl in *; [lia|].
    destruct k; [reflexivity|]. apply IHl. lia. }
  rewrite Hs. reflexivity.
Qed.

Lemma fold_wrap_sum (l : list Z) :
  forall acc, Forall (fun m => 0 <= m <= 100) l ->
    0 <= acc -> acc + 100 * Z.of_nat (length l) <= INT_MAX ->
    fold_left (fun a m => wrap32 (a + m)) l acc = acc + fold_right Z.add 0 l
    /\ 0 <= fold_right Z.add 0 l <= 100 * Z.of_nat (length l).
Proof.
  induction l as [|m l IH]; intros acc Hf H0 Hmax;
    cbn [fold_left fold_right length] in *.
  - split; lia.
  - inversion Hf as [|? ? Hm Hl]; subst.
    rewrite Nat2Z.inj_succ in Hmax.
    rewrite wrap32_id by (unfold in_int, INT_MIN, INT_MAX in *; lia).
    destruct (IH (acc + m) Hl) as [E B]; [lia|lia|].
    rewrite E. split; [lia|]. rewrite Nat2Z.inj_succ. lia.
Qed.

Lemma sum_marks_exact (s : Student) :
  valid_scores s ->
  sum_marks s = fold_right Z.add 0 (scores s)
  /\ Z.of_nat (length (scores s)) = subjectCount s
  /\ 0 <= sum_marks s <= 100 * subjectCount s.
Proof.
  intros (Hc & Hlen & Hf). unfold MAX_SUBJECTS in Hc.
  assert (L : Z.of_nat (length (scores s)) = subjectCount s).
  { unfold scores. rewrite length_firstn. lia. }
  unfold sum_marks.
  rewrite (fold_seq_nth (fun a m => wrap32 (a + m))) by (simpl; lia).
  simpl skipn. fold (scores s).
  destruct (fold_wrap_sum (scores s) 0 Hf) as [E B];
    [lia | unfold INT_MAX; lia |].
  rewrite E. rewrite L in B. repeat split; lia.
Qed.

(** ** The quotient of [recompute], checked on every sum and count *)

Lemma check_recompute_all :
  forallb (fun n => forallb (check_recompute n) (Zrange 0 (100 * n + 1)))
          (Zrange 1 11) = true.
Proof. vm_compute. reflexivity. Qed.

Lemma check_recompute_ok (n sum : Z) :
  1 <= n <= 10 -> 0 <= sum <= 100 * n -> check_recompute n sum = true.
Proof.
  intros Hn Hs.
  pose proof check_recompute_all as H.
  rewrite forallb_forall in H.
  specialize (H n (Zrange_In 1 11 n ltac:(lia))).
  rewrite forallb_forall in H.
  apply H, Zrange_In. lia.
Qed.

(** What [recompute] leaves in a record with valid scores. *)
Lemma recompute_correct (s : Student) :
  valid_scores s ->
  let avg := average (recompute s) in
  avg = float_mean (scores s)
  /\ f32_is_finite avg = true
  /\ (Qabs (f32_value avg - mean (scores s)) <= f32_half_ulp avg)%Q
  /\ (f32_half_ulp avg <= 1 # 262144)%Q
  /\ ((fold_right Z.add 0 (scores s) * 2 ^ 17) mod subjectCount s = 0 ->
      (f32_value avg == mean (scores s))%Q)
  /\ grade (recompute s) = calculateGrade avg
  /\ grade (recompute s) = grade_of_mean (mean (scores s)).
Proof.
  intros Hv. destruct (sum_marks_exact s Hv) as (E & L & B).
  pose proof Hv as (Hc & _). unfold MAX_SUBJECTS in Hc.
  pose proof (check_recompute_ok (subjectCount s) (sum_marks s) Hc B) as C.
  unfold check_recompute in C.
  repeat (apply andb_prop in C; destruct C as [C ?]).
  cbn [recompute average grade set_grade set_average].
  unfold mean, float_mean. rewrite L, <- E.
  repeat split; auto.
  - now apply Qle_bool_iff.
  - now apply Qle_bool_iff.
  - intros D. destruct (_ mod _ =? 0) eqn:T; [now apply Qeq_bool_iff | lia].
  - lia.
Qed.

(** C1. For a record with a subject count in [1..MAX_SUBJECTS] and scores in
    [0..100], [recompute] changes the average and the grade only; the
    average it stores is the sum of the scores divided by their number in
    floating-point division, which is the single-precision float nearest
    to the exact mean (at most half a unit in the last place away from it,
    which is below 2^-18, and equal to it when the mean is a multiple of
    2^-17); the grade is the first matching threshold A >= 90, B >= 75,
    C >= 60, D >= 50, else F, read on that average, and it is the same
    grade the table gives the exact mean.  The thresholds are inclusive:
    90.0 gives A and 89.99 gives B, 75.0 gives B and 74.99 gives C, 60.0
    gives C and 59.99 gives D, 50.0 gives D and 49.99 gives F. *)
Theorem recompute_mean_and_grade (s : Student) :
  valid_scores s ->
  let s' := recompute s in
  let avg := average s' in
  (roll s', name s', subjectCount s', marks s')
    = (roll s, name s, subjectCount s, marks s)
  /\ avg = float_mean (scores s)
  /\ f32_is_finite avg = true
  /\ (Qabs (f32_value avg - mean (scores s)) <= f32_half_ulp avg)%Q
  /\ (f32_half_ulp avg <= 1 # 262144)%Q
  /\ ((fold_right Z.add 0 (scores s) * 2 ^ 17) mod subjectCount s = 0 ->
      (f32_value avg == mean (scores s))%Q)
  /\ grade s' = calculateGrade avg
  /\ grade s' = grade_of_mean (mean (scores s))
  /\ (calculateGrade (f32_lit 9000 2) = ch "A"%char
      /\ calculateGrade (f32_lit 8999 2) = ch "B"%char
      /\ calculateGrade (f32_lit 7500 2) = ch "B"%char
      /\ calculateGrade (f32_lit 7499 2) = ch "C"%char
      /\ calculateGrade (f32_lit 6000 2) = ch "C"%char
      /\ calculateGrade (f32_lit 5999 2) = ch "D"%char
      /\ calculateGrade (f32_lit 5000 2) = ch "D"%char
      /\ calculateGrade (f32_lit 4999 2) = ch "F"%char).
Proof.
  intros Hv s' avg.
  destruct (recompute_correct s Hv) as (FM & F & N & U & X & G & GM).
  split; [reflexivity|].
  repeat (split; [assumption|]).
  repeat split; vm_compute; reflexivity.
Qed.

Lemma alice_entry_valid : valid_scores alice_entry.
Proof.
  unfold valid_scores, MAX_SUBJECTS. simpl.
  split; [lia|]. split; [lia|]. repeat constructor; lia.
Qed.

Lemma recompute_mean_and_grade_witness :
  valid_scores alice_entry /\
  average (recompute alice_entry) = S754_finite false 11053739 (-17) /\
  grade (recompute alice_entry) = ch "B"%char /\
  grade (recompute alice_entry) = grade_of_mean (mean (scores alice_entry)).
Proof.
  split; [exact alice_entry_valid|].
  split; [reflexivity|]. split; [reflexivity|].
  exact (proj1 (proj2 (proj2 (proj2 (proj2 (proj2
    (proj2 (proj2 (recompute_mean_and_grade alice_entry alice_entry_valid))))))))).
Defined.

(** ** Arrays *)

Lemma set_nth_length {A} (i : nat) (x : A) (a : list A) :
  length (set_nth i x a) = length a.
Proof.
  revert i; induction a as [|h t IH]; intros [|i]; simpl; auto.
Qed.

Lemma set_nth_app {A} (pre : list A) (x y : A) (post : list A) :
  set_nth (length pre) y (pre ++ x :: post) = pre ++ y :: post.
Proof.
  induction pre as [|h t IH]; simpl; [reflexivity|]. now rewrite IH.
Qed.

Lemma nth_app_mid {A} (pre : list A) (x : A) (post : list A) (d : A) :
  nth (length pre) (pre ++ x :: post) d = x.
Proof.
  induction pre as [|h t IH]; simpl; auto.
Qed.

Lemma set_nth_beyond {A} (i : nat) (x : A) (a : list A) :
  (length a <= i)%nat -> set_nth i x a = a.
Proof.
  revert i; induction a as [|h t IH]; intros [|i] H; simpl in *; auto; try lia.
  f_equal. apply IH. lia.
Qed.

Lemma split_at_index {A} (a : list A) (i : nat) (d : A) :
  (i < length a)%nat ->
  a = firstn i a ++ nth i a d :: skipn (S i) a /\ length (firstn i a) = i.
Proof.
  revert i; induction a as [|h t IH]; intros [|i] H; simpl in *; try lia.
  - auto.
  - destruct (IH i ltac:(lia)) as [E L]. split; [now rewrite <- E | now rewrite L].
Qed.

(** ** Looking rolls up *)

Lemma fold_max_ge (st : Store) :
  forall acc,
    let m := fold_left (fun maxr s => if roll s >? maxr then roll s else maxr) st acc in
    acc <= m /\ forall x, In x st -> roll x <= m.
Proof.
  induction st as [|s st IH]; intros acc; simpl.
  - split; [lia | tauto].
  - destruct (IH (if roll s >? acc then roll s else acc)) as [A B].
    split.
    + destruct (roll s >? acc) eqn:E; lia.
    + intros x [->|Hx]; [|now apply B].
      destruct (roll x >? acc) eqn:E; lia.
Qed.

Lemma findMaxRoll_ge (st : Store) (x : Student) :
  In x st -> roll x <= findMaxRoll st.
Proof. intros H. now apply (fold_max_ge st 0). Qed.

Lemma findMaxRoll_nonneg (st : Store) : 0 <= findMaxRoll st.
Proof. apply (fold_max_ge st 0). Qed.

Lemma fold_max_spec (st : Store) :
  forall acc,
    fold_left (fun maxr s => if roll s >? maxr then roll s else maxr) st acc
    = fold_left Z.max (rolls st) acc.
Proof.
  induction st as [|s st IH]; intros acc; simpl; [reflexivity|].
  rewrite IH. f_equal. destruct (roll s >? acc) eqn:E; lia.
Qed.

Lemma findMaxRoll_max_roll (st : Store) :
  Forall (fun x => 0 < roll x) st -> findMaxRoll st = max_roll (rolls st).
Proof.
  intros H. unfold findMaxRoll. rewrite fold_max_spec.
  destruct st as [|s st]; [reflexivity|].
  simpl. inversion H; subst. f_equal. lia.
Qed.

Lemma findIndex_absent (st : Store) (r : Z) :
  forall i, ~ In r (rolls st) -> findIndexByRoll_from i st r = -1.
Proof.
  induction st as [|s st IH]; intros i H; simpl in *; [reflexivity|].
  destruct (roll s =? r) eqn:E; [exfalso; apply H; left; lia|].
  apply IH. tauto.
Qed.

Lemma findIndex_present (st : Store) (r : Z) :
  forall i, In r (rolls st) ->
    exists pre x post,
      st = pre ++ x :: post /\ roll x = r /\ ~ In r (rolls pre)
      /\ findIndexByRoll_from i st r = i + Z.of_nat (length pre).
Proof.
  induction st as [|s st IH]; intros i H; simpl in *; [tauto|].
  destruct (roll s =? r) eqn:E.
  - exists [], s, st. simpl. repeat split; auto; lia.
  - destruct H as [H|H]; [lia|].
    destruct (IH (i + 1) H) as (pre & x & post & -> & Hx & Hn & Hi).
    exists (s :: pre), x, post. simpl. repeat split; auto.
    + intros [C|C]; [lia | tauto].
    + rewrite Hi. lia.
Qed.

(** ** Removing a record *)

Lemma last_cons_default {A} (y : A) (l : list A) (x : A) :
  last (y :: l) x = last l y.
Proof.
  revert x y; induction l as [|z l IH]; intros x y; [reflexivity|].
  change (last (y :: z :: l) x) with (last (z :: l) x).
  rewrite IH. symmetry. apply IH.
Qed.

Lemma shift_loop (post : Store) :
  forall pre x,
    fold_left (fun a i => set_nth i (nth (i + 1) a zeroStudent) a)
              (seq (length pre) (length post)) (pre ++ x :: post)
    = pre ++ post ++ [last post x].
Proof.
  induction post as [|y post IH]; intros pre x; [reflexivity|].
  cbn [length seq fold_left].
  replace (length pre + 1)%nat with (length (pre ++ [x])) by (rewrite length_app; simpl; lia).
  replace (pre ++ x :: y :: post) with ((pre ++ [x]) ++ y :: post) at 1
    by (rewrite <- app_assoc; reflexivity).
  rewrite nth_app_mid, set_nth_app.
  replace (S (length pre)) with (length (pre ++ [y])) by (rewrite length_app; simpl; lia).
  replace (pre ++ y :: y :: post) with ((pre ++ [y]) ++ y :: post)
    by (rewrite <- app_assoc; reflexivity).
  rewrite IH, last_cons_default, <- app_assoc. reflexivity.
Qed.

Lemma shift_left_removes (pre post : Store) (x : Student) :
  shift_left (length pre) (pre ++ x :: post) = pre ++ post.
Proof.
  unfold shift_left.
  replace (length (pre ++ x :: post) - 1 - length pre)%nat with (length post)
    by (rewrite length_app; simpl; lia).
  rewrite shift_loop.
  replace (length (pre ++ x :: post) - 1)%nat with (length (pre ++ post))
    by (rewrite !length_app; simpl; lia).
  rewrite app_assoc. rewrite firstn_app, firstn_all, Nat.sub_diag. simpl.
  apply app_nil_r.
Qed.

(** ** The actions on the store *)

Lemma deleteStudent_absent (st : Store) (r c : Z) :
  ~ In r (rolls st) ->
  deleteStudent st r c
  = (st, match st with [] => MsgNoRecords | _ => MsgNoStudent r end).
Proof.
  intros H. destruct st as [|s st]; [reflexivity|].
  unfold deleteStudent, findIndexByRoll.
  rewrite findIndex_absent by assumption. reflexivity.
Qed.

Lemma deleteStudent_cases (st : Store) (r c : Z) :
  fst (deleteStudent st r c) = st
  \/ exists pre x post,
       st = pre ++ x :: post /\ roll x = r /\ ~ In r (rolls pre)
       /\ deleteStudent st r c = (pre ++ post, MsgDeleted).
Proof.
  destruct (in_dec Z.eq_dec r (rolls st)) as [Hin|Hout];
    [|left; now rewrite deleteStudent_absent].
  destruct st as [|s st]; [left; reflexivity|].
  destruct (findIndex_present (s :: st) r 0 Hin) as (pre & x & post & E & Hx & Hn & Hi).
  unfold deleteStudent. fold (findIndexByRoll (s :: st) r) in Hi |- *.
  rewrite Hi. simpl Z.add.
  destruct (Z.of_nat (length pre) <? 0) eqn:L; [lia|].
  destruct (negb (c =? ch "y"%char) && negb (c =? ch "Y"%char)); [left; reflexivity|].
  right. exists pre, x, post. rewrite Nat2Z.id.
  repeat split; auto. rewrite E. now rewrite shift_left_removes.
Qed.

Lemma addStudent_success (st : Store) (buf : list char) (n : Z) (ms : list Z) :
  studentCount st < MAX_STUDENTS -> buf <> [] ->
  exists s,
    addStudent st buf n ms = (st ++ [s], MsgAdded s)
    /\ roll s = wrap32 (findMaxRoll st + 1)
    /\ name s = strncpy (MAX_NAME - 1) (sanitizeName buf)
    /\ subjectCount s = n.
Proof.
  intros Hc Hb. unfold addStudent.
  destruct (studentCount st >=? MAX_STUDENTS) eqn:E; [lia|].
  destruct buf as [|b buf]; [congruence|].
  eexists. split; [reflexivity|]. repeat split.
Qed.

Lemma addStudent_cases (st : Store) (buf : list char) (n : Z) (ms : list Z) :
  fst (addStudent st buf n ms) = st
  \/ exists s, fst (addStudent st buf n ms) = st ++ [s]
               /\ roll s = wrap32 (findMaxRoll st + 1).
Proof.
  unfold addStudent.
  destruct (studentCount st >=? MAX_STUDENTS); [left; reflexivity|].
  destruct buf; [left; reflexivity|].
  right. eexists. split; reflexivity.
Qed.

Lemma next_roll_above (st : Store) :
  findMaxRoll st < INT_MAX ->
  wrap32 (findMaxRoll st + 1) = findMaxRoll st + 1
  /\ forall x, In x st -> roll x < wrap32 (findMaxRoll st + 1).
Proof.
  intros H. pose proof (findMaxRoll_nonneg st) as H0.
  assert (E : wrap32 (findMaxRoll st + 1) = findMaxRoll st + 1).
  { apply wrap32_id. unfold in_int, INT_MIN, INT_MAX in *. lia. }
  split; [exact E|]. intros x Hx. rewrite E.
  pose proof (findMaxRoll_ge st x Hx). lia.
Qed.

Lemma rolls_set_nth (st : Store) (i : nat) (s : Student) :
  roll s = roll (nth i st zeroStudent) -> rolls (set_nth i s st) = rolls st.
Proof.
  revert i; induction st as [|h t IH]; intros [|i] H; simpl in *; auto.
  - now rewrite H.
  - f_equal. now apply IH.
Qed.

Lemma roll_recompute (s : Student) : roll (recompute s) = roll s.
Proof. reflexivity. Qed.

Lemma updateStudent_rolls (st : Store) (r choice : Z) (buf : list char)
      (n : Z) (ms : list Z) :
  rolls (fst (updateStudent st r choice buf n ms)) = rolls st.
Proof.
  unfold updateStudent. destruct st as [|s0 st0]; [reflexivity|].
  set (st := s0 :: st0).
  destruct (findIndexByRoll st r <? 0); [reflexivity|].
  destruct (choice =? 1).
  - destruct buf; [reflexivity|]. cbn [fst]. now apply rolls_set_nth.
  - destruct (choice =? 2); [|reflexivity]. cbn [fst]. now apply rolls_set_nth.
Qed.

(** ** Tokens *)

Lemma firstn_incl {A} (n : nat) (l : list A) : incl (firstn n l) l.
Proof.
  revert n; induction l as [|h t IH]; intros [|n] y; simpl; try tauto.
  intros [->|H]; [now left | right; now apply (IH n)].
Qed.

Lemma skip_delims_incl (d : char) (l : list char) : incl (skip_delims d l) l.
Proof.
  induction l as [|c t IH]; simpl; [apply incl_refl|].
  destruct (c =? d); [now apply incl_tl | apply incl_refl].
Qed.

Lemma split_at_spec (d : char) (l : list char) :
  forall tok rest, split_at d l = (tok, rest) ->
    ~ In d tok /\ incl rest l /\ (~ In d l -> tok = l /\ rest = []).
Proof.
  induction l as [|c t IH]; simpl; intros tok rest E.
  - inversion E; subst. split; [|split]; auto. apply incl_refl.
  - destruct (c =? d) eqn:C.
    + inversion E; subst. split; [|split]; auto.
      * now apply incl_tl, incl_refl.
      * intros H. exfalso. apply H. left. lia.
    + destruct (split_at d t) as [tok' rest'] eqn:S. inversion E; subst.
      destruct (IH _ _ eq_refl) as (A & B & D).
      split; [|split].
      * intros [H|H]; [lia | tauto].
      * intros x Hx. right. now apply B.
      * intros H. destruct D as [-> ->]; [tauto | auto].
Qed.

Lemma skip_delims_free (d : char) (l : list char) :
  ~ In d l -> skip_delims d l = l.
Proof.
  destruct l as [|c t]; simpl; [reflexivity|].
  intros H. destruct (c =? d) eqn:C; [|reflexivity].
  exfalso. apply H. left. lia.
Qed.

Lemma strtok_at_spec (s : list char) (d : char) :
  forall t rest, strtok_at s d = (t, rest) ->
    incl rest s /\ (forall tok, t = Some tok -> ~ In d tok).
Proof.
  unfold strtok_at. intros t rest E.
  pose proof (skip_delims_incl d s) as I.
  destruct (skip_delims d s) as [|c l] eqn:K.
  - inversion E; subst. split; [intros x []| discriminate].
  - destruct (split_at d (c :: l)) as [tok' rest'] eqn:S. inversion E; subst.
    destruct (split_at_spec _ _ _ _ S) as (A & B & _).
    split; [eapply incl_tran; eauto|].
    intros tok [= <-]. exact A.
Qed.

Lemma strtok_at_free (s : list char) (d : char) :
  ~ In d s ->
  strtok_at s d = (match s with [] => None | _ => Some s end, []).
Proof.
  intros H. unfold strtok_at. rewrite skip_delims_free by assumption.
  destruct s as [|c l]; [reflexivity|].
  destruct (split_at d (c :: l)) as [tok rest] eqn:S.
  destruct (split_at_spec _ _ _ _ S) as (_ & _ & D).
  destruct (D H) as [-> ->]. reflexivity.
Qed.

Lemma token_spec (arg : option (list char)) (d : char) (save : list char) :
  forall tok save', token arg d save = Some (tok, save') ->
    strtok_at (match arg with Some s => s | None => save end) d = (Some tok, save').
Proof.
  unfold token, bind, strtok. intros tok save'.
  destruct (strtok_at _ d) as [[t|] r]; simpl; [|discriminate].
  unfold ret. now intros [= -> ->].
Qed.

Lemma marks_loop_incl (k : nat) :
  forall idx mtok a save res save',
    marks_loop k idx mtok a save = Some (res, save') -> incl save' save.
Proof.
  induction k as [|k IH]; intros idx mtok a save res save' E.
  - destruct mtok; inversion E; subst; apply incl_refl.
  - destruct mtok as [t|]; [|inversion E; subst; apply incl_refl].
    cbn [marks_loop] in E. unfold bind, strtok in E.
    destruct (strtok_at save (ch ";"%char)) as [t' r] eqn:S.
    apply IH in E. eapply incl_tran; [exact E|].
    now apply (strtok_at_spec _ _ _ _ S).
Qed.

Lemma read_marks_incl (tok : list char) (n : Z) (a : list Z) :
  forall save res save',
    read_marks tok n a save = Some (res, save') -> incl save' tok.
Proof.
  intros save res save' E. unfold read_marks, bind, strtok in E.
  destruct (strtok_at (strncpy 511 tok) (ch ";"%char)) as [mtok s5] eqn:T5.
  apply strtok_at_spec in T5. destruct T5 as [I5 _].
  apply marks_loop_incl in E.
  eapply incl_tran; [exact E|]. eapply incl_tran; [exact I5|].
  apply firstn_incl.
Qed.

(** After the call of [strtok] on the copy [tmp] of the marks field, the
    saved position lies in [tmp], which holds no comma: the two calls
    [strtok(NULL, ",")] that follow cannot both find a token. *)
Lemma two_tokens_fail {A} (save : list char) (k : list char -> list char -> Tok A) :
  ~ In (ch ","%char) save ->
  (t1 <- token None (ch ","%char) ;; t2 <- token None (ch ","%char) ;; k t1 t2) save
  = None.
Proof.
  intros H. unfold bind at 1.
  destruct (token None (ch ","%char) save) as [[t1 s1]|] eqn:T1; [|reflexivity].
  apply token_spec in T1. rewrite strtok_at_free in T1 by assumption.
  inversion T1; subst. reflexivity.
Qed.

(** No line gets through the loop body of [loadAll]. *)
Lemma parseLine_fails (p save : list char) : parseLine p save = None.
Proof.
  unfold parseLine.
  unfold bind at 1. destruct (token (Some p) _ save) as [[t1 s1]|]; [|reflexivity].
  unfold bind at 1. destruct (token None _ s1) as [[t2 s2]|]; [|reflexivity].
  unfold bind at 1. destruct (token None _ s2) as [[t3 s3]|]; [|reflexivity].
  cbn [subjectCount set_subjectCount set_name set_roll marks zeroStudent].
  destruct ((atoi t3 <? 1) || (atoi t3 >? MAX_SUBJECTS)); [reflexivity|].
  unfold bind at 1. destruct (token None _ s3) as [[t4 s4]|] eqn:T4; [|reflexivity].
  apply token_spec in T4. apply strtok_at_spec in T4. destruct T4 as [_ F4].
  specialize (F4 t4 eq_refl).
  unfold bind at 1.
  destruct (read_marks t4 _ _ s4) as [[[idx a] s6]|] eqn:M; [|reflexivity].
  apply read_marks_incl in M.
  destruct (negb (Z.of_nat idx =? atoi t3)); [reflexivity|].
  apply two_tokens_fail.
  intros C. apply F4. now apply M.
Qed.

Lemma load_loop_nothing (fuel : nat) :
  forall fp st, load_loop fuel fp st = st.
Proof.
  induction fuel as [|fuel IH]; intros fp st; simpl; [reflexivity|].
  destruct (fgets 1024 fp) as [[line rest]|]; [|reflexivity].
  destruct (studentCount st >=? MAX_STUDENTS); [reflexivity|].
  rewrite parseLine_fails. apply IH.
Qed.

(** What [loadAll] leaves in the array: nothing, unless the file exists and
    is empty, in which case the array is not touched. *)
Lemma loadAll_result (st : Store) (file : option (list char)) :
  loadAll st file = match file with Some [] => st | _ => [] end.
Proof.
  destruct file as [[|c fp]|]; try reflexivity.
  unfold loadAll.
  destruct (fgets 1024 (c :: fp)) as [[line rest]|] eqn:F; [|discriminate].
  apply load_loop_nothing.
Qed.

(** ** Rolls *)

Lemma sortMenu_permutation (st : Store) (choice : Z) (st' : Store) :
  sortMenu st choice st' -> Permutation st st'.
Proof.
  destruct st as [|s st]; simpl.
  - intros ->. constructor.
  - intros (cmp & _ & P & _). exact P.
Qed.

(** Every reachable array holds positive, pairwise distinct rolls. *)
Lemma reachable_rolls (st : Store) :
  reachable st -> NoDup (rolls st) /\ Forall (fun x => 0 < roll x) st.
Proof.
  induction 1 as [ | st file _ [IHn IHp] | st buf n ms _ [IHn IHp] _ Hmax
                 | st r choice buf n ms _ [IHn IHp] _
                 | st r c _ [IHn IHp] | st choice st' _ [IHn IHp] Hs ].
  - split; constructor.
  - rewrite loadAll_result. destruct file as [[|]|]; auto; split; constructor.
  - destruct (addStudent_cases st buf n ms) as [->|(s & -> & Hr)]; [auto|].
    destruct (next_roll_above st Hmax) as [E Hlt]. rewrite <- Hr in E, Hlt.
    pose proof (findMaxRoll_nonneg st).
    split.
    + unfold rolls. rewrite map_app. apply NoDup_app; auto.
      * simpl. constructor; [tauto | constructor].
      * intros a Ha [<-|[]]. apply in_map_iff in Ha.
        destruct Ha as (x & Hx & Hin). specialize (Hlt x Hin). lia.
    + apply Forall_app. split; [assumption|]. constructor; [lia | constructor].
  - split; [now rewrite updateStudent_rolls|].
    pose proof (updateStudent_rolls st r choice buf n ms) as E.
    apply Forall_forall. intros x Hx.
    assert (Hin : In (roll x) (rolls st)) by (rewrite <- E; now apply in_map).
    apply in_map_iff in Hin. destruct Hin as (y & <- & Hy).
    rewrite Forall_forall in IHp. now apply IHp.
  - destruct (deleteStudent_cases st r c) as [->|(pre & x & post & E & _ & _ & ->)];
      [auto|]. subst st. cbn [fst]. split.
    + unfold rolls in *. rewrite map_app in *. simpl in IHn.
      now apply NoDup_remove_1 in IHn.
    + apply Forall_app in IHp. destruct IHp as [P1 P2].
      inversion P2; subst. apply Forall_app. auto.
  - apply sortMenu_permutation in Hs. split.
    + eapply Permutation_NoDup; [|exact IHn]. now apply Permutation_map.
    + eapply Permutation_Forall; eauto.
Qed.

(** C3. In a store whose rolls are positive (every reachable store is such a
    store, also after deletions) and below [INT_MAX], an add that is not
    refused (the store is not full, the name is not empty) appends one
    record whose roll is 1 + the largest roll of the store, taken as 0 for
    the empty store, and that roll is the roll of no record already there. *)
Theorem addStudent_assigns_next_roll (st : Store) (buf : list char) (n : Z)
        (ms : list Z) :
  Forall (fun x => 0 < roll x) st ->
  findMaxRoll st < INT_MAX ->
  studentCount st < MAX_STUDENTS -> buf <> [] ->
  exists s,
    addStudent st buf n ms = (st ++ [s], MsgAdded s)
    /\ roll s = 1 + max_roll (rolls st)
    /\ ~ In (roll s) (rolls st).
Proof.
  intros Hp Hmax Hc Hb.
  destruct (addStudent_success st buf n ms Hc Hb) as (s & E & Hr & _).
  destruct (next_roll_above st Hmax) as [W Hlt].
  exists s. split; [exact E|]. split.
  - rewrite Hr, W, findMaxRoll_max_roll by assumption. lia.
  - intros Hin. apply in_map_iff in Hin. destruct Hin as (x & Hx & Hin).
    specialize (Hlt x Hin). lia.
Qed.

(** C6. Deleting a roll that no live record holds leaves the array as it
    was, record for record, and reports that there is no such student
    ("No student with roll r"; "No records." when the store is empty). *)
Theorem deleteStudent_not_found (st : Store) (r c : Z) :
  ~ In r (rolls st) ->
  fst (deleteStudent st r c) = st
  /\ length (fst (deleteStudent st r c)) = length st
  /\ snd (deleteStudent st r c)
     = match st with [] => MsgNoRecords | _ => MsgNoStudent r end.
Proof.
  intros H. rewrite deleteStudent_absent by assumption. auto.
Qed.

(** C8 (as amended). An add that is not refused gives the new record a roll
    larger than every live roll; so a roll [r], assigned before and
    deleted or not, is not assigned by the add while some live record holds
    a roll greater than or equal to [r]. *)
Theorem added_roll_exceeds_live_rolls (st : Store) (buf : list char) (n : Z)
        (ms : list Z) (r : Z) :
  findMaxRoll st < INT_MAX ->
  studentCount st < MAX_STUDENTS -> buf <> [] ->
  (exists x, In x st /\ r <= roll x) ->
  exists s,
    addStudent st buf n ms = (st ++ [s], MsgAdded s)
    /\ (forall x, In x st -> roll x < roll s)
    /\ roll s <> r.
Proof.
  intros Hmax Hc Hb (x & Hx & Hr).
  destruct (addStudent_success st buf n ms Hc Hb) as (s & E & Hs & _).
  destruct (next_roll_above st Hmax) as [_ Hlt]. rewrite <- Hs in Hlt.
  exists s. repeat split; auto. specialize (Hlt x Hx). lia.
Qed.

(** C9. In every store reached from the empty array by loading, adding,
    updating, deleting and sorting, the rolls of the live records are
    pairwise distinct. *)
Theorem reachable_rolls_distinct (st : Store) :
  reachable st -> NoDup (rolls st).
Proof. intros H. now apply reachable_rolls. Qed.

(** ** Entering scores *)

Lemma write_loop (mrest : list Z) :
  forall mpre pre rest,
    length mpre = length pre -> (length mrest <= length rest)%nat ->
    fold_left (fun a i => set_nth i (nth i (mpre ++ mrest) 0) a)
              (seq (length pre) (length mrest)) (pre ++ rest)
    = pre ++ mrest ++ skipn (length mrest) rest.
Proof.
  induction mrest as [|m mrest IH]; intros mpre pre rest L Hlen; [reflexivity|].
  destruct rest as [|x rest]; [simpl in Hlen; lia|].
  cbn [length seq fold_left skipn].
  replace (nth (length pre) (mpre ++ m :: mrest) 0) with m
    by (rewrite <- L; symmetry; apply nth_app_mid).
  rewrite set_nth_app.
  replace (S (length pre)) with (length (pre ++ [m])) by (rewrite length_app; simpl; lia).
  replace (pre ++ m :: rest) with ((pre ++ [m]) ++ rest) by (rewrite <- app_assoc; reflexivity).
  replace (mpre ++ m :: mrest) with ((mpre ++ [m]) ++ mrest) by (rewrite <- app_assoc; reflexivity).
  rewrite IH.
  - rewrite <- app_assoc. reflexivity.
  - rewrite !length_app. simpl. lia.
  - simpl in Hlen. lia.
Qed.

Lemma write_marks_spec (n : Z) (ms a : list Z) :
  Z.of_nat (length ms) = n -> (length ms <= length a)%nat ->
  write_marks n ms a = ms ++ skipn (length ms) a.
Proof.
  intros L Hlen. unfold write_marks. rewrite <- L, Nat2Z.id.
  apply (write_loop ms [] [] a); auto.
Qed.

(** A record that received entered scores has valid scores: the ones
    entered. *)
Lemma entered_scores_valid (s : Student) (n : Z) (ms : list Z) :
  entered_ok n ms -> length (marks s) = Z.to_nat MAX_SUBJECTS ->
  let s' := set_marks (set_subjectCount s n) (write_marks n ms (marks s)) in
  valid_scores s' /\ scores s' = ms.
Proof.
  intros (Hn & L & F) Hm s'. unfold MAX_SUBJECTS in *.
  assert (Hlen : (length ms <= length (marks s))%nat) by lia.
  assert (E : scores s' = ms).
  { unfold scores, s'. cbn [marks subjectCount set_marks set_subjectCount].
    rewrite write_marks_spec by assumption.
    rewrite <- L, Nat2Z.id, firstn_app, firstn_all, Nat.sub_diag. simpl.
    apply app_nil_r. }
  split; [|exact E].
  unfold valid_scores. rewrite E. repeat split; try assumption.
  - unfold s'. cbn [subjectCount set_marks set_subjectCount]. unfold MAX_SUBJECTS. lia.
  - unfold s'. cbn [subjectCount set_marks set_subjectCount]. unfold MAX_SUBJECTS. lia.
  - unfold s'. cbn [marks subjectCount set_marks set_subjectCount].
    rewrite write_marks_spec by assumption.
    rewrite length_app, length_skipn. lia.
Qed.

Lemma scores_recompute (s : Student) : scores (recompute s) = scores s.
Proof. reflexivity. Qed.

Lemma valid_scores_recompute (s : Student) :
  valid_scores s -> valid_scores (recompute s).
Proof. intros H. exact H. Qed.

Lemma valid_scores_set_name (s : Student) (nm : list char) :
  valid_scores s -> valid_scores (set_name s nm).
Proof. intros H. exact H. Qed.

(** C10. A successful update recomputes the derived fields from the scores
    the record then has, whatever average and grade were stored before:
    after a change of name only (entry 1, scores valid) as after a change
    of scores (entry 2), the average of the updated record is the sum of
    its scores divided by their number in floating-point division, the
    float nearest to their exact mean, and its grade is the one the
    threshold table gives. *)
Theorem updateStudent_recomputes (st : Store) (r choice : Z) (buf : list char)
        (n : Z) (ms : list Z) :
  In r (rolls st) ->
  let i := Z.to_nat (findIndexByRoll st r) in
  let old := nth i st zeroStudent in
  (choice = 1 /\ buf <> [] /\ valid_scores old)
  \/ (choice = 2 /\ entered_ok n ms
      /\ length (marks old) = Z.to_nat MAX_SUBJECTS) ->
  exists s',
    updateStudent st r choice buf n ms = (set_nth i s' st, MsgUpdated)
    /\ nth i (set_nth i s' st) zeroStudent = s'
    /\ roll s' = r
    /\ scores s' = (if choice =? 1 then scores old else ms)
    /\ name s' = (if choice =? 1 then strncpy (MAX_NAME - 1) (sanitizeName buf)
                  else name old)
    /\ average s' = average (recompute s')
    /\ grade s' = grade (recompute s')
    /\ average s' = float_mean (scores s')
    /\ f32_is_finite (average s') = true
    /\ (Qabs (f32_value (average s') - mean (scores s')) <= f32_half_ulp (average s'))%Q
    /\ grade s' = calculateGrade (average s')
    /\ grade s' = grade_of_mean (mean (scores s')).
Proof.
  intros Hin i old Hcase.
  destruct (findIndex_present st r 0 Hin) as (pre & x & post & E & Hx & _ & Hi).
  fold (findIndexByRoll st r) in Hi. simpl in Hi.
  assert (Ei : i = length pre) by (unfold i; rewrite Hi; apply Nat2Z.id).
  assert (Eo : old = x) by (unfold old; rewrite Ei, E; apply nth_app_mid).
  assert (Hnth : forall s', nth i (set_nth i s' st) zeroStudent = s').
  { intros s'. rewrite Ei, E, set_nth_app. apply nth_app_mid. }
  assert (Hst : st <> []) by (rewrite E; destruct pre; discriminate).
  unfold updateStudent. destruct st as [|s0 st0]; [congruence|].
  set (st := s0 :: st0) in *.
  destruct (findIndexByRoll st r <? 0) eqn:L; [lia|].
  fold i. fold old.
  destruct Hcase as [(-> & Hb & Hv) | (-> & Hok & Hlen)]; simpl Z.eqb; cbv iota.
  - destruct buf as [|b buf]; [congruence|].
    set (s1 := set_name old (strncpy (MAX_NAME - 1) (sanitizeName (b :: buf)))).
    assert (Hv1 : valid_scores s1) by exact Hv.
    destruct (recompute_correct s1 Hv1) as (FM & F & N & _ & _ & G & GM).
    exists (recompute s1). split; [reflexivity|]. split; [apply Hnth|].
    split; [change (roll old = r); now rewrite Eo|].
    repeat split; assumption.
  - destruct (entered_scores_valid old n ms Hok Hlen) as [Hv1 Es].
    set (s1 := set_marks (set_subjectCount old n) (write_marks n ms (marks old))) in *.
    destruct (recompute_correct s1 Hv1) as (FM & F & N & _ & _ & G & GM).
    exists (recompute (recompute s1)). split; [reflexivity|]. split; [apply Hnth|].
    split; [change (roll old = r); now rewrite Eo|].
    split; [exact Es|].
    repeat split; assumption.
Qed.

(** ** The order of floats *)

Lemma SFcompare_rank (x y : float) :
  f32_is_nan x = false -> f32_is_nan y = false ->
  SFcompare x y = Some (lex_compare (f32_rank x) (f32_rank y)).
Proof.
  destruct x as [sx|sx| |sx mx ex], y as [sy|sy| |sy my ey];
    try discriminate; intros _ _;
    try (destruct sx; reflexivity); try (destruct sy; reflexivity);
    try (destruct sx, sy; reflexivity).
  destruct sx, sy; try reflexivity; simpl.
  rewrite Z.compare_opp, (Z.compare_antisym ex ey).
  destruct (ex ?= ey); reflexivity.
Qed.

Lemma lex_lt_trans (a b c : Z * Z * Z) :
  lex_compare a b <> Gt -> lex_compare b c = Lt -> lex_compare a c = Lt.
Proof.
  destruct a as [[a1 a2] a3], b as [[b1 b2] b3], c as [[c1 c2] c3]. simpl.
  destruct (Z.compare_spec a1 b1), (Z.compare_spec a2 b2), (Z.compare_spec a3 b3),
    (Z.compare_spec b1 c1), (Z.compare_spec b2 c2), (Z.compare_spec b3 c3),
    (Z.compare_spec a1 c1), (Z.compare_spec a2 c2), (Z.compare_spec a3 c3);
    intros; try congruence; try lia.
Qed.

Lemma lex_lt_trans' (a b c : Z * Z * Z) :
  lex_compare a b = Lt -> lex_compare b c <> Gt -> lex_compare a c = Lt.
Proof.
  destruct a as [[a1 a2] a3], b as [[b1 b2] b3], c as [[c1 c2] c3]. simpl.
  destruct (Z.compare_spec a1 b1), (Z.compare_spec a2 b2), (Z.compare_spec a3 b3),
    (Z.compare_spec b1 c1), (Z.compare_spec b2 c2), (Z.compare_spec b3 c3),
    (Z.compare_spec a1 c1), (Z.compare_spec a2 c2), (Z.compare_spec a3 c3);
    intros; try congruence; try lia.
Qed.

Lemma lex_antisym (a b : Z * Z * Z) :
  lex_compare b a = CompOpp (lex_compare a b).
Proof.
  destruct a as [[a1 a2] a3], b as [[b1 b2] b3]. simpl.
  rewrite (Z.compare_antisym a1 b1), (Z.compare_antisym a2 b2), (Z.compare_antisym a3 b3).
  destruct (a1 ?= b1), (a2 ?= b2), (a3 ?= b3); reflexivity.
Qed.

Lemma lex_refl (a : Z * Z * Z) : lex_compare a a = Eq.
Proof. destruct a as [[a1 a2] a3]. simpl. now rewrite !Z.compare_refl. Qed.

Section FloatOrder.
Variables x y z : float.
Hypothesis Hx : f32_is_nan x = false.
Hypothesis Hy : f32_is_nan y = false.
Hypothesis Hz : f32_is_nan z = false.

Lemma f32_ge_refl : f32_ge x x = true.
Proof. unfold f32_ge, SFleb. now rewrite SFcompare_rank, lex_refl. Qed.

Lemma f32_lt_irrefl : f32_lt x x = false.
Proof. unfold f32_lt, SFltb. now rewrite SFcompare_rank, lex_refl. Qed.

Lemma f32_not_gt_ge : f32_gt x y = false -> f32_ge y x = true.
Proof.
  unfold f32_gt, f32_ge, SFltb, SFleb.
  rewrite (SFcompare_rank x y), (SFcompare_rank y x) by assumption.
  rewrite (lex_antisym (f32_rank x) (f32_rank y)). destruct (lex_compare (f32_rank x) (f32_rank y));
    simpl; congruence.
Qed.

Lemma f32_not_lt_ge : f32_lt x y = false -> f32_ge x y = true.
Proof.
  unfold f32_lt, f32_ge, SFltb, SFleb.
  rewrite (SFcompare_rank x y), (SFcompare_rank y x) by assumption.
  rewrite (lex_antisym (f32_rank x) (f32_rank y)). destruct (lex_compare (f32_rank x) (f32_rank y));
    simpl; congruence.
Qed.

Lemma f32_lt_asym : f32_lt x y = true -> f32_lt y x = false.
Proof.
  unfold f32_lt, SFltb.
  rewrite (SFcompare_rank x y), (SFcompare_rank y x) by assumption.
  rewrite (lex_antisym (f32_rank x) (f32_rank y)). destruct (lex_compare (f32_rank x) (f32_rank y));
    simpl; congruence.
Qed.

Lemma f32_ge_lt_trans : f32_ge y x = true -> f32_lt y z = true -> f32_lt x z = true.
Proof.
  unfold f32_ge, f32_lt, SFleb, SFltb.
  rewrite (SFcompare_rank x y), (SFcompare_rank y z), (SFcompare_rank x z) by assumption.
  intros A B.
  rewrite (lex_lt_trans (f32_rank x) (f32_rank y) (f32_rank z)); auto.
  - destruct (lex_compare (f32_rank x) (f32_rank y)); congruence.
  - destruct (lex_compare (f32_rank y) (f32_rank z)); congruence.
Qed.

Lemma f32_lt_ge_trans : f32_lt x y = true -> f32_ge z y = true -> f32_lt x z = true.
Proof.
  unfold f32_ge, f32_lt, SFleb, SFltb.
  rewrite (SFcompare_rank x y), (SFcompare_rank y z), (SFcompare_rank x z) by assumption.
  intros A B.
  rewrite (lex_lt_trans' (f32_rank x) (f32_rank y) (f32_rank z)); auto.
  - destruct (lex_compare (f32_rank x) (f32_rank y)); congruence.
  - destruct (lex_compare (f32_rank y) (f32_rank z)); congruence.
Qed.

Lemma f32_lt_ge : f32_lt x y = true -> f32_ge y x = true.
Proof.
  unfold f32_ge, f32_lt, SFleb, SFltb. destruct (SFcompare x y) as [[]|]; congruence.
Qed.
End FloatOrder.

(** ** The loop of [showStats] *)

Lemma stats_step_fields (st : Store) (acc : Stats) (i : nat) :
  classSum (stats_step st acc i) = f32_add (classSum acc) (avg_at st i)
  /\ topIdx (stats_step st acc i)
     = (if f32_gt (avg_at st i) (avg_at st (topIdx acc)) then i else topIdx acc)
  /\ lowIdx (stats_step st acc i)
     = (if f32_lt (avg_at st i) (avg_at st (lowIdx acc)) then i else lowIdx acc).
Proof.
  unfold stats_step, avg_at.
  destruct (grade _ =? ch "A"%char); [repeat split|].
  destruct (grade _ =? ch "B"%char); [repeat split|].
  destruct (grade _ =? ch "C"%char); [repeat split|].
  destruct (grade _ =? ch "D"%char); repeat split.
Qed.

Lemma firstn_succ_nth {A} (l : list A) (k : nat) (d : A) :
  (k < length l)%nat -> firstn (S k) l = firstn k l ++ [nth k l d].
Proof.
  revert k; induction l as [|h t IH]; intros [|k] H; simpl in *; try lia; auto.
  f_equal. apply IH. lia.
Qed.

Lemma avg_at_not_nan (st : Store) (i : nat) :
  Forall not_nan st -> (i < length st)%nat -> f32_is_nan (avg_at st i) = false.
Proof.
  intros F H. rewrite Forall_forall in F. apply F. now apply nth_In.
Qed.

Lemma stats_loop_invariant (st : Store) :
  Forall not_nan st ->
  forall k, (k <= length st)%nat ->
    let acc := fold_left (stats_step st) (seq 0 k) stats_init in
    classSum acc = float_sum (map average (firstn k st))
    /\ (topIdx acc < Nat.max 1 k)%nat
    /\ (forall j, (j < k)%nat -> f32_ge (avg_at st (topIdx acc)) (avg_at st j) = true)
    /\ (forall j, (j < topIdx acc)%nat -> f32_lt (avg_at st j) (avg_at st (topIdx acc)) = true)
    /\ (lowIdx acc < Nat.max 1 k)%nat
    /\ (forall j, (j < k)%nat -> f32_ge (avg_at st j) (avg_at st (lowIdx acc)) = true)
    /\ (forall j, (j < lowIdx acc)%nat -> f32_lt (avg_at st (lowIdx acc)) (avg_at st j) = true).
Proof.
  intros F. induction k as [|k IH]; intros Hk.
  - simpl. repeat split; try lia; intros j Hj; lia.
  - rewrite seq_S, fold_left_app. cbn [fold_left Nat.add].
    specialize (IH ltac:(lia)). cbv zeta in IH.
    set (acc := fold_left (stats_step st) (seq 0 k) stats_init) in *.
    destruct IH as (HS & T1 & T2 & T3 & L1 & L2 & L3).
    destruct (stats_step_fields st acc k) as (ES & ET & EL).
    cbv zeta. rewrite ES, ET, EL.
    assert (Nk : f32_is_nan (avg_at st k) = false) by (apply avg_at_not_nan; auto).
    assert (Nt : f32_is_nan (avg_at st (topIdx acc)) = false)
      by (apply avg_at_not_nan; auto; lia).
    assert (Nl : f32_is_nan (avg_at st (lowIdx acc)) = false)
      by (apply avg_at_not_nan; auto; lia).
    assert (Nj : forall j, (j < S k)%nat -> f32_is_nan (avg_at st j) = false)
      by (intros; apply avg_at_not_nan; auto; lia).
    split; [|split; [|split; [|split; [|split; [|split]]]]].
    + rewrite (firstn_succ_nth st k zeroStudent) by lia.
      unfold float_sum in *. rewrite map_app, fold_left_app, <- HS. reflexivity.
    + destruct (f32_gt _ _); lia.
    + intros j Hj. destruct (f32_gt _ _) eqn:G.
      * destruct (Nat.eq_dec j k) as [->|]; [now apply f32_ge_refl|].
        apply f32_lt_ge. unfold f32_gt in G.
        apply (f32_ge_lt_trans _ (avg_at st (topIdx acc))); auto; apply T2; lia.
      * destruct (Nat.eq_dec j k) as [->|]; [now apply f32_not_gt_ge | apply T2; lia].
    + intros j Hj. destruct (f32_gt _ _) eqn:G; [|now apply T3].
      unfold f32_gt in G.
      apply (f32_ge_lt_trans _ (avg_at st (topIdx acc))); auto; apply T2; lia.
    + destruct (f32_lt _ _); lia.
    + intros j Hj. destruct (f32_lt _ _) eqn:G.
      * destruct (Nat.eq_dec j k) as [->|]; [now apply f32_ge_refl|].
        apply f32_lt_ge; auto.
        apply (f32_lt_ge_trans _ (avg_at st (lowIdx acc))); auto; apply L2; lia.
      * destruct (Nat.eq_dec j k) as [->|]; [now apply f32_not_lt_ge | apply L2; lia].
    + intros j Hj. destruct (f32_lt _ _) eqn:G; [|now apply L3].
      apply (f32_lt_ge_trans _ (avg_at st (lowIdx acc))); auto; apply L2; lia.
Qed.

(** ** Rounding: shifts and locations *)



Lemma shr_1_div2 (x : shr_record) :
  0 <= shr_m x ->
  shr_1 x = Build_shr_record (Z.div2 (shr_m x)) (Z.odd (shr_m x)) (shr_r x || shr_s x).
Proof.
  destruct x as [m r s]. simpl. intros H.
  destruct m as [|p|p]; [reflexivity | | lia].
  destruct p; reflexivity.
Qed.

Lemma shr_1_inv (N D : Z) (x : shr_record) :
  0 < D -> shr_inv N D x -> shr_inv N (2 * D) (shr_1 x).
Proof.
  intros HD (Hm & R & EN & (HR & HL)).
  rewrite shr_1_div2 by assumption. unfold shr_inv. cbn [shr_m shr_r shr_s].
  pose proof (Z.div2_odd (shr_m x)) as E.
  split; [rewrite Z.div2_div; apply Z.div_pos; lia|].
  exists (R + Z.b2z (Z.odd (shr_m x)) * D). split.
  - rewrite EN. rewrite E at 1. ring.
  - unfold loc_sem. destruct (Z.odd (shr_m x)), (shr_r x), (shr_s x);
      cbn [Z.b2z orb] in *; lia.
Qed.

Lemma pow2_double (p : positive) :
  2 ^ Zpos p~0 = 2 ^ Zpos p * 2 ^ Zpos p /\ 2 ^ Zpos p~1 = 2 * (2 ^ Zpos p * 2 ^ Zpos p).
Proof.
  split.
  - replace (Zpos p~0) with (Zpos p + Zpos p) by lia. now rewrite Z.pow_add_r by lia.
  - replace (Zpos p~1) with (1 + (Zpos p + Zpos p)) by lia.
    now rewrite !Z.pow_add_r, Z.pow_1_r by lia.
Qed.

Lemma iter_shr_inv (N : Z) (p : positive) :
  forall D x, 0 < D -> shr_inv N D x ->
              shr_inv N (D * 2 ^ Zpos p) (iter_pos shr_1 p x).
Proof.
  induction p as [p IH|p IH|]; intros D x HD H; cbn [iter_pos].
  - assert (P : 0 < 2 ^ Zpos p) by (apply Z.pow_pos_nonneg; lia).
    apply shr_1_inv in H; [|assumption].
    apply IH in H; [|lia]. apply IH in H; [|apply Z.mul_pos_pos; lia].
    replace (D * 2 ^ Zpos p~1) with (2 * D * 2 ^ Zpos p * 2 ^ Zpos p); [exact H|].
    rewrite (proj2 (pow2_double p)). ring.
  - assert (P : 0 < 2 ^ Zpos p) by (apply Z.pow_pos_nonneg; lia).
    apply IH in H; [|lia]. apply IH in H; [|apply Z.mul_pos_pos; lia].
    replace (D * 2 ^ Zpos p~0) with (D * 2 ^ Zpos p * 2 ^ Zpos p); [exact H|].
    rewrite (proj1 (pow2_double p)). ring.
  - apply shr_1_inv in H; [|assumption].
    replace (D * 2 ^ 1) with (2 * D) by (rewrite Z.pow_1_r; ring). exact H.
Qed.

Lemma shr_inv_shift (N D : Z) (x : shr_record) (e n : Z) :
  0 < D -> shr_inv N D x ->
  shr_inv N (D * 2 ^ Z.max n 0) (fst (shr x e n)) /\ snd (shr x e n) = e + Z.max n 0.
Proof.
  intros HD H. unfold shr. destruct n as [|p|p]; cbn [fst snd Z.max].
  - rewrite Z.mul_1_r. split; [exact H | lia].
  - change (Z.max (Zpos p) 0) with (Zpos p). split; [now apply iter_shr_inv | reflexivity].
  - change (Z.max (Zneg p) 0) with 0. rewrite Z.mul_1_r. split; [exact H | lia].
Qed.

Lemma shr_record_of_loc_inv (m : Z) (l : location) (N D : Z) (R : Z) :
  0 <= m -> N = m * D + R ->
  loc_sem (shr_r (shr_record_of_loc m l)) (shr_s (shr_record_of_loc m l)) R D ->
  shr_inv N D (shr_record_of_loc m l).
Proof.
  intros Hm EN HL. split.
  - destruct l as [|[]]; exact Hm.
  - exists R. split; [|exact HL]. destruct l as [|[]]; exact EN.
Qed.

Lemma round_nearest_even_inv (N D : Z) (x : shr_record) :
  0 < D -> shr_inv N D x ->
  let M := round_nearest_even (shr_m x) (loc_of_shr_record x) in
  shr_m x <= M <= shr_m x + 1
  /\ M * D <= N + D /\ N <= M * D + D
  /\ 2 * (M * D) <= 2 * N + D /\ 2 * N <= 2 * (M * D) + D.
Proof.
  intros HD (Hm & R & EN & (HR & HL)).
  destruct x as [m r s]. cbn [shr_m shr_r shr_s] in *.
  unfold loc_of_shr_record, round_nearest_even.
  destruct r, s; cbv zeta; try (destruct (Z.even m)); rewrite ?Z.mul_add_distr_r; lia.
Qed.

(** ** Number of binary digits *)

Lemma digits2_pos_bracket (p : positive) :
  2 ^ (Zpos (digits2_pos p) - 1) <= Zpos p < 2 ^ Zpos (digits2_pos p).
Proof.
  induction p as [p IH|p IH|]; cbn [digits2_pos].
  - rewrite Pos2Z.inj_succ.
    replace (Z.succ (Zpos (digits2_pos p)) - 1) with (Zpos (digits2_pos p)) by lia.
    rewrite Z.pow_succ_r by lia.
    replace (2 ^ Zpos (digits2_pos p)) with (2 * 2 ^ (Zpos (digits2_pos p) - 1)) in *
      by (rewrite <- Z.pow_succ_r by lia; f_equal; lia).
    lia.
  - rewrite Pos2Z.inj_succ.
    replace (Z.succ (Zpos (digits2_pos p)) - 1) with (Zpos (digits2_pos p)) by lia.
    rewrite Z.pow_succ_r by lia.
    replace (2 ^ Zpos (digits2_pos p)) with (2 * 2 ^ (Zpos (digits2_pos p) - 1)) in *
      by (rewrite <- Z.pow_succ_r by lia; f_equal; lia).
    lia.
  - simpl. lia.
Qed.

Lemma Zdigits2_bracket (m : Z) :
  0 < m -> 0 < Zdigits2 m /\ 2 ^ (Zdigits2 m - 1) <= m < 2 ^ Zdigits2 m.
Proof.
  destruct m as [|p|p]; try lia. intros _. simpl Zdigits2.
  split; [lia | apply digits2_pos_bracket].
Qed.

Lemma Zdigits2_unique (m a : Z) :
  0 < a -> 2 ^ (a - 1) <= m < 2 ^ a -> Zdigits2 m = a.
Proof.
  intros Ha [L U].
  assert (Hm : 0 < m).
  { assert (0 < 2 ^ (a - 1)) by (apply Z.pow_pos_nonneg; lia). lia. }
  destruct (Zdigits2_bracket m Hm) as (Hd & L' & U').
  destruct (Z.lt_trichotomy (Zdigits2 m) a) as [C|[C|C]]; [|exact C|].
  - assert (2 ^ Zdigits2 m <= 2 ^ (a - 1)) by (apply Z.pow_le_mono_r; lia). lia.
  - assert (2 ^ a <= 2 ^ (Zdigits2 m - 1)) by (apply Z.pow_le_mono_r; lia). lia.
Qed.

(** ** Rounding to a normal number *)

Section Round.
Variables prec emax : Z.
Hypothesis Hprec : 0 < prec.

Lemma fexp_normal (x : Z) : emin prec emax <= x - prec -> fexp prec emax x = x - prec.
Proof. unfold fexp, emin. lia. Qed.

Lemma loc_sem_of_loc (m : Z) (l : location) :
  shr_r (shr_record_of_loc m l) = shr_r (shr_record_of_loc 0 l)
  /\ shr_s (shr_record_of_loc m l) = shr_s (shr_record_of_loc 0 l)
  /\ shr_m (shr_record_of_loc m l) = m.
Proof. destruct l as [|[]]; repeat split. Qed.

(** The integer part of [N / (D * 2^k)] has [prec] digits when that of
    [N / D] has [prec + k]. *)
Lemma shifted_mantissa_range (N D mx m1 k : Z) :
  0 < D -> 0 <= k ->
  mx * D <= N < (mx + 1) * D ->
  2 ^ (prec + k - 1) <= mx < 2 ^ (prec + k) ->
  m1 * (D * 2 ^ k) <= N < (m1 + 1) * (D * 2 ^ k) ->
  2 ^ (prec - 1) <= m1 < 2 ^ prec.
Proof.
  intros HD Hk [N1 N2] [M1 M2] [S1 S2].
  assert (P : 0 < 2 ^ k) by (apply Z.pow_pos_nonneg; lia).
  assert (E1 : 2 ^ (prec + k - 1) = 2 ^ (prec - 1) * 2 ^ k)
    by (rewrite <- Z.pow_add_r by lia; f_equal; lia).
  assert (E2 : 2 ^ (prec + k) = 2 ^ prec * 2 ^ k)
    by (rewrite <- Z.pow_add_r by lia; reflexivity).
  rewrite E1 in M1. rewrite E2 in M2.
  split.
  - (* (m1 + 1) * D * 2^k > N >= mx * D >= 2^(prec-1) * 2^k * D *)
    assert (A : 2 ^ (prec - 1) * 2 ^ k * D < (m1 + 1) * (D * 2 ^ k)).
    { apply Z.le_lt_trans with N; [|exact S2].
      apply Z.le_trans with (mx * D); [|exact N1].
      apply Z.mul_le_mono_nonneg_r; lia. }
    replace (2 ^ (prec - 1) * 2 ^ k * D) with (2 ^ (prec - 1) * (D * 2 ^ k)) in A by ring.
    apply Z.mul_lt_mono_pos_r in A; [lia | apply Z.mul_pos_pos; lia].
  - assert (A : m1 * (D * 2 ^ k) < 2 ^ prec * (D * 2 ^ k)).
    { apply Z.le_lt_trans with N; [exact S1|].
      apply Z.lt_le_trans with ((mx + 1) * D); [exact N2|].
      replace (2 ^ prec * (D * 2 ^ k)) with (2 ^ prec * 2 ^ k * D) by ring.
      apply Z.mul_le_mono_nonneg_r; lia. }
    apply Z.mul_lt_mono_pos_r in A; [lia | apply Z.mul_pos_pos; lia].
Qed.

Lemma binary_round_aux_normal (sx : bool) (mx ex : Z) (lx : location) (N D R : Z) :
  0 < D -> 0 < mx -> N = mx * D + R ->
  loc_sem (shr_r (shr_record_of_loc mx lx)) (shr_s (shr_record_of_loc mx lx)) R D ->
  let d := Zdigits2 mx in
  prec <= d ->
  emin prec emax <= d + ex - prec ->
  d + ex <= emax - 1 ->
  exists M E,
    binary_round_aux prec emax sx mx ex lx = S754_finite sx (Z.to_pos M) E
    /\ 2 ^ (prec - 1) <= M < 2 ^ prec
    /\ d - prec <= E - ex <= d - prec + 1
    /\ 2 * (M * 2 ^ (E - ex) * D) <= 2 * N + D * 2 ^ (d - prec)
    /\ 2 * N <= 2 * (M * 2 ^ (E - ex) * D) + D * 2 ^ (d - prec).
Proof.
  intros HD Hmx EN HL d Hd Hmin Hmax.
  destruct (Zdigits2_bracket mx Hmx) as (Dpos & DL & DU). fold d in Dpos, DL, DU.
  set (k := d - prec). assert (Hk : 0 <= k) by (unfold k; lia).
  assert (P : 0 < 2 ^ k) by (apply Z.pow_pos_nonneg; lia).
  pose proof HL as (HR & _).
  (* first shift *)
  unfold binary_round_aux, shr_fexp. fold d.
  rewrite (fexp_normal (d + ex)) by lia.
  replace (d + ex - prec - ex) with k by (unfold k; lia).
  pose proof (shr_record_of_loc_inv mx lx N D R ltac:(lia) EN HL) as I0.
  destruct (shr_inv_shift N D (shr_record_of_loc mx lx) ex k HD I0) as [I1 E1].
  destruct (shr (shr_record_of_loc mx lx) ex k) as [x1 e1] eqn:S1.
  cbn [fst snd] in I1, E1. rewrite Z.max_l in I1, E1 by lia. subst e1.
  pose proof I1 as (Hm1 & R1 & EN1 & (HR1 & _)).
  assert (HD1 : 0 < D * 2 ^ k) by (apply Z.mul_pos_pos; lia).
  assert (Rg : 2 ^ (prec - 1) <= shr_m x1 < 2 ^ prec).
  { apply (shifted_mantissa_range N D mx (shr_m x1) k HD Hk).
    - rewrite Z.mul_add_distr_r. lia.
    - replace (prec + k - 1) with (d - 1) by (unfold k; lia).
      replace (prec + k) with d by (unfold k; lia). lia.
    - rewrite Z.mul_add_distr_r. lia. }
  (* rounding *)
  destruct (round_nearest_even_inv N (D * 2 ^ k) x1 HD1 I1) as (B1 & _ & _ & B2 & B3).
  set (M := round_nearest_even (shr_m x1) (loc_of_shr_record x1)) in *.
  assert (Ppos : 0 < 2 ^ (prec - 1)) by (apply Z.pow_pos_nonneg; lia).
  assert (Pdbl : 2 ^ prec = 2 * 2 ^ (prec - 1))
    by (rewrite <- Z.pow_succ_r by lia; f_equal; lia).
  destruct (Z.eq_dec M (2 ^ prec)) as [Emax|Nmax].
  - (* carry: one more shift, exact *)
    assert (Dg : Zdigits2 M = prec + 1).
    { apply Zdigits2_unique; [lia|]. rewrite Emax.
      replace (prec + 1 - 1) with prec by lia.
      rewrite Z.pow_add_r, Z.pow_1_r by lia. lia. }
    rewrite Dg. rewrite (fexp_normal (prec + 1 + (ex + k))) by (unfold k; lia).
    replace (prec + 1 + (ex + k) - prec - (ex + k)) with 1 by lia.
    cbn [shr iter_pos shr_record_of_loc shr_1].
    assert (EM : exists q, M = Zpos q~0).
    { assert (Ev : M = 2 * 2 ^ (prec - 1)) by lia.
      destruct (2 ^ (prec - 1)) as [|q|q] eqn:Eq; try lia. exists q. lia. }
    destruct EM as [q EM]. rewrite EM. cbn [shr_m].
    assert (Hle : (ex + k + 1 <=? emax - prec) = true) by (apply Z.leb_le; unfold k; lia).
    rewrite Hle.
    exists (2 ^ (prec - 1)), (ex + k + 1).
    assert (Eq : Zpos q = 2 ^ (prec - 1)) by lia.
    split; [rewrite <- Eq; reflexivity|].
    split; [lia|]. split; [unfold k; lia|].
    replace (ex + k + 1 - ex) with (k + 1) by lia.
    rewrite Z.pow_add_r, Z.pow_1_r by lia. fold k.
    replace (2 ^ (prec - 1) * (2 ^ k * 2) * D) with (M * (D * 2 ^ k)) by (rewrite Emax, Pdbl; ring).
    lia.
  - (* no carry *)
    assert (Dg : Zdigits2 M = prec) by (apply Zdigits2_unique; lia).
    rewrite Dg. rewrite (fexp_normal (prec + (ex + k))) by (unfold k; lia).
    replace (prec + (ex + k) - prec - (ex + k)) with 0 by lia.
    cbn [shr shr_record_of_loc shr_m].
    destruct M as [|q|q] eqn:EM; try lia.
    assert (Hle : (ex + k <=? emax - prec) = true) by (apply Z.leb_le; unfold k; lia).
    rewrite Hle.
    exists (Zpos q), (ex + k).
    split; [reflexivity|]. split; [lia|]. split; [unfold k; lia|].
    replace (ex + k - ex) with k by lia. fold k.
    replace (Zpos q * 2 ^ k * D) with (Zpos q * (D * 2 ^ k)) by ring.
    lia.
Qed.

End Round.

(** ** Adding two positive normal numbers *)

Lemma iter_xO_pow (m d : positive) :
  Zpos (Pos.iter xO m d) = Zpos m * 2 ^ Zpos d.
Proof.
  induction d as [|d IH] using Pos.peano_ind.
  - simpl. lia.
  - rewrite Pos.iter_succ, Pos2Z.inj_succ, Z.pow_succ_r by lia.
    rewrite Pos2Z.inj_xO, IH. ring.
Qed.

Lemma shl_align_spec (m : positive) (e e' : Z) :
  (e' <= e ->
   shl_align m e e' = (Z.to_pos (Zpos m * 2 ^ (e - e')), e')
   \/ (e' = e /\ shl_align m e e' = (m, e)))
  /\ (e <= e' -> shl_align m e e' = (m, e)).
Proof.
  unfold shl_align. split; intros H.
  - destruct (e' - e) as [|p|p] eqn:E; try lia.
    + right. split; [lia | reflexivity].
    + left. replace (e - e') with (Zpos p) by lia.
      now rewrite <- iter_xO_pow.
  - destruct (e' - e) as [|p|p] eqn:E; try lia; reflexivity.
Qed.

Lemma shl_align_fst (m : positive) (e e' : Z) :
  e' <= e -> Zpos (fst (shl_align m e e')) = Zpos m * 2 ^ (e - e').
Proof.
  intros H. destruct (proj1 (shl_align_spec m e e') H) as [->|[-> ->]]; cbn [fst].
  - rewrite Z2Pos.id; [reflexivity|].
    apply Z.mul_pos_pos; [lia | apply Z.pow_pos_nonneg; lia].
  - rewrite Z.sub_diag. simpl. lia.
Qed.

Section Add.
Variables prec emax : Z.
Hypothesis Hprec : 0 < prec.


Lemma SFadd_normal (ma : positive) (ea : Z) (mb : positive) (eb : Z) (P : Z) :
  normal prec emax ma ea -> normal prec emax mb eb ->
  let ez := Z.min ea eb in
  let mz := Zpos ma * 2 ^ (ea - ez) + Zpos mb * 2 ^ (eb - ez) in
  mz < 2 ^ (P - ez) -> P <= emax - 1 ->
  exists M E,
    SFadd prec emax (S754_finite false ma ea) (S754_finite false mb eb)
    = S754_finite false M E
    /\ normal prec emax M E /\ ez < E /\ prec + ez < P
    /\ 2 * (Zpos M * 2 ^ (E - ez)) <= 2 * mz + 2 ^ (P - prec - ez)
    /\ 2 * mz <= 2 * (Zpos M * 2 ^ (E - ez)) + 2 ^ (P - prec - ez).
Proof.
  intros [[La Ua] Ea] [[Lb Ub] Eb] ez mz Hlt HP.
  assert (Ha : 0 <= ea - ez) by (unfold ez; lia).
  assert (Hb : 0 <= eb - ez) by (unfold ez; lia).
  assert (Pa : 1 <= 2 ^ (ea - ez)) by (apply (Z.pow_le_mono_r 2 0); lia).
  assert (Pb : 1 <= 2 ^ (eb - ez)) by (apply (Z.pow_le_mono_r 2 0); lia).
  assert (Ppos : 0 < 2 ^ (prec - 1)) by (apply Z.pow_pos_nonneg; lia).
  assert (Pdbl : 2 ^ prec = 2 * 2 ^ (prec - 1))
    by (rewrite <- Z.pow_succ_r by lia; f_equal; lia).
  assert (Hmz : 2 ^ prec <= mz).
  { unfold mz.
    assert (Zpos ma * 1 <= Zpos ma * 2 ^ (ea - ez)) by (apply Z.mul_le_mono_nonneg_l; lia).
    assert (Zpos mb * 1 <= Zpos mb * 2 ^ (eb - ez)) by (apply Z.mul_le_mono_nonneg_l; lia).
    lia. }
  assert (Hpos : 0 < mz) by lia.
  destruct (Zdigits2_bracket mz Hpos) as (Dpos & DL & DU).
  set (d := Zdigits2 mz) in *.
  assert (Hd : prec < d).
  { destruct (Z.le_gt_cases d prec) as [C|C]; [|lia].
    assert (2 ^ d <= 2 ^ prec) by (apply Z.pow_le_mono_r; lia). lia. }
  assert (HdP : d + ez <= P).
  { destruct (Z.le_gt_cases (d - 1) (P - ez - 1)) as [C|C]; [lia|].
    assert (2 ^ (P - ez) <= 2 ^ (d - 1)).
    { destruct (Z.le_gt_cases 0 (P - ez)) as [C'|C'];
        [apply Z.pow_le_mono_r; lia|].
      rewrite (Z.pow_neg_r 2 (P - ez)) by lia. lia. }
    lia. }
  assert (Hez : emin prec emax <= ez) by (unfold ez; lia).
  (* unfold the sum *)
  unfold SFadd. fold ez. cbn [cond_Zopp].
  rewrite (shl_align_fst ma ea ez) by (unfold ez; lia).
  rewrite (shl_align_fst mb eb ez) by (unfold ez; lia).
  fold mz. destruct mz as [|pz|pz] eqn:Emz; try lia.
  unfold binary_normalize, binary_round.
  change (Zpos (digits2_pos pz)) with (Zdigits2 (Zpos pz)). fold d.
  rewrite (fexp_normal prec emax (d + ez)) by lia.
  rewrite (proj2 (shl_align_spec pz ez (d + ez - prec))) by lia.
  destruct (binary_round_aux_normal prec emax Hprec false (Zpos pz) ez loc_Exact
              (Zpos pz) 1 0) as (M & E & EQ & RM & RE & B1 & B2);
    try lia.
  { unfold loc_sem. simpl. lia. }
  fold d in RE, B1, B2.
  rewrite EQ. exists (Z.to_pos M), E.
  assert (HM : 0 < M) by lia.
  unfold normal. rewrite Z2Pos.id by assumption.
  split; [reflexivity|]. split; [split; [exact RM | lia]|].
  split; [lia|]. split; [lia|].
  assert (Mono : 2 ^ (d - prec) <= 2 ^ (P - prec - ez)) by (apply Z.pow_le_mono_r; lia).
  rewrite !Z.mul_1_r in B1, B2. lia.
Qed.

End Add.

(** ** Dividing two positive normal numbers *)

Lemma new_location_sem (m nb k : Z) :
  0 < nb -> 0 <= k < nb ->
  loc_sem (shr_r (shr_record_of_loc m (new_location nb k)))
          (shr_s (shr_record_of_loc m (new_location nb k))) k nb.
Proof.
  intros Hnb Hk. unfold loc_sem. split; [exact Hk|].
  unfold new_location, new_location_even, new_location_odd.
  pose proof (Z.div2_odd nb) as E. rewrite <- Z.negb_even in E.
  destruct (Z.even nb); cbn [negb Z.b2z] in E.
  - destruct (k =? 0) eqn:K; [cbn [shr_r shr_s shr_record_of_loc]; lia|].
    destruct (Z.compare_spec (2 * k) nb); cbn [shr_r shr_s shr_record_of_loc]; lia.
  - destruct (k =? 0) eqn:K; [cbn [shr_r shr_s shr_record_of_loc]; lia|].
    destruct (Z.compare_spec (2 * k + 1) nb); cbn [shr_r shr_s shr_record_of_loc]; lia.
Qed.

Section Div.
Variables prec emax : Z.
Hypothesis Hprec : 0 < prec.

Lemma SFdiv_normal (ma : positive) (ea : Z) (mb : positive) (eb : Z) (P : Z) :
  normal prec emax ma ea -> normal prec emax mb eb ->
  let e' := ea - eb - prec in
  emin prec emax <= e' -> ea - eb + 2 <= emax ->
  Zpos ma * 2 ^ prec < Zpos mb * 2 ^ (P - e') ->
  exists M E,
    SFdiv prec emax (S754_finite false ma ea) (S754_finite false mb eb)
    = S754_finite false M E
    /\ normal prec emax M E /\ e' <= E /\ prec + e' <= P
    /\ 2 * (Zpos M * 2 ^ (E - e') * Zpos mb)
       <= 2 * (Zpos ma * 2 ^ prec) + Zpos mb * 2 ^ (P - prec - e')
    /\ 2 * (Zpos ma * 2 ^ prec)
       <= 2 * (Zpos M * 2 ^ (E - e') * Zpos mb) + Zpos mb * 2 ^ (P - prec - e').
Proof.
  intros [[La Ua] Ea] [[Lb Ub] Eb] e' Hmin Hmax Hlt.
  assert (Ppos : 0 < 2 ^ (prec - 1)) by (apply Z.pow_pos_nonneg; lia).
  assert (Pdbl : 2 ^ prec = 2 * 2 ^ (prec - 1))
    by (rewrite <- Z.pow_succ_r by lia; f_equal; lia).
  assert (Da : Zdigits2 (Zpos ma) = prec) by (apply Zdigits2_unique; lia).
  assert (Db : Zdigits2 (Zpos mb) = prec) by (apply Zdigits2_unique; lia).
  unfold SFdiv, SFdiv_core_binary. rewrite Da, Db.
  replace (prec + ea - (prec + eb)) with (ea - eb) by lia.
  rewrite (fexp_normal prec emax (ea - eb)) by (unfold e' in Hmin; lia).
  fold e'. rewrite Z.min_l by (unfold e'; lia).
  replace (ea - eb - e') with prec by (unfold e'; lia).
  destruct prec as [|pp|pp] eqn:Eprec; try lia. rewrite <- Eprec in *.
  rewrite Z.shiftl_mul_pow2 by lia.
  set (m' := Zpos ma * 2 ^ prec) in *.
  pose proof (Z_div_mod m' (Zpos mb) ltac:(lia)) as DM.
  unfold Z.div_eucl at 1 in DM. fold (Z.div_eucl m' (Zpos mb)) in DM.
  destruct (Z.div_eucl m' (Zpos mb)) as [q r] eqn:Eqr.
  destruct DM as [EN HR]. cbn [xorb].
  (* the quotient has prec or prec + 1 digits *)
  assert (Hq1 : 2 ^ (prec - 1) <= q).
  { assert (A : 2 ^ (prec - 1) * Zpos mb < (q + 1) * Zpos mb).
    { apply Z.lt_le_trans with (2 ^ (prec - 1) * 2 ^ prec).
      - apply Z.mul_lt_mono_pos_l; lia.
      - replace ((q + 1) * Zpos mb) with (Zpos mb * q + Zpos mb) by ring.
        apply Z.le_trans with m'; [|lia].
        unfold m'. apply Z.mul_le_mono_nonneg_r; lia. }
    apply Z.mul_lt_mono_pos_r in A; lia. }
  assert (Hq2 : q < 2 ^ (prec + 1)).
  { assert (A : q * Zpos mb < 2 ^ (prec + 1) * Zpos mb).
    { rewrite Z.pow_add_r, Z.pow_1_r by lia.
      assert (A1 : m' < 2 ^ prec * 2 ^ prec)
        by (unfold m'; apply Z.mul_lt_mono_pos_r; lia).
      assert (A2 : 2 ^ prec * 2 ^ prec <= 2 ^ prec * (2 * Zpos mb))
        by (apply Z.mul_le_mono_nonneg_l; lia).
      lia. }
    apply Z.mul_lt_mono_pos_r in A; lia. }
  assert (Hqpos : 0 < q) by lia.
  destruct (Zdigits2_bracket q Hqpos) as (Dpos & DL & DU).
  set (d := Zdigits2 q) in *.
  assert (Hd1 : prec <= d).
  { destruct (Z.le_gt_cases prec d) as [C|C]; [exact C|].
    assert (2 ^ d <= 2 ^ (prec - 1)) by (apply Z.pow_le_mono_r; lia). lia. }
  assert (Hd2 : d <= prec + 1).
  { destruct (Z.le_gt_cases d (prec + 1)) as [C|C]; [exact C|].
    assert (2 ^ (prec + 1) <= 2 ^ (d - 1)) by (apply Z.pow_le_mono_r; lia). lia. }
  assert (HPe : 0 <= P - e').
  { destruct (Z.le_gt_cases 0 (P - e')) as [C|C]; [exact C|].
    rewrite (Z.pow_neg_r 2 (P - e')) in Hlt by lia.
    assert (0 < m') by (unfold m'; apply Z.mul_pos_pos; lia). lia. }
  assert (HdP : d + e' <= P).
  { destruct (Z.le_gt_cases (d - 1) (P - e' - 1)) as [C|C]; [lia|].
    assert (M1 : 2 ^ (P - e') <= 2 ^ (d - 1)) by (apply Z.pow_le_mono_r; lia).
    assert (A : q * Zpos mb < 2 ^ (P - e') * Zpos mb)
      by (replace (2 ^ (P - e') * Zpos mb) with (Zpos mb * 2 ^ (P - e')) by ring; lia).
    apply Z.mul_lt_mono_pos_r in A; lia. }
  destruct (binary_round_aux_normal prec emax Hprec false q e' (new_location (Zpos mb) r)
              m' (Zpos mb) r) as (M & E & EQ & RM & RE & B1 & B2);
    try lia.
  { apply new_location_sem; lia. }
  fold d in RE, B1, B2.
  rewrite EQ. exists (Z.to_pos M), E.
  assert (HM : 0 < M) by lia.
  unfold normal. rewrite Z2Pos.id by assumption.
  split; [reflexivity|]. split; [split; [exact RM | lia]|].
  split; [lia|]. split; [lia|].
  assert (Mono : 2 ^ (d - prec) <= 2 ^ (P - prec - e')) by (apply Z.pow_le_mono_r; lia).
  assert (Mono' : Zpos mb * 2 ^ (d - prec) <= Zpos mb * 2 ^ (P - prec - e'))
    by (apply Z.mul_le_mono_nonneg_l; lia).
  lia.
Qed.

End Div.

(** ** Rounding error of a running sum and of its quotient *)
Lemma pow2_pos (k : Z) : 0 <= k -> 0 < 2 ^ k.
Proof. intros. apply Z.pow_pos_nonneg; lia. Qed.

Lemma f32_add_units (a b : float) :
  f32_ok a -> f32_ok b ->
  f32_units a + f32_units b < 2 ^ 81 ->
  f32_ok (f32_add a b)
  /\ Z.abs (f32_units (f32_add a b) - (f32_units a + f32_units b)) <= 2 ^ 56.
Proof.
  intros [->|(ma & ea & -> & Na & Ea)] [->|(mb & eb & -> & Nb & Eb)] Hlt.
  - split; [left; reflexivity | simpl; lia].
  - change (f32_add (S754_zero false) (S754_finite false mb eb))
      with (S754_finite false mb eb).
    split; [right; eauto | ]. cbn [f32_units]. lia.
  - change (f32_add (S754_finite false ma ea) (S754_zero false))
      with (S754_finite false ma ea).
    split; [right; eauto | ]. cbn [f32_units]. lia.
  - cbn [f32_units] in Hlt |- *.
    set (ez := Z.min ea eb).
    set (T := 2 ^ (ez + 64)).
    assert (HT : 0 < T) by (apply pow2_pos; unfold ez; lia).
    assert (Ua : Zpos ma * 2 ^ (ea + 64) = Zpos ma * 2 ^ (ea - ez) * T).
    { unfold T. rewrite <- Z.mul_assoc, <- Z.pow_add_r by (unfold ez; lia).
      do 2 f_equal. lia. }
    assert (Ub : Zpos mb * 2 ^ (eb + 64) = Zpos mb * 2 ^ (eb - ez) * T).
    { unfold T. rewrite <- Z.mul_assoc, <- Z.pow_add_r by (unfold ez; lia).
      do 2 f_equal. lia. }
    set (mz := Zpos ma * 2 ^ (ea - ez) + Zpos mb * 2 ^ (eb - ez)).
    assert (Hsum : Zpos ma * 2 ^ (ea + 64) + Zpos mb * 2 ^ (eb + 64) = mz * T)
      by (rewrite Ua, Ub; unfold mz; ring).
    rewrite Hsum in Hlt |- *.
    assert (Hmz1 : 1 <= mz).
    { unfold mz.
      assert (0 < 2 ^ (ea - ez)) by (apply pow2_pos; unfold ez; lia).
      assert (0 < 2 ^ (eb - ez)) by (apply pow2_pos; unfold ez; lia).
      assert (0 < Zpos ma * 2 ^ (ea - ez)) by (apply Z.mul_pos_pos; lia).
      assert (0 < Zpos mb * 2 ^ (eb - ez)) by (apply Z.mul_pos_pos; lia). lia. }
    assert (Hez : ez < 17).
    { destruct (Z.lt_ge_cases ez 17) as [C|C]; [exact C|].
      assert (2 ^ 81 <= T) by (unfold T; apply Z.pow_le_mono_r; lia).
      assert (1 * T <= mz * T) by (apply Z.mul_le_mono_nonneg_r; lia). lia. }
    assert (Hlt' : mz < 2 ^ (17 - ez)).
    { assert (E81 : 2 ^ 81 = 2 ^ (17 - ez) * T)
        by (unfold T; rewrite <- Z.pow_add_r by lia; f_equal; lia).
      rewrite E81 in Hlt. apply Z.mul_lt_mono_pos_r in Hlt; assumption. }
    destruct (SFadd_normal f32_prec f32_emax ltac:(reflexivity) ma ea mb eb 17 Na Nb Hlt')
      as (M & E & EQ & NM & HE & HK & B1 & B2); [unfold f32_emax; lia|].
    fold ez mz in HE, HK, B1, B2. unfold f32_prec in HK.
    unfold f32_add. rewrite EQ. split.
    + right. exists M, E. repeat split; try apply NM. unfold ez in HE. lia.
    + cbn [f32_units].
      assert (UM : Zpos M * 2 ^ (E + 64) = Zpos M * 2 ^ (E - ez) * T).
      { unfold T. rewrite <- Z.mul_assoc, <- Z.pow_add_r by lia.
        do 2 f_equal. lia. }
      rewrite UM.
      assert (EK : 2 ^ (17 - f32_prec - ez) * T = 2 ^ 57).
      { unfold T, f32_prec. rewrite <- Z.pow_add_r by lia. f_equal. lia. }
      assert (C1 : 2 * (Zpos M * 2 ^ (E - ez)) * T
                   <= (2 * mz + 2 ^ (17 - f32_prec - ez)) * T)
        by (apply Z.mul_le_mono_nonneg_r; lia).
      assert (C2 : 2 * mz * T
                   <= (2 * (Zpos M * 2 ^ (E - ez)) + 2 ^ (17 - f32_prec - ez)) * T)
        by (apply Z.mul_le_mono_nonneg_r; lia).
      rewrite Z.mul_add_distr_r, EK in C1, C2.
      change (2 ^ 57) with (2 * 2 ^ 56) in C1, C2. lia.
Qed.

Lemma f32_ok_units_nonneg (x : float) : f32_ok x -> 0 <= f32_units x.
Proof.
  intros [->|(m & e & -> & _ & He)]; cbn [f32_units]; [lia|].
  assert (0 < 2 ^ (e + 64)) by (apply pow2_pos; lia). lia.
Qed.


Lemma fold_add_units (l : list float) :
  forall acc S k,
    f32_ok acc ->
    Forall (fun a => f32_ok a /\ f32_units a <= 100 * 2 ^ 64) l ->
    Z.abs (f32_units acc - S) <= k * 2 ^ 56 ->
    0 <= S <= k * (100 * 2 ^ 64) -> 0 <= k -> k + Z.of_nat (length l) <= 1000 ->
    f32_ok (fold_left f32_add l acc)
    /\ Z.abs (f32_units (fold_left f32_add l acc) - (S + units_sum l))
       <= (k + Z.of_nat (length l)) * 2 ^ 56
    /\ 0 <= S + units_sum l <= (k + Z.of_nat (length l)) * (100 * 2 ^ 64).
Proof.
  induction l as [|a l IH]; intros acc S k Hacc F Herr HS Hk Hlen.
  - cbn [fold_left length units_sum map fold_right]. rewrite !Z.add_0_r. auto.
  - inversion F as [|? ? [Ha Ua] Fl]; subst.
    cbn [length] in Hlen. rewrite Nat2Z.inj_succ in Hlen.
    pose proof (f32_ok_units_nonneg a Ha) as Pa.
    destruct (f32_add_units acc a Hacc Ha) as [Hok Hadd]; [lia|].
    cbn [fold_left].
    destruct (IH (f32_add acc a) (S + f32_units a) (k + 1) Hok Fl) as (I1 & I2 & I3);
      try lia.
    cbn [length units_sum map fold_right]. fold (units_sum l).
    rewrite Nat2Z.inj_succ.
    replace (S + (f32_units a + units_sum l)) with (S + f32_units a + units_sum l) by ring.
    replace (k + Z.succ (Z.of_nat (length l))) with (k + 1 + Z.of_nat (length l)) by lia.
    auto.
Qed.

Lemma float_sum_units (l : list float) :
  Forall (fun a => f32_ok a /\ f32_units a <= 100 * 2 ^ 64) l ->
  Z.of_nat (length l) <= 1000 ->
  f32_ok (float_sum l)
  /\ Z.abs (f32_units (float_sum l) - units_sum l) <= Z.of_nat (length l) * 2 ^ 56
  /\ 0 <= units_sum l <= Z.of_nat (length l) * (100 * 2 ^ 64).
Proof.
  intros F Hlen.
  destruct (fold_add_units l (S754_zero false) 0 0 (or_introl eq_refl) F) as (A & B & C);
    simpl; try lia.
  unfold float_sum. rewrite !Z.add_0_l in *. auto.
Qed.


Lemma check_count_all : forallb check_count (Zrange 1 1001) = true.
Proof. vm_compute. reflexivity. Qed.

Lemma f32_of_int_count (n : Z) :
  1 <= n <= 1000 ->
  exists m e, f32_of_int n = S754_finite false m e
              /\ normal f32_prec f32_emax m e /\ -23 <= e <= -14
              /\ Zpos m = n * 2 ^ (- e).
Proof.
  intros Hn. pose proof check_count_all as H. rewrite forallb_forall in H.
  specialize (H n (Zrange_In 1 1001 n ltac:(lia))). unfold check_count in H.
  destruct (f32_of_int n) as [| | |[] m e]; try discriminate.
  repeat (apply andb_prop in H; destruct H as [H ?]).
  exists m, e. split; [reflexivity|].
  unfold normal, f32_prec, f32_emax, emin.
  change (2 ^ (24 - 1)) with (2 ^ 23). lia.
Qed.

Lemma f32_div_units (F : float) (n : Z) :
  f32_ok F -> 1 <= n <= 1000 -> f32_units F < n * 2 ^ 71 ->
  let r := f32_div F (f32_of_int n) in
  (r = S754_zero false \/ exists M E, r = S754_finite false M E /\ -64 <= E)
  /\ Z.abs (n * f32_units r - f32_units F) <= n * 2 ^ 46.
Proof.
  intros HF Hn Hlt.
  destruct (f32_of_int_count n Hn) as (mb & eb & -> & Nb & Eb & Vb).
  destruct HF as [->|(ma & ea & -> & Na & Ea)].
  - cbn. split; [left; reflexivity | lia].
  - cbn [f32_units] in Hlt |- *.
    assert (Pb : 0 < 2 ^ (- eb)) by (apply pow2_pos; lia).
    (* the exponent of F is below -6 *)
    assert (Hea : ea < -6).
    { destruct (Z.lt_ge_cases ea (-6)) as [C|C]; [exact C|].
      assert (2 ^ 58 <= 2 ^ (ea + 64)) by (apply Z.pow_le_mono_r; lia).
      destruct Na as [[La _] _]. unfold f32_prec in La. change (2 ^ (24 - 1)) with (2 ^ 23) in La.
      assert (2 ^ 23 * 2 ^ 58 <= Zpos ma * 2 ^ (ea + 64)) by (apply Z.mul_le_mono_nonneg; lia).
      lia. }
    set (e' := ea - eb - f32_prec).
    assert (He' : -64 <= e') by (unfold e', f32_prec; lia).
    set (T := 2 ^ (ea + 40)).
    assert (HT : 0 < T) by (apply pow2_pos; lia).
    assert (UF : Zpos ma * 2 ^ (ea + 64) = Zpos ma * 2 ^ f32_prec * T).
    { unfold T, f32_prec. rewrite <- Z.mul_assoc, <- Z.pow_add_r by lia. do 2 f_equal. lia. }
    assert (UN : n * 2 ^ 71 = Zpos mb * 2 ^ (7 - e') * T).
    { rewrite Vb. unfold T, e', f32_prec.
      rewrite <- !Z.mul_assoc, <- !Z.pow_add_r by lia. do 2 f_equal. lia. }
    assert (Hlt' : Zpos ma * 2 ^ f32_prec < Zpos mb * 2 ^ (7 - e')).
    { rewrite UF, UN in Hlt. apply Z.mul_lt_mono_pos_r in Hlt; assumption. }
    destruct (SFdiv_normal f32_prec f32_emax ltac:(reflexivity) ma ea mb eb 7 Na Nb)
      as (M & E & EQ & NM & HE & HK & B1 & B2);
      try (unfold f32_prec, f32_emax, emin; lia); [exact Hlt'|].
    fold e' in HE, HK, B1, B2.
    unfold f32_div. rewrite EQ. cbv zeta. split.
    + right. exists M, E. split; [reflexivity | lia].
    + cbn [f32_units].
      (* multiply the bounds of the quotient by 2^(e' + 64) *)
      set (U := 2 ^ (e' + 64)).
      assert (HU : 0 < U) by (apply pow2_pos; lia).
      assert (UM : Zpos M * 2 ^ (E + 64) = Zpos M * 2 ^ (E - e') * U).
      { unfold U. rewrite <- Z.mul_assoc, <- Z.pow_add_r by lia. do 2 f_equal. lia. }
      assert (UF' : Zpos ma * 2 ^ (ea + 64) * 2 ^ (- eb) = Zpos ma * 2 ^ f32_prec * U).
      { unfold U, e', f32_prec.
        rewrite <- !Z.mul_assoc, <- !Z.pow_add_r by lia. do 2 f_equal. lia. }
      assert (EK : 2 ^ (7 - f32_prec - e') * U = 2 ^ 47).
      { unfold U, f32_prec. rewrite <- Z.pow_add_r by (unfold f32_prec in HK; lia).
        f_equal. lia. }
      assert (C1 : 2 * (Zpos M * 2 ^ (E - e') * Zpos mb) * U
                   <= (2 * (Zpos ma * 2 ^ f32_prec) + Zpos mb * 2 ^ (7 - f32_prec - e')) * U)
        by (apply Z.mul_le_mono_nonneg_r; lia).
      assert (C2 : 2 * (Zpos ma * 2 ^ f32_prec) * U
                   <= (2 * (Zpos M * 2 ^ (E - e') * Zpos mb)
                       + Zpos mb * 2 ^ (7 - f32_prec - e')) * U)
        by (apply Z.mul_le_mono_nonneg_r; lia).
      rewrite UM.
      set (X := Zpos M * 2 ^ (E - e') * U) in *.
      set (Y := Zpos ma * 2 ^ (ea + 64)) in *.
      assert (L1 : 2 * (Zpos M * 2 ^ (E - e') * Zpos mb) * U = 2 * (n * X) * 2 ^ (- eb))
        by (rewrite Vb; unfold X; ring).
      assert (L2 : 2 * (Zpos ma * 2 ^ f32_prec) * U = 2 * Y * 2 ^ (- eb))
        by (replace (2 * (Zpos ma * 2 ^ f32_prec) * U)
              with (2 * (Zpos ma * 2 ^ f32_prec * U)) by ring;
            rewrite <- UF'; ring).
      assert (L3 : Zpos mb * 2 ^ (7 - f32_prec - e') * U = n * 2 ^ 47 * 2 ^ (- eb))
        by (rewrite <- Z.mul_assoc, EK, Vb; ring).
      rewrite Z.mul_add_distr_r in C1, C2. rewrite L1, L2, L3 in C1, C2.
      rewrite <- Z.mul_add_distr_r in C1, C2.
      apply Z.mul_le_mono_pos_r in C1, C2; try assumption.
      change (2 ^ 47) with (2 * 2 ^ 46) in C1, C2. lia.
Qed.

Lemma check_average_ok_all :
  forallb (fun n => forallb (check_average_ok n) (Zrange 0 (100 * n + 1)))
          (Zrange 1 11) = true.
Proof. vm_compute. reflexivity. Qed.

Lemma average_ok (s : Student) :
  valid_scores s ->
  f32_ok (average (recompute s)) /\ f32_units (average (recompute s)) <= 100 * 2 ^ 64.
Proof.
  intros Hv. destruct (sum_marks_exact s Hv) as (_ & _ & B).
  pose proof Hv as (Hc & _). unfold MAX_SUBJECTS in Hc.
  pose proof check_average_ok_all as H.
  rewrite forallb_forall in H.
  specialize (H _ (Zrange_In 1 11 (subjectCount s) ltac:(lia))).
  rewrite forallb_forall in H.
  specialize (H _ (Zrange_In 0 (100 * subjectCount s + 1) (sum_marks s) ltac:(lia))).
  unfold check_average_ok in H.
  cbn [recompute average set_grade set_average].
  destruct (f32_div (f32_of_int (sum_marks s)) (f32_of_int (subjectCount s)))
    as [[]| | |[] m e]; try discriminate.
  - split; [left; reflexivity | simpl; lia].
  - repeat (apply andb_prop in H; destruct H as [H ?]).
    split; [|cbn [f32_units]; lia].
    right. exists m, e. split; [reflexivity|].
    unfold normal, f32_prec, f32_emax, emin. change (2 ^ (24 - 1)) with (2 ^ 23). lia.
Qed.

Section ClassAverage.
Local Open Scope Q_scope.


Lemma two64_pos : 0 < two64.
Proof. reflexivity. Qed.

Lemma f32_value_units (x : float) :
  (x = S754_zero false \/ exists M E, x = S754_finite false M E /\ (-64 <= E)%Z) ->
  f32_value x == inject_Z (f32_units x) / two64.
Proof.
  intros [->|(M & E & -> & HE)].
  - reflexivity.
  - cbn [f32_value f32_units].
    rewrite inject_Z_mult, Zpower_Qpower by lia.
    change (inject_Z 2) with 2.
    rewrite Qpower_plus by discriminate.
    unfold two64. rewrite Zpower_Qpower by lia. change (inject_Z 2) with 2.
    field; intros C; discriminate C.
Qed.

Lemma f32_ok_exponent (x : float) :
  f32_ok x -> x = S754_zero false \/ exists M E, x = S754_finite false M E /\ (-64 <= E)%Z.
Proof.
  intros [->|(m & e & -> & _ & He)]; [now left|]. right. exists m, e. split; [reflexivity | lia].
Qed.

Lemma values_sum_units (l : list float) :
  Forall f32_ok l ->
  fold_right Qplus 0 (map f32_value l) == inject_Z (units_sum l) / two64.
Proof.
  induction 1 as [|a l Ha F IH]; [reflexivity|].
  cbn [map fold_right units_sum]. fold (units_sum l).
  rewrite IH, (f32_value_units a (f32_ok_exponent a Ha)), inject_Z_plus.
  field; intros C; discriminate C.
Qed.

(** The class average of a store of at most 1000 records whose averages are
    those [recompute] derives from valid scores is within 2^-8 + 2^-18 of
    the exact mean of these averages. *)
Lemma class_average_accuracy (l : list float) (n : Z) :
  Forall (fun a => f32_ok a /\ (f32_units a <= 100 * 2 ^ 64)%Z) l ->
  n = Z.of_nat (length l) -> (1 <= n <= 1000)%Z ->
  Qabs (f32_value (f32_div (float_sum l) (f32_of_int n)) - qmean (map f32_value l))
  <= (1 # 256) + (1 # 262144).
Proof.
  intros F En Hn.
  destruct (float_sum_units l F ltac:(lia)) as (Hok & Hsum & Hrange).
  rewrite <- En in Hsum, Hrange.
  destruct (f32_div_units (float_sum l) n Hok Hn) as [Hr Hdiv].
  { apply Z.abs_le in Hsum. lia. }
  cbv zeta in Hr, Hdiv.
  set (r := f32_div (float_sum l) (f32_of_int n)) in *.
  assert (Fo : Forall f32_ok l) by (eapply Forall_impl; [|exact F]; cbv beta; tauto).
  unfold qmean. rewrite length_map, <- En.
  rewrite (values_sum_units l Fo), (f32_value_units r Hr).
  apply Z.abs_le in Hsum, Hdiv.
  set (u := f32_units r) in *. set (S := units_sum l) in *. set (uF := f32_units (float_sum l)) in *.
  assert (B1 : (n * u <= S + n * (2 ^ 46 + 2 ^ 56))%Z) by lia.
  assert (B2 : (S <= n * u + n * (2 ^ 46 + 2 ^ 56))%Z) by lia.
  rewrite Zle_Qle in B1, B2.
  rewrite inject_Z_plus, !inject_Z_mult in B1, B2.
  assert (Np : 0 < inject_Z n) by (change 0 with (inject_Z 0); rewrite <- Zlt_Qlt; lia).
  clearbody u S uF.
  set (A := inject_Z u) in *. set (Bq := inject_Z S) in *. set (Nq := inject_Z n) in *.
  set (c := inject_Z (2 ^ 46 + 2 ^ 56)) in *.
  assert (Ec : (1 # 256) + (1 # 262144) == c / two64) by reflexivity.
  rewrite Ec.
  assert (EX : A / two64 - Bq / two64 / Nq == (Nq * A - Bq) / (Nq * two64)).
  { field. split; intros C; [discriminate C | lra]. }
  rewrite EX.
  pose proof two64_pos as Tp.
  assert (Dp : 0 < Nq * two64) by (apply Qmult_lt_0_compat; assumption).
  clearbody c A Bq Nq.
  apply Qabs_Qle_condition. split.
  - apply Qle_shift_div_l; [exact Dp|].
    setoid_replace (- (c / two64) * (Nq * two64)) with (- (Nq * c))
      by (field; intros C; discriminate C).
    lra.
  - apply Qle_shift_div_r; [exact Dp|].
    setoid_replace (c / two64 * (Nq * two64)) with (Nq * c)
      by (field; intros C; discriminate C).
    lra.
Qed.

End ClassAverage.

(** C4 (as amended). On a non-empty store whose averages are numbers,
    [showStats] reports: as class average the single-precision quotient,
    by the number of records, of the single-precision running sum of the
    average fields in store order, which for a store of at most
    MAX_STUDENTS records as [recompute] leaves them is within
    2^-8 + 2^-18 of the exact mean of the average fields; as topper the
    earliest record whose average is maximal; as lowest the earliest
    record whose average is minimal. *)
Theorem showStats_extremes (st : Store) :
  st <> [] -> Forall not_nan st ->
  exists r t l,
    showStats st = Some r
    /\ total r = studentCount st
    /\ classAvg r = f32_div (float_sum (map average st)) (f32_of_int (studentCount st))
    /\ (studentCount st <= MAX_STUDENTS -> Forall average_derived st ->
        (Qabs (f32_value (classAvg r) - qmean (map (fun s => f32_value (average s)) st))
         <= (1 # 256) + (1 # 262144))%Q)
    /\ (t < length st)%nat /\ topper r = nth t st zeroStudent
    /\ (forall j, (j < length st)%nat -> f32_ge (avg_at st t) (avg_at st j) = true)
    /\ (forall j, (j < t)%nat -> f32_lt (avg_at st j) (avg_at st t) = true)
    /\ (l < length st)%nat /\ lowest r = nth l st zeroStudent
    /\ (forall j, (j < length st)%nat -> f32_ge (avg_at st j) (avg_at st l) = true)
    /\ (forall j, (j < l)%nat -> f32_lt (avg_at st l) (avg_at st j) = true).
Proof.
  intros Hne F.
  destruct (stats_loop_invariant st F (length st) (le_n _))
    as (HS & T1 & T2 & T3 & L1 & L2 & L3).
  fold (stats_loop st) in *. rewrite firstn_all in HS.
  assert (Hlen : (0 < length st)%nat) by (destruct st; [congruence | simpl; lia]).
  exists (mkReport (studentCount st)
                   (f32_div (classSum (stats_loop st)) (f32_of_int (studentCount st)))
                   (nth (topIdx (stats_loop st)) st zeroStudent)
                   (nth (lowIdx (stats_loop st)) st zeroStudent)
                   (gradeA (stats_loop st), gradeB (stats_loop st),
                    gradeC (stats_loop st), gradeD (stats_loop st),
                    gradeF (stats_loop st))),
         (topIdx (stats_loop st)), (lowIdx (stats_loop st)).
  split; [destruct st; [congruence | reflexivity]|].
  cbn [total classAvg topper lowest]. rewrite HS.
  split; [reflexivity|]. split; [reflexivity|].
  split; [|repeat split; auto; lia].
  intros Hmax Hd. rewrite <- (map_map average f32_value).
  apply class_average_accuracy.
  - apply Forall_map. eapply Forall_impl; [|exact Hd].
    intros s [Hv ->]. now apply average_ok.
  - unfold studentCount. now rewrite length_map.
  - unfold studentCount, MAX_STUDENTS in *. lia.
Qed.

(** C4, the claim as stated fails: the running sum is rounded at every
    addition, and with three records the class average reported is not
    the mean of the three average fields, nor the float nearest to it. *)
Lemma class_average_rounding :
  exists r,
    showStats three_store = Some r
    /\ ~ (f32_value (classAvg r)
          == qmean (map (fun s => f32_value (average s)) three_store))%Q
    /\ ~ (Qabs (f32_value (classAvg r)
                - qmean (map (fun s => f32_value (average s)) three_store))
          <= f32_half_ulp (classAvg r))%Q.
Proof.
  eexists. split; [reflexivity|]. split; intros H.
  - apply Qeq_bool_iff in H. vm_compute in H. discriminate.
  - apply Qle_bool_iff in H. vm_compute in H. discriminate.
Qed.

(** ** Sorted permutations *)

Section SortedUnique.
Context {A : Type}.
Variable R : A -> A -> Prop.

Lemma sorted_perm_unique (l : list A) :
  forall l',
    (forall x y, In x l -> In y l -> R x y -> R y x -> x = y) ->
    Permutation l l' -> StronglySorted R l -> StronglySorted R l' -> l = l'.
Proof.
  induction l as [|x t IH]; intros l' Anti P S S'.
  - apply Permutation_nil in P. now subst.
  - destruct l' as [|y t'].
    { apply Permutation_sym, Permutation_nil in P. discriminate. }
    apply StronglySorted_inv in S. destruct S as [St Fx].
    apply StronglySorted_inv in S'. destruct S' as [St' Fy].
    rewrite Forall_forall in Fx, Fy.
    assert (E : x = y).
    { assert (Hx : In x (y :: t')) by (eapply Permutation_in; [exact P | now left]).
      assert (Hy : In y (x :: t))
        by (eapply Permutation_in; [apply Permutation_sym; exact P | now left]).
      destruct Hx as [Hx|Hx]; [now symmetry|].
      destruct Hy as [Hy|Hy]; [assumption|].
      apply Anti; [now left | now right | now apply Fx | now apply Fy]. }
    subst y. f_equal. apply IH; auto.
    + intros a b Ha Hb. apply Anti; now right.
    + eapply Permutation_cons_inv; exact P.
Qed.

Lemma StronglySorted_snoc (l : list A) (x : A) :
  StronglySorted R l -> Forall (fun y => R y x) l -> StronglySorted R (l ++ [x]).
Proof.
  induction l as [|h t IH]; intros S F; simpl.
  - constructor; constructor.
  - apply StronglySorted_inv in S. destruct S as [St Fh].
    inversion F; subst. constructor; [now apply IH|].
    apply Forall_app. split; [assumption | now constructor].
Qed.
End SortedUnique.

Lemma StronglySorted_rev {A} (R : A -> A -> Prop) (l : list A) :
  StronglySorted R l -> StronglySorted (fun x y => R y x) (rev l).
Proof.
  induction 1 as [|x t St IH Fx]; simpl; [constructor|].
  apply StronglySorted_snoc; [assumption|].
  apply Forall_forall. intros y Hy. rewrite Forall_forall in Fx.
  apply Fx. now apply in_rev.
Qed.

Lemma StronglySorted_impl_in {A} (R R' : A -> A -> Prop) (l : list A) :
  (forall x y, In x l -> In y l -> R x y -> R' x y) ->
  StronglySorted R l -> StronglySorted R' l.
Proof.
  intros H S. induction S as [|x t St IH Fx]; [constructor|].
  constructor.
  - apply IH. intros a b Ha Hb. apply H; now right.
  - rewrite Forall_forall in *. intros y Hy. apply H; [now left | now right | now apply Fx].
Qed.

Lemma ForallOrdPairs_members {A} (P : A -> A -> Prop) (l : list A) :
  ForallOrdPairs P l ->
  forall x y, In x l -> In y l -> x = y \/ P x y \/ P y x.
Proof.
  induction 1 as [|a t Fa Ft IH]; intros x y Hx Hy; [destruct Hx|].
  rewrite Forall_forall in Fa.
  destruct Hx as [<-|Hx], Hy as [<-|Hy]; auto.
Qed.

(** ** Sorting one way, then the other *)

Section AscDesc.
Variables asc desc : comparator.
Variable a : Store.
Hypothesis Hanti : forall x y, In x a -> In y a -> asc y x = - asc x y.
Hypothesis Hneg : forall x y, In x a -> In y a -> desc x y = - asc x y.
Hypothesis Hkeys : ForallOrdPairs (fun x y => asc x y <> 0) a.

Lemma equal_keys_same (x y : Student) :
  In x a -> In y a -> asc x y = 0 -> x = y.
Proof.
  intros Hx Hy E.
  destruct (ForallOrdPairs_members _ a Hkeys x y Hx Hy) as [|[N|N]]; auto.
  - contradiction.
  - rewrite (Hanti x y Hx Hy) in N. lia.
Qed.

Lemma qsort_asc_desc_rev (a1 a2 : Store) :
  qsort_post asc a a1 -> qsort_post desc a1 a2 -> a2 = rev a1.
Proof.
  intros [P1 S1] [P2 S2].
  assert (In1 : forall x, In x a1 -> In x a)
    by (intros x Hx; eapply Permutation_in; [apply Permutation_sym; exact P1 | exact Hx]).
  symmetry.
  apply (sorted_perm_unique (fun x y => desc x y <= 0)); auto.
  - intros x y Hx Hy Rxy Ryx. apply in_rev in Hx, Hy.
    apply equal_keys_same; auto.
    rewrite Hneg in Rxy, Ryx by auto. rewrite (Hanti x y) in Ryx by auto. lia.
  - eapply Permutation_trans; [apply Permutation_sym, Permutation_rev | exact P2].
  - apply StronglySorted_rev in S1.
    eapply StronglySorted_impl_in; [|exact S1]. cbv beta.
    intros x y Hx Hy H. apply in_rev in Hx, Hy.
    rewrite Hneg by auto. rewrite (Hanti x y) in H by auto. lia.
Qed.
End AscDesc.

(** ** The six comparison functions *)

Lemma cmpRoll_valid (x y : Student) :
  valid_key x -> valid_key y ->
  cmpRollAsc x y = roll x - roll y /\ cmpRollDesc x y = - cmpRollAsc x y.
Proof.
  intros [Hx _] [Hy _]. unfold cmpRollDesc, cmpRollAsc, INT_MAX in *.
  rewrite (wrap32_id (roll x - roll y)) by (unfold in_int, INT_MIN, INT_MAX; lia).
  split; [reflexivity|].
  apply wrap32_id. unfold in_int, INT_MIN, INT_MAX. lia.
Qed.

Lemma tolower_range (c : char) : 0 <= c <= 255 -> 0 <= tolower c <= 255.
Proof.
  intros H. unfold tolower.
  destruct ((ch "A"%char <=? c) && (c <=? ch "Z"%char)) eqn:E; [|lia].
  apply andb_prop in E. destruct E as [E1 E2].
  apply Z.leb_le in E1, E2. change (ch "A"%char) with 65 in E1.
  change (ch "Z"%char) with 90 in E2. lia.
Qed.

Lemma strcasecmp_antisym (a : list char) :
  forall b, strcasecmp b a = - strcasecmp a b.
Proof.
  induction a as [|c1 a IH]; intros [|c2 b]; simpl; try lia.
  rewrite IH.
  destruct (tolower c1 - tolower c2 =? 0) eqn:E1,
           (tolower c2 - tolower c1 =? 0) eqn:E2; lia.
Qed.

Lemma strcasecmp_range (a : list char) :
  forall b, Forall (fun c => 0 <= c <= 255) a -> Forall (fun c => 0 <= c <= 255) b ->
            -255 <= strcasecmp a b <= 255.
Proof.
  induction a as [|c1 a IH]; intros [|c2 b] Fa Fb; simpl; try lia.
  - inversion Fb; subst. pose proof (tolower_range c2). lia.
  - inversion Fa; subst. pose proof (tolower_range c1). lia.
  - inversion Fa; inversion Fb; subst.
    pose proof (tolower_range c1). pose proof (tolower_range c2).
    destruct (tolower c1 - tolower c2 =? 0); [now apply IH | lia].
Qed.

Lemma tolower_zero (c : char) : 1 <= c -> tolower c <> 0.
Proof.
  unfold tolower. intros H.
  destruct ((ch "A"%char <=? c) && (c <=? ch "Z"%char)); lia.
Qed.

Lemma strcasecmp_zero (a : list char) :
  Forall (fun c => 1 <= c) a ->
  forall b, Forall (fun c => 1 <= c) b ->
    (strcasecmp a b = 0 <-> map tolower a = map tolower b).
Proof.
  induction 1 as [|c a Hc _ IH]; intros b Fb.
  - destruct b as [|d b]; [split; reflexivity|].
    inversion Fb as [|? ? Hd _]; subst. cbn [strcasecmp map].
    pose proof (tolower_zero d Hd). split; [lia | discriminate].
  - destruct b as [|d b].
    + cbn [strcasecmp map]. pose proof (tolower_zero c Hc). split; [lia | discriminate].
    + inversion Fb as [|? ? Hd Fb']; subst. cbn [strcasecmp map].
      destruct (tolower c - tolower d =? 0) eqn:E.
      * apply Z.eqb_eq in E. rewrite (IH b Fb'). split.
        -- intros ->. f_equal. lia.
        -- intros H. now injection H.
      * apply Z.eqb_neq in E. split; [lia|]. intros H. injection H as H1 _. lia.
Qed.

Lemma lex_eq (a b : Z * Z * Z) : lex_compare a b = Eq -> a = b.
Proof.
  destruct a as [[a1 a2] a3], b as [[b1 b2] b3]. cbn [lex_compare].
  destruct (Z.compare_spec a1 b1); try discriminate.
  destruct (Z.compare_spec a2 b2); try discriminate.
  destruct (Z.compare_spec a3 b3); try discriminate.
  intros _. congruence.
Qed.

Lemma rank_value (x y : float) :
  f32_is_nan x = false -> f32_is_nan y = false -> f32_rank x = f32_rank y ->
  (f32_value x == f32_value y)%Q.
Proof.
  destruct x as [sx|sx| |sx mx ex], y as [sy|sy| |sy my ey];
    try discriminate; intros _ _; try reflexivity;
    try (destruct sx; discriminate); try (destruct sy; discriminate).
  destruct sx, sy; cbn [f32_rank]; intros E; inversion E; subst; try reflexivity.
  assert (ex = ey) by lia. subst. reflexivity.
Qed.

Lemma cmpAvgAsc_zero (x y : Student) :
  not_nan x -> not_nan y -> cmpAvgAsc x y = 0 ->
  (f32_value (average x) == f32_value (average y))%Q.
Proof.
  unfold not_nan, cmpAvgAsc, f32_lt, f32_gt, SFltb. intros Nx Ny.
  rewrite (SFcompare_rank _ _ Nx Ny), (SFcompare_rank _ _ Ny Nx).
  rewrite (lex_antisym (f32_rank (average x)) (f32_rank (average y))).
  destruct (lex_compare (f32_rank (average x)) (f32_rank (average y))) eqn:E;
    cbn; try (intros C; discriminate C).
  intros _. apply rank_value; auto. now apply lex_eq.
Qed.

Lemma ForallOrdPairs_impl_in {A} (P Q : A -> A -> Prop) (l : list A) :
  (forall x y, In x l -> In y l -> P x y -> Q x y) ->
  ForallOrdPairs P l -> ForallOrdPairs Q l.
Proof.
  intros H F. induction F as [|a t Fa Ft IH]; constructor.
  - rewrite Forall_forall in *. intros y Hy. apply H; [now left | now right | auto].
  - apply IH. intros x y Hx Hy. apply H; now right.
Qed.

Lemma cmpName_valid (x y : Student) :
  valid_key x -> valid_key y ->
  cmpNameAsc y x = - cmpNameAsc x y /\ cmpNameDesc x y = - cmpNameAsc x y.
Proof.
  intros [_ Hx] [_ Hy]. unfold cmpNameDesc, cmpNameAsc.
  split; [apply strcasecmp_antisym|].
  pose proof (strcasecmp_range (name x) (name y) Hx Hy).
  apply wrap32_id. unfold in_int, INT_MIN, INT_MAX. lia.
Qed.

Lemma f32_lt_numbers (x y : float) :
  f32_lt x y = true -> f32_is_nan x = false /\ f32_is_nan y = false.
Proof.
  unfold f32_lt, SFltb. destruct x, y; simpl; auto; discriminate.
Qed.

Lemma cmpAvg_any (x y : Student) :
  cmpAvgAsc y x = - cmpAvgAsc x y /\ cmpAvgDesc x y = - cmpAvgAsc x y.
Proof.
  unfold cmpAvgDesc, cmpAvgAsc.
  change (f32_gt (average x) (average y)) with (f32_lt (average y) (average x)).
  change (f32_gt (average y) (average x)) with (f32_lt (average x) (average y)).
  split.
  - destruct (f32_lt (average x) (average y)) eqn:A.
    + destruct (f32_lt_numbers _ _ A) as [Nx Ny].
      now rewrite (f32_lt_asym _ _ Nx Ny A).
    + destruct (f32_lt (average y) (average x)); reflexivity.
  - destruct (f32_lt (average x) (average y));
      [|destruct (f32_lt (average y) (average x))]; reflexivity.
Qed.

(** C7. On a store whose sort keys are pairwise distinct (the rolls for
    entry 1, the names compared without regard to letter case for entry
    3, the averages for entry 5), sorting with that ascending entry of the
    menu and then with the descending entry that follows it leaves the
    exact reverse of the first result, whatever sorting procedure [qsort]
    uses; and each descending function returns the negation of its
    ascending counterpart.  The keys are those of the data model: positive
    rolls that fit an [int], names that are C strings of [unsigned char]
    codes, averages that are numbers. *)
Theorem sort_then_descending_reverses (st st1 st2 : Store) (choice : Z) :
  Forall valid_key st ->
  Forall (fun s => ~ In 0 (name s)) st ->
  Forall not_nan st ->
  choice = 1 \/ choice = 3 \/ choice = 5 ->
  distinct_sort_keys choice st ->
  sortMenu st choice st1 ->
  sortMenu st1 (choice + 1) st2 ->
  st2 = rev st1
  /\ (forall x y, valid_key x -> valid_key y ->
        cmpRollDesc x y = - cmpRollAsc x y
        /\ cmpNameDesc x y = - cmpNameAsc x y
        /\ cmpAvgDesc x y = - cmpAvgAsc x y).
Proof.
  intros Hv H0 Hn Hc Hk S1 S2. split.
  - destruct st as [|s st0]; [simpl in S1; subst st1; simpl in S2; now subst st2|].
    set (st := s :: st0) in *.
    assert (P1 : Permutation st st1) by (now apply sortMenu_permutation in S1).
    cbn [sortMenu] in S1. unfold st in S1. fold st in S1.
    destruct S1 as (asc & E1 & Q1).
    destruct st1 as [|s1 st1'];
      [destruct Q1 as [P _]; apply Permutation_sym, Permutation_nil in P; discriminate|].
    cbn [sortMenu] in S2. destruct S2 as (desc & E2 & Q2).
    rewrite Forall_forall in Hv, H0, Hn.
    destruct Hc as [ -> | [ -> | -> ] ]; cbn in E1, E2;
      inversion E1; inversion E2; subst asc desc;
      eapply qsort_asc_desc_rev; try exact Q1; try exact Q2.
    + intros x y Hx Hy.
      destruct (cmpRoll_valid x y (Hv x Hx) (Hv y Hy)) as [A _].
      destruct (cmpRoll_valid y x (Hv y Hy) (Hv x Hx)) as [B _]. lia.
    + intros x y Hx Hy. now apply cmpRoll_valid; apply Hv.
    + eapply ForallOrdPairs_impl_in; [|exact Hk]. cbv beta.
      intros x y Hx Hy D C. apply D. change (roll x = roll y).
      destruct (cmpRoll_valid x y (Hv x Hx) (Hv y Hy)) as [A _]. lia.
    + intros x y Hx Hy. now apply cmpName_valid; apply Hv.
    + intros x y Hx Hy. now apply cmpName_valid; apply Hv.
    + eapply ForallOrdPairs_impl_in; [|exact Hk]. cbv beta.
      intros x y Hx Hy D C. apply D.
      change (map tolower (name x) = map tolower (name y)).
      assert (L : forall z, In z st -> Forall (fun c => 1 <= c) (name z)).
      { intros z Hz. destruct (Hv z Hz) as [_ F]. specialize (H0 z Hz).
        rewrite Forall_forall in *. intros c Hc'. specialize (F c Hc').
        assert (c <> 0) by (intros ->; contradiction). lia. }
      now apply (strcasecmp_zero (name x) (L x Hx) (name y) (L y Hy)).
    + intros x y Hx Hy. apply cmpAvg_any.
    + intros x y Hx Hy. apply cmpAvg_any.
    + eapply ForallOrdPairs_impl_in; [|exact Hk]. cbv beta.
      intros x y Hx Hy D C. apply D.
      change (f32_value (average x) == f32_value (average y))%Q.
      apply cmpAvgAsc_zero; auto.
  - intros x y Hx Hy. split; [|split].
    + now apply cmpRoll_valid.
    + now apply cmpName_valid.
    + apply cmpAvg_any.
Qed.

(** C5, the code at a well-formed file: the header and the line of one
    valid record.  The claim has the record in the store after the load;
    [loadAll] skips the line, as it skips every line of every file: the
    marks are cut up by a second [strtok] run on the copy [tmp], after
    which [strtok(NULL, ",")] goes on in [tmp], finds no comma there and
    cannot return both the average and the grade. *)
Theorem loadAll_skips_valid_line :
  saveAll alice_store
  = cstr "roll,name,subjectCount,marks,average,grade" ++ [10]
    ++ cstr "1,Alice,3,85;90;78,84.33,B" ++ [10]
  /\ loadAll [] (Some (saveAll alice_store)) = []
  /\ parseLine (cstr "1,Alice,3,85;90;78,84.33,B") [] = None
  /\ (forall st file, loadAll st (Some file) = match file with [] => st | _ => [] end).
Proof.
  split; [vm_compute; reflexivity|].
  split; [vm_compute; reflexivity|].
  split; [apply parseLine_fails|].
  intros st file. apply (loadAll_result st (Some file)).
Qed.

(** C2, the claim as stated fails: what [saveAll] writes for a store of one
    well-formed record is loaded back as the empty store; and the average
    of that record is written as 84.33, a text from which the conversion
    of the loader does not give the average back. *)
Lemma save_then_load_differs :
  loadAll [] (Some (saveAll alice_store)) <> alice_store
  /\ forall s, In s alice_store ->
       fmt_2f (average s) = cstr "84.33"
       /\ f32_of_double (atof (fmt_2f (average s))) <> average s.
Proof.
  split; [vm_compute; discriminate|].
  intros s Hs. vm_compute in Hs. destruct Hs as [<-|[]].
  split; [vm_compute; reflexivity | vm_compute; discriminate].
Qed.

(** ** Decimal numerals *)

Lemma uint_chars_digits (d : Decimal.uint) :
  Forall (fun c => isdigit c = true) (uint_chars d).
Proof. induction d; simpl; constructor; auto. Qed.

Lemma read_digits_all (ds : list char) :
  forall rest acc k,
    Forall (fun c => isdigit c = true) ds -> stops rest ->
    read_digits (ds ++ rest) acc k
    = (decimal_value ds acc, (k + length ds)%nat, rest).
Proof.
  induction ds as [|c t IH]; intros rest acc k F S; simpl.
  - rewrite Nat.add_0_r. destruct rest as [|c r]; [reflexivity|].
    simpl in S |- *. now rewrite S.
  - inversion F as [|? ? Hc Ht]; subst. rewrite Hc, IH by assumption.
    cbn [length]. now rewrite Nat.add_succ_r.
Qed.

Lemma read_digits_only (ds : list char) (acc : Z) (k : nat) :
  Forall (fun c => isdigit c = true) ds ->
  read_digits ds acc k = (decimal_value ds acc, (k + length ds)%nat, []).
Proof.
  intros F. rewrite <- (app_nil_r ds) at 1. now apply read_digits_all.
Qed.

Lemma decimal_value_acc (d : Decimal.uint) :
  forall acc, decimal_value (uint_chars d) (Zpos acc) = Zpos (Pos.of_uint_acc d acc).
Proof.
  induction d; intros acc; cbn [uint_chars decimal_value Pos.of_uint_acc];
    [reflexivity | ..]; rewrite <- IHd; f_equal; lia.
Qed.

Lemma decimal_value_uint (d : Decimal.uint) :
  decimal_value (uint_chars d) 0 = Z.of_N (Pos.of_uint d).
Proof.
  induction d; simpl; try reflexivity; try assumption;
    apply (decimal_value_acc d).
Qed.

Lemma decimal_value_pos (p : positive) :
  decimal_value (uint_chars (Pos.to_uint p)) 0 = Zpos p.
Proof. now rewrite decimal_value_uint, DecimalPos.Unsigned.of_to. Qed.

Lemma uint_chars_nonnil (p : positive) :
  exists c t, uint_chars (Pos.to_uint p) = c :: t /\ isdigit c = true.
Proof.
  pose proof (DecimalPos.Unsigned.to_uint_nonnil p) as N.
  pose proof (uint_chars_digits (Pos.to_uint p)) as F.
  destruct (Pos.to_uint p); [congruence | ..]; simpl in *;
    inversion F; subst; eauto.
Qed.

Lemma digit_not_special (c : char) :
  isdigit c = true ->
  isspace c = false /\ (c =? ch "-"%char) = false /\ (c =? ch "+"%char) = false
  /\ c <> ch ","%char /\ c <> ch ";"%char.
Proof.
  unfold isdigit, isspace. intros H. apply andb_prop in H. destruct H as [A B].
  apply Z.leb_le in A, B.
  change (ch "-"%char) with 45. change (ch "+"%char) with 43.
  change (ch ","%char) with 44. change (ch ";"%char) with 59.
  repeat split; lia.
Qed.

Lemma strtol_digits (c : char) (t : list char) :
  Forall (fun c => isdigit c = true) (c :: t) ->
  strtol (c :: t) = Z.max LONG_MIN (Z.min LONG_MAX (decimal_value (c :: t) 0))
  /\ strtol (ch "-"%char :: c :: t)
     = Z.max LONG_MIN (Z.min LONG_MAX (- decimal_value (c :: t) 0)).
Proof.
  intros F. pose proof F as F'. inversion F' as [|? ? Hc Ht]; subst.
  destruct (digit_not_special c Hc) as (S & M & P & _).
  unfold strtol. split.
  - cbn [skip_spaces]. rewrite S. cbn [read_sign]. rewrite M, P.
    now rewrite read_digits_only.
  - cbn [skip_spaces]. change (isspace (ch "-"%char)) with false. cbv iota.
    cbn [read_sign]. rewrite Z.eqb_refl.
    now rewrite read_digits_only.
Qed.

(** What [printf("%d")] writes for an [int], [atoi] reads back. *)
Lemma atoi_fmt_d (z : Z) : in_int z -> atoi (fmt_d z) = z.
Proof.
  unfold in_int, INT_MIN, INT_MAX. intros H.
  destruct z as [|p|p]; [reflexivity | |].
  - unfold fmt_d. cbn [Z.to_int].
    destruct (uint_chars_nonnil p) as (c & t & E & Hc).
    pose proof (uint_chars_digits (Pos.to_uint p)) as F.
    pose proof (decimal_value_pos p) as V. rewrite E in F, V |- *.
    unfold atoi. rewrite (proj1 (strtol_digits c t F)), V.
    unfold LONG_MIN, LONG_MAX. rewrite Z.min_r, Z.max_r by lia.
    apply wrap32_id. unfold in_int, INT_MIN, INT_MAX. lia.
  - unfold fmt_d. cbn [Z.to_int].
    destruct (uint_chars_nonnil p) as (c & t & E & Hc).
    pose proof (uint_chars_digits (Pos.to_uint p)) as F.
    pose proof (decimal_value_pos p) as V. rewrite E in F, V |- *.
    unfold atoi. rewrite (proj2 (strtol_digits c t F)), V.
    unfold LONG_MIN, LONG_MAX. rewrite Z.min_r, Z.max_r by lia.
    apply wrap32_id. unfold in_int, INT_MIN, INT_MAX. lia.
Qed.

(** A numeral is not empty and holds neither a comma nor a semicolon. *)
Lemma fmt_d_chars (z : Z) :
  fmt_d z <> [] /\ ~ In (ch ","%char) (fmt_d z) /\ ~ In (ch ";"%char) (fmt_d z).
Proof.
  assert (D : forall d, ~ In (ch ","%char) (uint_chars d) /\ ~ In (ch ";"%char) (uint_chars d)).
  { intros d. pose proof (uint_chars_digits d) as F. rewrite Forall_forall in F.
    split; intros C; apply F, digit_not_special in C; tauto. }
  unfold fmt_d. destruct z as [|p|p]; cbn [Z.to_int].
  - simpl. repeat split; try discriminate; intros [C|[]]; discriminate.
  - destruct (uint_chars_nonnil p) as (c & t & E & _).
    split; [rewrite E; discriminate | apply D].
  - split; [discriminate|].
    split; intros [C|C]; try discriminate; now apply (D (Pos.to_uint p)) in C.
Qed.

(** ** Fields *)

Lemma split_at_field (d : char) (f rest : list char) :
  ~ In d f -> split_at d (f ++ d :: rest) = (f, rest).
Proof.
  induction f as [|c t IH]; intros H; simpl.
  - now rewrite Z.eqb_refl.
  - destruct (c =? d) eqn:E; [exfalso; apply H; left; lia|].
    rewrite IH; [reflexivity|]. intros C. apply H. now right.
Qed.

Lemma strtok_at_field (d : char) (f rest : list char) :
  f <> [] -> ~ In d f -> strtok_at (f ++ d :: rest) d = (Some f, rest).
Proof.
  intros Hne H. unfold strtok_at.
  destruct f as [|c t]; [congruence|].
  assert (E : (c =? d) = false) by (apply Z.eqb_neq; intros ->; apply H; now left).
  change ((c :: t) ++ d :: rest) with (c :: (t ++ d :: rest)).
  cbn [skip_delims]. rewrite E.
  change (c :: (t ++ d :: rest)) with ((c :: t) ++ d :: rest).
  now rewrite split_at_field.
Qed.

Lemma strtok_at_last (d : char) (f : list char) :
  f <> [] -> ~ In d f -> strtok_at f d = (Some f, []).
Proof.
  intros Hne H. rewrite strtok_at_free by assumption.
  destruct f; [congruence | reflexivity].
Qed.

Lemma token_field (d : char) (f rest save : list char) :
  f <> [] -> ~ In d f ->
  token None d (f ++ d :: rest) = Some (f, rest)
  /\ token (Some (f ++ d :: rest)) d save = Some (f, rest).
Proof.
  intros Hne H. unfold token, bind, strtok.
  rewrite strtok_at_field by assumption. split; reflexivity.
Qed.

Lemma token_last (d : char) (f : list char) :
  f <> [] -> ~ In d f -> token None d f = Some (f, []).
Proof.
  intros Hne H. unfold token, bind, strtok.
  now rewrite strtok_at_last.
Qed.

(** ** The marks field *)

Lemma fmt_marks_loop (s : Student) (ms : list Z) :
  forall pre post out,
    marks s = pre ++ ms ++ post ->
    subjectCount s = Z.of_nat (length pre + length ms) ->
    fold_left (fun out j =>
                 out ++ fmt_d (nth j (marks s) 0)
                     ++ (if Z.of_nat j =? subjectCount s - 1 then [] else [ch ";"%char]))
              (seq (length pre) (length ms)) out
    = out ++ join_marks ms.
Proof.
  induction ms as [|m ms IH]; intros pre post out Em Ec.
  - simpl. now rewrite app_nil_r.
  - cbn [length seq fold_left join_marks].
    replace (nth (length pre) (marks s) 0) with m
      by (rewrite Em; symmetry; apply nth_app_mid).
    replace (S (length pre)) with (length (pre ++ [m]))
      by (rewrite length_app; simpl; lia).
    rewrite (IH (pre ++ [m]) post).
    + rewrite <- !app_assoc. f_equal. f_equal.
      destruct ms as [|m' ms'].
      * simpl in Ec. destruct (Z.of_nat (length pre) =? subjectCount s - 1) eqn:E; [reflexivity | lia].
      * cbn [length] in Ec.
        destruct (Z.of_nat (length pre) =? subjectCount s - 1) eqn:E; [lia | reflexivity].
    + rewrite Em, <- app_assoc. reflexivity.
    + rewrite Ec, length_app. cbn [length]. f_equal. lia.
Qed.

Lemma fmt_marks_join (s : Student) :
  valid_scores s -> fmt_marks s = join_marks (scores s).
Proof.
  intros (Hc & Hlen & _). unfold fmt_marks.
  assert (L : length (scores s) = Z.to_nat (subjectCount s))
    by (unfold scores; rewrite length_firstn; lia).
  rewrite <- L.
  apply (fmt_marks_loop s (scores s) [] (skipn (Z.to_nat (subjectCount s)) (marks s)) []).
  - simpl. unfold scores. now rewrite firstn_skipn.
  - simpl. rewrite L. lia.
Qed.

Lemma join_marks_tok (m : Z) (ms : list Z) :
  strtok_at (join_marks (m :: ms)) (ch ";"%char) = (Some (fmt_d m), join_marks ms).
Proof.
  destruct (fmt_d_chars m) as (Hne & _ & Hs).
  cbn [join_marks]. destruct ms as [|m' ms'].
  - rewrite app_nil_r. now apply strtok_at_last.
  - now apply strtok_at_field.
Qed.

Lemma marks_loop_step (k idx : nat) (t : list char) (a : list Z) (save : list char) :
  marks_loop (S k) idx (Some t) a save
  = marks_loop k (S idx) (fst (strtok_at save (ch ";"%char)))
               (set_nth idx (atoi t) a) (snd (strtok_at save (ch ";"%char))).
Proof.
  cbn [marks_loop]. unfold bind, strtok.
  now destruct (strtok_at save (ch ";"%char)).
Qed.

Lemma marks_loop_join (ms : list Z) :
  forall m idx a,
    in_int m -> Forall in_int ms ->
    marks_loop (S (length ms)) idx (Some (fmt_d m)) a (join_marks ms)
    = Some ((S idx + length ms)%nat, write_from idx (m :: ms) a, []).
Proof.
  induction ms as [|m' ms IH]; intros m idx a Hm Hms;
    rewrite marks_loop_step, atoi_fmt_d by assumption.
  - simpl. now rewrite Nat.add_0_r.
  - rewrite join_marks_tok. cbn [fst snd length]. inversion Hms; subst.
    rewrite IH by assumption. cbn [write_from].
    now rewrite Nat.add_succ_r.
Qed.

Lemma write_from_spec (ms : list Z) :
  forall pre rest,
    (length ms <= length rest)%nat ->
    write_from (length pre) ms (pre ++ rest) = pre ++ ms ++ skipn (length ms) rest.
Proof.
  induction ms as [|m ms IH]; intros pre rest H; [reflexivity|].
  destruct rest as [|x rest]; [simpl in H; lia|].
  cbn [write_from length skipn]. rewrite set_nth_app.
  replace (S (length pre)) with (length (pre ++ [m])) by (rewrite length_app; simpl; lia).
  replace (pre ++ m :: rest) with ((pre ++ [m]) ++ rest) by (rewrite <- app_assoc; reflexivity).
  rewrite IH by (simpl in H; lia). now rewrite <- app_assoc.
Qed.

Lemma join_marks_length (ms : list Z) :
  Forall (fun m => 0 <= m <= 100) ms ->
  (length (join_marks ms) <= 4 * length ms)%nat.
Proof.
  assert (D : forall m, 0 <= m <= 100 -> (length (fmt_d m) <= 3)%nat).
  { intros m Hm.
    assert (C : forallb (fun m => (length (fmt_d m) <=? 3)%nat) (Zrange 0 101) = true)
      by (vm_compute; reflexivity).
    rewrite forallb_forall in C. apply Nat.leb_le, C, Zrange_In. lia. }
  induction 1 as [|m ms Hm F IH]; [simpl; lia|].
  cbn [join_marks length]. rewrite length_app. specialize (D m Hm).
  destruct ms; simpl in *; lia.
Qed.

Lemma read_marks_back (s : Student) (a : list Z) :
  valid_scores s -> (Z.to_nat (subjectCount s) <= length a)%nat ->
  read_marks (fmt_marks s) (subjectCount s) a []
  = Some (Z.to_nat (subjectCount s),
          scores s ++ skipn (Z.to_nat (subjectCount s)) a, []).
Proof.
  intros Hv Ha. rewrite (fmt_marks_join s Hv).
  pose proof Hv as (Hc & Hlen & F). unfold MAX_SUBJECTS in Hc.
  assert (L : length (scores s) = Z.to_nat (subjectCount s))
    by (unfold scores; rewrite length_firstn; lia).
  pose proof (join_marks_length (scores s) F) as B.
  unfold read_marks, strncpy. rewrite firstn_all2 by lia.
  destruct (scores s) as [|m ms] eqn:E; [simpl in L; lia|].
  unfold bind, strtok. rewrite join_marks_tok.
  rewrite <- L. cbn [length].
  assert (Fi : Forall in_int (m :: ms)).
  { apply (Forall_impl _ (P := fun m => 0 <= m <= 100)); [|exact F].
    intros z Hz. unfold in_int, INT_MIN, INT_MAX. lia. }
  inversion Fi; subst.
  rewrite marks_loop_join by assumption.
  pose proof (write_from_spec (m :: ms) [] a) as W.
  cbn [length app] in W. rewrite W by (simpl in L; lia).
  reflexivity.
Qed.

(** ** The average field, checked on every sum and count *)

Lemma check_average_text_all :
  forallb (fun n => forallb (check_average_text n) (Zrange 0 (100 * n + 1)))
          (Zrange 1 11) = true.
Proof. vm_compute. reflexivity. Qed.

Lemma check_average_text_ok (s : Student) :
  valid_scores s ->
  let avg := average (recompute s) in
  let back := f32_of_double (atof (fmt_2f avg)) in
  fmt_2f avg <> [] /\ ~ In (ch ","%char) (fmt_2f avg)
  /\ fmt_2f back = fmt_2f avg
  /\ (Qabs (f32_value back - f32_value avg) <= (1 # 200) + (1 # 262144))%Q
  /\ grade (recompute s) <> ch ","%char.
Proof.
  intros Hv. destruct (sum_marks_exact s Hv) as (_ & _ & B).
  pose proof Hv as (Hc & _). unfold MAX_SUBJECTS in Hc.
  pose proof check_average_text_all as H.
  rewrite forallb_forall in H.
  specialize (H _ (Zrange_In 1 11 (subjectCount s) ltac:(lia))).
  rewrite forallb_forall in H.
  specialize (H _ (Zrange_In 0 (100 * subjectCount s + 1) (sum_marks s) ltac:(lia))).
  unfold check_average_text in H.
  repeat (apply andb_prop in H; destruct H as [H ?]).
  cbn [recompute average grade set_grade set_average].
  set (avg := f32_div (f32_of_int (sum_marks s)) (f32_of_int (subjectCount s))) in *.
  repeat split.
  - intros E. rewrite E in *. discriminate.
  - intros C. apply negb_true_iff in H.
    assert (X : existsb (Z.eqb (ch ","%char)) (fmt_2f avg) = true)
      by (apply existsb_exists; exists (ch ","%char); split; [exact C | apply Z.eqb_refl]).
    congruence.
  - destruct (list_eq_dec Z.eq_dec _ _); [assumption | discriminate].
  - now apply Qle_bool_iff.
  - intros E. rewrite E in *. discriminate.
Qed.

Lemma bind_some {A B} (m : Tok A) (f : A -> Tok B) (save : list char) (a : A)
      (save' : list char) :
  m save = Some (a, save') -> bind m f save = f a save'.
Proof. intros E. unfold bind. now rewrite E. Qed.

Lemma six_fields_split (f1 f2 f3 f4 f5 f6 : list char) :
  let c := ch ","%char in
  (forall f, In f [f1; f2; f3; f4; f5; f6] -> f <> [] /\ ~ In c f) ->
  six_fields (f1 ++ [c] ++ f2 ++ [c] ++ f3 ++ [c] ++ f4 ++ [c] ++ f5 ++ [c] ++ f6) []
  = Some ([f1; f2; f3; f4; f5; f6], []).
Proof.
  intros c H. unfold six_fields. fold c.
  assert (H1 := H f1 ltac:(simpl; tauto)). assert (H2 := H f2 ltac:(simpl; tauto)).
  assert (H3 := H f3 ltac:(simpl; tauto)). assert (H4 := H f4 ltac:(simpl; tauto)).
  assert (H5 := H f5 ltac:(simpl; tauto)). assert (H6 := H f6 ltac:(simpl; tauto)).
  repeat match goal with |- context [[c] ++ ?l] => change ([c] ++ l) with (c :: l) end.
  rewrite (bind_some _ _ _ _ _ (proj2 (token_field c f1 _ [] (proj1 H1) (proj2 H1)))).
  rewrite (bind_some _ _ _ _ _ (proj1 (token_field c f2 _ [] (proj1 H2) (proj2 H2)))).
  rewrite (bind_some _ _ _ _ _ (proj1 (token_field c f3 _ [] (proj1 H3) (proj2 H3)))).
  rewrite (bind_some _ _ _ _ _ (proj1 (token_field c f4 _ [] (proj1 H4) (proj2 H4)))).
  rewrite (bind_some _ _ _ _ _ (proj1 (token_field c f5 _ [] (proj1 H5) (proj2 H5)))).
  rewrite (bind_some _ _ _ _ _ (token_last c f6 (proj1 H6) (proj2 H6))).
  reflexivity.
Qed.

(** C2 (as amended). For a store of well-formed records, [saveAll] writes the
    header and then one line per record, in store order; the line of a
    record splits at its commas into six fields, which the conversions of
    the loader ([atoi], [strncpy], the marks block, [atof], the first
    character) turn back into the roll, the name, the subject count, the
    scores and the grade of the record, and into an average that is
    within 0.005 + 2^-18 of the record's average and is written with the
    same two decimals; that it is the same float is not part of the
    statement. *)
Theorem saved_fields_read_back (st : Store) :
  Forall well_formed st ->
  saveAll st = header_line ++ concat (map (fun s => fmt_record s ++ [10]) st)
  /\ forall s, In s st ->
       six_fields (fmt_record s) []
       = Some ([fmt_d (roll s); name s; fmt_d (subjectCount s);
                join_marks (scores s); fmt_2f (average s); [grade s]], [])
       /\ atoi (fmt_d (roll s)) = roll s
       /\ strncpy (MAX_NAME - 1) (name s) = name s
       /\ atoi (fmt_d (subjectCount s)) = subjectCount s
       /\ (exists a,
             read_marks (join_marks (scores s)) (subjectCount s) (marks zeroStudent) []
             = Some (Z.to_nat (subjectCount s), a, [])
             /\ firstn (Z.to_nat (subjectCount s)) a = scores s)
       /\ (let back := f32_of_double (atof (fmt_2f (average s))) in
           fmt_2f back = fmt_2f (average s)
           /\ (Qabs (f32_value back - f32_value (average s))
               <= (1 # 200) + (1 # 262144))%Q)
       /\ hd 0 [grade s] = grade s.
Proof.
  intros F. split; [reflexivity|].
  intros s Hs. rewrite Forall_forall in F.
  destruct (F s Hs) as (Hr & Hne & Hnc & Hnl & Hv & Ea & Eg).
  destruct (check_average_text_ok s Hv) as (A1 & A2 & A3 & A4 & A5).
  rewrite <- Ea in A1, A2, A3, A4. rewrite <- Eg in A5.
  pose proof Hv as (Hc & Hlen & Hf). unfold MAX_SUBJECTS in Hc.
  assert (L : length (scores s) = Z.to_nat (subjectCount s))
    by (unfold scores; rewrite length_firstn; lia).
  split; [|split; [|split; [|split; [|split; [|split]]]]].
  - unfold fmt_record. rewrite (fmt_marks_join s Hv).
    apply six_fields_split. intros f Hf6.
    destruct (fmt_d_chars (roll s)) as (R1 & R2 & _).
    destruct (fmt_d_chars (subjectCount s)) as (C1 & C2 & _).
    simpl in Hf6.
    destruct Hf6 as [<-|[<-|[<-|[<-|[<-|[<-|[]]]]]]]; auto.
    + rewrite <- (fmt_marks_join s Hv). split.
      * rewrite (fmt_marks_join s Hv). destruct (scores s) as [|m ms]; [simpl in L; lia|].
        cbn [join_marks]. destruct (fmt_d_chars m) as (M1 & _).
        destruct (fmt_d m); [congruence | discriminate].
      * rewrite (fmt_marks_join s Hv). clear - Hf.
        induction (scores s) as [|m ms IH]; [tauto|].
        cbn [join_marks]. destruct (fmt_d_chars m) as (_ & M2 & _).
        intros C. apply in_app_or in C. destruct C as [C|C]; [tauto|].
        destruct ms as [|m' ms']; [destruct C|].
        destruct C as [C|C]; [discriminate|]. apply IH; auto.
        now inversion Hf.
    + split; [discriminate|]. intros [C|[]]. congruence.
  - now apply atoi_fmt_d.
  - unfold strncpy, MAX_NAME in *. apply firstn_all2. lia.
  - apply atoi_fmt_d. unfold in_int, INT_MIN, INT_MAX. lia.
  - exists (scores s ++ skipn (Z.to_nat (subjectCount s)) (marks zeroStudent)).
    split.
    + rewrite <- (fmt_marks_join s Hv). apply read_marks_back; [exact Hv|].
      simpl. lia.
    + rewrite <- L. rewrite firstn_app, firstn_all, Nat.sub_diag. simpl.
      apply app_nil_r.
  - split; assumption.
  - reflexivity.
Qed.

(** ** The theorems at concrete stores *)

Ltac evaluate st := let v := eval vm_compute in st in change st with v.

Lemma alice_store_eq : alice_store = [recompute alice_entry].
Proof. vm_compute. reflexivity. Qed.

Lemma alice_store_well_formed : Forall well_formed alice_store.
Proof.
  rewrite alice_store_eq. constructor; [|constructor].
  unfold well_formed, in_int, INT_MIN, INT_MAX, MAX_NAME.
  split; [simpl; lia|]. split; [discriminate|].
  split; [intros C; repeat (destruct C as [C|C]; [discriminate|]); exact C|].
  split; [simpl; lia|].
  split; [|split; reflexivity].
  exact alice_entry_valid.
Qed.

Lemma saved_fields_read_back_witness :
  Forall well_formed alice_store
  /\ forall s, In s alice_store ->
       six_fields (fmt_record s) []
       = Some ([fmt_d (roll s); name s; fmt_d (subjectCount s);
                join_marks (scores s); fmt_2f (average s); [grade s]], []).
Proof.
  split; [exact alice_store_well_formed|].
  intros s Hs.
  exact (proj1 (proj2 (saved_fields_read_back alice_store alice_store_well_formed) s Hs)).
Defined.

Lemma addStudent_assigns_next_roll_witness :
  exists s,
    addStudent alice_store (cstr "Bob") 3 [40; 45; 50] = (alice_store ++ [s], MsgAdded s)
    /\ roll s = 1 + max_roll (rolls alice_store)
    /\ ~ In (roll s) (rolls alice_store).
Proof.
  apply (addStudent_assigns_next_roll alice_store (cstr "Bob") 3 [40; 45; 50]).
  - repeat constructor.
  - reflexivity.
  - reflexivity.
  - discriminate.
Defined.

Lemma three_store_numbers : Forall not_nan three_store.
Proof. repeat constructor. Qed.

Lemma three_store_derived : Forall average_derived three_store.
Proof.
  repeat constructor; try (vm_compute; intros C; discriminate C).
Qed.

Lemma showStats_extremes_witness :
  exists r t l,
    showStats three_store = Some r
    /\ total r = studentCount three_store
    /\ classAvg r = f32_div (float_sum (map average three_store))
                            (f32_of_int (studentCount three_store))
    /\ (Qabs (f32_value (classAvg r)
              - qmean (map (fun s => f32_value (average s)) three_store))
        <= (1 # 256) + (1 # 262144))%Q
    /\ (t < length three_store)%nat /\ topper r = nth t three_store zeroStudent
    /\ (forall j, (j < length three_store)%nat ->
                  f32_ge (avg_at three_store t) (avg_at three_store j) = true)
    /\ (forall j, (j < t)%nat ->
                  f32_lt (avg_at three_store j) (avg_at three_store t) = true)
    /\ (l < length three_store)%nat /\ lowest r = nth l three_store zeroStudent
    /\ (forall j, (j < length three_store)%nat ->
                  f32_ge (avg_at three_store j) (avg_at three_store l) = true)
    /\ (forall j, (j < l)%nat ->
                  f32_lt (avg_at three_store l) (avg_at three_store j) = true).
Proof.
  destruct (showStats_extremes three_store) as (r & t & l & R & N & A & B & E);
    [discriminate | exact three_store_numbers |].
  exists r, t, l.
  split; [exact R|]. split; [exact N|]. split; [exact A|]. split; [|exact E].
  apply B; [vm_compute; intros C; discriminate C | exact three_store_derived].
Defined.

Lemma deleteStudent_not_found_witness :
  fst (deleteStudent alice_store 7 (ch "y"%char)) = alice_store
  /\ length (fst (deleteStudent alice_store 7 (ch "y"%char))) = length alice_store
  /\ snd (deleteStudent alice_store 7 (ch "y"%char)) = MsgNoStudent 7.
Proof.
  apply (deleteStudent_not_found alice_store 7 (ch "y"%char)).
  simpl. intros [C|[]]. discriminate.
Defined.

Lemma alice_bob_valid_keys : Forall valid_key alice_bob_store.
Proof.
  evaluate alice_bob_store.
  unfold valid_key, INT_MAX. repeat constructor; simpl; lia.
Qed.

Lemma three_store_keys :
  Forall valid_key three_store
  /\ Forall (fun s => ~ In 0 (name s)) three_store
  /\ distinct_sort_keys 5 three_store.
Proof.
  split; [|split].
  - evaluate three_store. unfold valid_key, INT_MAX. repeat constructor; simpl; lia.
  - repeat constructor; intros C; vm_compute in C;
      repeat (destruct C as [C|C]; [discriminate C|]); exact C.
  - repeat constructor; intros C; vm_compute in C; discriminate C.
Qed.

Lemma three_store_by_average :
  sortMenu three_store 5
           [nth 2 three_store zeroStudent; nth 1 three_store zeroStudent;
            nth 0 three_store zeroStudent]
  /\ sortMenu [nth 2 three_store zeroStudent; nth 1 three_store zeroStudent;
               nth 0 three_store zeroStudent] (5 + 1) three_store.
Proof.
  split.
  - change [nth 2 three_store zeroStudent; nth 1 three_store zeroStudent;
            nth 0 three_store zeroStudent] with (rev three_store).
    assert (S : StronglySorted (fun x y => cmpAvgAsc x y <= 0) (rev three_store))
      by (evaluate (rev three_store); repeat constructor; vm_compute; discriminate).
    pose proof (Permutation_rev three_store) as P. revert S P.
    generalize (rev three_store). evaluate three_store. intros l S P.
    exists cmpAvgAsc. split; [reflexivity|]. split; assumption.
  - exists cmpAvgDesc. split; [reflexivity|]. split.
    + change [nth 2 three_store zeroStudent; nth 1 three_store zeroStudent;
              nth 0 three_store zeroStudent] with (rev three_store).
      apply Permutation_sym, Permutation_rev.
    + evaluate three_store. repeat constructor; vm_compute; discriminate.
Qed.

Lemma sort_then_descending_reverses_witness :
  three_store = rev [nth 2 three_store zeroStudent; nth 1 three_store zeroStudent;
                     nth 0 three_store zeroStudent]
  /\ (forall x y, valid_key x -> valid_key y ->
        cmpRollDesc x y = - cmpRollAsc x y
        /\ cmpNameDesc x y = - cmpNameAsc x y
        /\ cmpAvgDesc x y = - cmpAvgAsc x y).
Proof.
  apply (sort_then_descending_reverses three_store
           [nth 2 three_store zeroStudent; nth 1 three_store zeroStudent;
            nth 0 three_store zeroStudent] three_store 5).
  - exact (proj1 three_store_keys).
  - exact (proj1 (proj2 three_store_keys)).
  - exact three_store_numbers.
  - right. right. reflexivity.
  - exact (proj2 (proj2 three_store_keys)).
  - exact (proj1 three_store_by_average).
  - exact (proj2 three_store_by_average).
Defined.

Lemma added_roll_exceeds_live_rolls_witness :
  exists s,
    addStudent alice_bob_store (cstr "Carol") 1 [20] = (alice_bob_store ++ [s], MsgAdded s)
    /\ (forall x, In x alice_bob_store -> roll x < roll s)
    /\ roll s <> 1.
Proof.
  apply (added_roll_exceeds_live_rolls alice_bob_store (cstr "Carol") 1 [20] 1).
  - reflexivity.
  - reflexivity.
  - discriminate.
  - exists (nth 1 alice_bob_store zeroStudent). split; [right; left; reflexivity|].
    vm_compute. discriminate.
Defined.

(** C8, the claim as stated fails: the only record, of roll 1, is deleted,
    and the next record added is given roll 1 again. *)
Lemma roll_reused_after_delete :
  rolls alice_store = [1]
  /\ deleteStudent alice_store 1 (ch "y"%char) = ([], MsgDeleted)
  /\ exists s, addStudent [] (cstr "Bob") 3 [40; 45; 50] = ([s], MsgAdded s)
               /\ roll s = 1 /\ name s = cstr "Bob".
Proof.
  split; [reflexivity|]. split; [reflexivity|].
  eexists. split; [reflexivity|]. split; reflexivity.
Qed.

Lemma alice_entered : entered_ok 3 [85; 90; 78].
Proof.
  unfold entered_ok, MAX_SUBJECTS. split; [lia|]. split; [reflexivity|].
  repeat constructor; lia.
Qed.

Lemma bob_carol_entered : entered_ok 3 [40; 45; 50] /\ entered_ok 1 [20].
Proof.
  unfold entered_ok, MAX_SUBJECTS.
  split; (split; [lia|]; split; [reflexivity|]; repeat constructor; lia).
Qed.

Lemma three_store_reachable : reachable three_store.
Proof.
  apply (reach_add alice_bob_store (cstr "Carol") 1 [20]);
    [|exact (proj2 bob_carol_entered) | reflexivity].
  apply (reach_add alice_store (cstr "Bob") 3 [40; 45; 50]);
    [|exact (proj1 bob_carol_entered) | reflexivity].
  apply (reach_add [] (cstr "Alice") 3 [85; 90; 78] reach_init alice_entered).
  reflexivity.
Qed.

Lemma reachable_rolls_distinct_witness : NoDup (rolls three_store).
Proof.
  apply (reachable_rolls_distinct three_store). exact three_store_reachable.
Defined.

Lemma updateStudent_recomputes_witness :
  exists s',
    updateStudent [alice_entry] 1 1 (cstr "Alicia") 0 [] = ([s'], MsgUpdated)
    /\ average alice_entry = S754_zero false
    /\ average s' = S754_finite false 11053739 (-17)
    /\ grade s' = ch "B"%char
    /\ grade s' = grade_of_mean (mean (scores s')).
Proof.
  destruct (updateStudent_recomputes [alice_entry] 1 1 (cstr "Alicia") 0 [])
    as (s' & E & _ & _ & _ & _ & _ & _ & _ & _ & _ & _ & G).
  - left. reflexivity.
  - left. split; [reflexivity|]. split; [discriminate | exact alice_entry_valid].
  - exists s'. split; [exact E|].
    pose proof E as E2. vm_compute in E2. inversion E2 as [Es].
    split; [reflexivity|]. split; [reflexivity|].
    split; [reflexivity | rewrite Es; exact G].
Defined.

(** ** Searching by name *)

Lemma match_length_full (needle : list char) :
  forall p,
    match_length p needle = length needle
    <-> exists mid post, p = mid ++ post /\ map tolower mid = map tolower needle.
Proof.
  induction needle as [|a n IH]; intros p.
  - split; [intros _; exists [], p; split; reflexivity|].
    intros _. destruct p; reflexivity.
  - destruct p as [|c p'].
    + split; [discriminate|]. intros (mid & post & E & M).
      destruct mid; [discriminate M | discriminate E].
    + cbn [match_length length]. destruct (tolower c =? tolower a) eqn:T.
      * apply Z.eqb_eq in T. split.
        -- intros H. injection H as H. apply IH in H.
           destruct H as (mid & post & -> & M).
           exists (c :: mid), post. split; [reflexivity|].
           cbn [map]. now rewrite T, M.
        -- intros (mid & post & E & M). f_equal. apply IH.
           destruct mid as [|c' mid']; [discriminate M|].
           cbn [map] in M. injection M as M1 M2. injection E as E1 E2.
           exists mid', post. split; assumption.
      * apply Z.eqb_neq in T. split; [discriminate|].
        intros (mid & post & E & M).
        destruct mid as [|c' mid']; [discriminate M|].
        cbn [map] in M. injection M as M1 M2. injection E as E1 E2.
        subst c'. contradiction.
Qed.

Lemma contains_from_spec (needle : list char) :
  needle <> [] ->
  forall p,
    (contains_from p needle = 0 \/ contains_from p needle = 1)
    /\ (contains_from p needle = 1
        <-> exists pre mid post,
              p = pre ++ mid ++ post /\ map tolower mid = map tolower needle).
Proof.
  intros Hne. induction p as [|c p' [IH01 IH]].
  - split; [now left|]. split; [discriminate|].
    intros (pre & mid & post & E & M).
    destruct pre; [|discriminate E].
    destruct mid; [|discriminate E].
    destruct needle; [congruence | discriminate M].
  - cbn [contains_from].
    destruct (Nat.eqb (match_length (c :: p') needle) (length needle)) eqn:F.
    + apply Nat.eqb_eq, match_length_full in F.
      destruct F as (mid & post & E & M).
      split; [now right|]. split; [|reflexivity].
      intros _. exists [], mid, post. split; assumption.
    + apply Nat.eqb_neq in F. split; [exact IH01|].
      rewrite IH. split.
      * intros (pre & mid & post & -> & M).
        exists (c :: pre), mid, post. split; [reflexivity | assumption].
      * intros (pre & mid & post & E & M).
        destruct pre as [|c' pre'].
        -- exfalso. apply F. apply match_length_full.
           exists mid, post. split; assumption.
        -- inversion E; subst. exists pre', mid, post. split; [reflexivity | assumption].
Qed.

Lemma containsIgnoreCase_bit (haystack needle : list char) :
  containsIgnoreCase haystack needle = 0 \/ containsIgnoreCase haystack needle = 1.
Proof.
  destruct needle as [|a n]; [now right|].
  apply (contains_from_spec (a :: n)). discriminate.
Qed.

(** [containsIgnoreCase] answers 1 exactly when some stretch of the
    haystack equals the needle once both are put in lower case, and 0
    otherwise; the empty needle is found in every haystack. *)
Theorem containsIgnoreCase_substring (haystack needle : list char) :
  (containsIgnoreCase haystack needle = 0 \/ containsIgnoreCase haystack needle = 1)
  /\ (containsIgnoreCase haystack needle = 1
      <-> exists pre mid post,
            haystack = pre ++ mid ++ post /\ map tolower mid = map tolower needle).
Proof.
  destruct needle as [|a n].
  - split; [now right|]. split; [|reflexivity].
    intros _. exists [], [], haystack. split; reflexivity.
  - apply (contains_from_spec (a :: n)). discriminate.
Qed.

Lemma rows_fold (st : Store) :
  forall out,
    fold_left (fun out s => out ++ printStudentRow s) st out
    = out ++ concat (map printStudentRow st).
Proof.
  induction st as [|s st IH]; intros out; cbn [fold_left map concat].
  - now rewrite app_nil_r.
  - rewrite IH. now rewrite <- app_assoc.
Qed.

Lemma search_fold (q : list char) (st : Store) :
  forall out hits,
    fold_left (search_step q) st (out, hits)
    = (out ++ concat (map printStudentRow (name_matches q st)),
       hits + Z.of_nat (length (name_matches q st))).
Proof.
  induction st as [|s st IH]; intros out hits; cbn [fold_left name_matches filter].
  - cbn [map concat length]. now rewrite app_nil_r, Z.add_0_r.
  - fold (name_matches q st). unfold search_step at 2. cbn [fst snd].
    destruct (containsIgnoreCase_bit (name s) q) as [E|E]; rewrite E.
    + change (0 =? 0) with true. change (0 =? 1) with false. cbv iota. apply IH.
    + change (1 =? 0) with false. change (1 =? 1) with true. cbv iota.
      rewrite IH. cbn [map concat length].
      rewrite <- app_assoc, Nat2Z.inj_succ. f_equal. lia.
Qed.

(** On a non-empty array and for a non-empty query, [searchByName] prints
    its prompt, the table header and the rows of exactly the records
    whose name contains the query (letter case apart), in array order;
    when there is none it says so, quoting the query. *)
Theorem searchByName_lists_matches (st : Store) (q : list char) :
  st <> [] -> q <> [] ->
  searchByName st q
  = cstr "Enter name (or part of it): " ++ printTableHeader
    ++ concat (map printStudentRow (name_matches q st))
    ++ match name_matches q st with
       | [] => cstr "No matches for " ++ [34] ++ q ++ [34] ++ cstr "." ++ endl
       | _ => []
       end.
Proof.
  intros Hs Hq. unfold searchByName.
  destruct st as [|s0 st0]; [congruence|]. destruct q as [|c q0]; [congruence|].
  set (st := s0 :: st0). set (q := c :: q0).
  rewrite search_fold. f_equal.
  destruct (name_matches q st) as [|h t].
  - cbn [length map concat]. cbn [Z.of_nat Z.add Z.eqb].
    now rewrite app_nil_r.
  - destruct (0 + Z.of_nat (length (h :: t)) =? 0) eqn:E.
    + apply Z.eqb_eq in E. cbn [length] in E. lia.
    + now rewrite app_nil_r.
Qed.

(** ** Searching by roll *)

Lemma fmt_marks_detail_loop (s : Student) (ms : list Z) :
  forall pre post out,
    marks s = pre ++ ms ++ post ->
    subjectCount s = Z.of_nat (length pre + length ms) ->
    fold_left (fun out i =>
                 out ++ fmt_d (nth i (marks s) 0)
                     ++ (if Z.of_nat i =? subjectCount s - 1 then [] else cstr ", "))
              (seq (length pre) (length ms)) out
    = out ++ join_detail ms.
Proof.
  induction ms as [|m ms IH]; intros pre post out Em Ec.
  - simpl. now rewrite app_nil_r.
  - cbn [length seq fold_left join_detail].
    replace (nth (length pre) (marks s) 0) with m
      by (rewrite Em; symmetry; apply nth_app_mid).
    replace (S (length pre)) with (length (pre ++ [m]))
      by (rewrite length_app; simpl; lia).
    rewrite (IH (pre ++ [m]) post).
    + rewrite <- !app_assoc. f_equal. f_equal.
      destruct ms as [|m' ms'].
      * simpl in Ec. destruct (Z.of_nat (length pre) =? subjectCount s - 1) eqn:E;
          [reflexivity | lia].
      * cbn [length] in Ec.
        destruct (Z.of_nat (length pre) =? subjectCount s - 1) eqn:E; [lia | reflexivity].
    + rewrite Em, <- app_assoc. reflexivity.
    + rewrite Ec, length_app. cbn [length]. f_equal. lia.
Qed.

Lemma fmt_marks_detail_join (s : Student) :
  valid_scores s -> fmt_marks_detail s = join_detail (scores s).
Proof.
  intros (Hc & Hlen & _). unfold fmt_marks_detail.
  assert (L : length (scores s) = Z.to_nat (subjectCount s))
    by (unfold scores; rewrite length_firstn; lia).
  rewrite <- L.
  apply (fmt_marks_detail_loop s (scores s) []
           (skipn (Z.to_nat (subjectCount s)) (marks s)) []).
  - simpl. unfold scores. now rewrite firstn_skipn.
  - simpl. rewrite L. lia.
Qed.

Lemma searchByRoll_present (pre post : Store) (x : Student) :
  ~ In (roll x) (rolls pre) ->
  searchByRoll (pre ++ x :: post) (roll x)
  = printTableHeader ++ printStudentRow x
    ++ cstr "Marks: " ++ fmt_marks_detail x ++ endl.
Proof.
  intros Hn. unfold searchByRoll.
  assert (Hi2 : forall i, findIndexByRoll_from i (pre ++ x :: post) (roll x)
                          = i + Z.of_nat (length pre)).
  { clear - Hn. induction pre as [|p pre IH]; intros i.
    - cbn [app findIndexByRoll_from length]. rewrite Z.eqb_refl. simpl. lia.
    - cbn [app findIndexByRoll_from].
      destruct (roll p =? roll x) eqn:T.
      + exfalso. apply Hn. left. now apply Z.eqb_eq.
      + rewrite IH by (intros C; apply Hn; now right).
        cbn [length]. lia. }
  unfold findIndexByRoll. rewrite Hi2, Z.add_0_l.
  destruct (pre ++ x :: post) eqn:Es; [destruct pre; discriminate Es|].
  rewrite <- Es.
  destruct (Z.of_nat (length pre) <? 0) eqn:T; [apply Z.ltb_lt in T; lia|].
  rewrite Nat2Z.id, nth_middle. reflexivity.
Qed.

(** [searchByRoll] on a non-empty array: for a roll no record holds it
    says that there is no such student; otherwise it prints the table
    header, the row of the first record with that roll and the scores of
    that record, separated by commas. *)
Theorem searchByRoll_shows_record (st : Store) (r : Z) :
  st <> [] ->
  (~ In r (rolls st) ->
   searchByRoll st r = cstr "No student with roll " ++ fmt_d r ++ cstr "." ++ endl)
  /\ (In r (rolls st) ->
      exists pre x post,
        st = pre ++ x :: post /\ roll x = r /\ ~ In r (rolls pre)
        /\ searchByRoll st r
           = printTableHeader ++ printStudentRow x
             ++ cstr "Marks: " ++ fmt_marks_detail x ++ endl
        /\ (valid_scores x -> fmt_marks_detail x = join_detail (scores x))).
Proof.
  intros Hne. split.
  - intros Hn. unfold searchByRoll. destruct st as [|s0 st0]; [congruence|].
    unfold findIndexByRoll. rewrite findIndex_absent by assumption. reflexivity.
  - intros Hin.
    destruct (findIndex_present _ _ 0 Hin) as (pre & x & post & E & Hr & Hn & _).
    exists pre, x, post. subst r. repeat split; try assumption.
    + rewrite E. now apply searchByRoll_present.
    + apply fmt_marks_detail_join.
Qed.

(** ** What the actions leave in the array *)

Lemma sanitizeName_chars (nm : list char) :
  length (sanitizeName nm) = length nm /\ ~ In (ch ","%char) (sanitizeName nm).
Proof.
  unfold sanitizeName. split; [apply length_map|].
  rewrite in_map_iff. intros (c & E & _).
  destruct (c =? ch ","%char) eqn:T; [discriminate E|].
  apply Z.eqb_neq in T. congruence.
Qed.

Lemma stored_name (buf : list char) :
  buf <> [] ->
  let nm := strncpy (MAX_NAME - 1) (sanitizeName buf) in
  nm <> [] /\ ~ In (ch ","%char) nm
  /\ length nm = Nat.min 99 (length buf).
Proof.
  intros Hb nm. destruct (sanitizeName_chars buf) as [L C].
  unfold nm, strncpy. change (Z.to_nat (MAX_NAME - 1)) with 99%nat.
  split; [|split].
  - destruct buf as [|b buf]; [congruence|]. discriminate.
  - intros H. apply C. revert H. generalize (sanitizeName buf). intros l.
    rewrite <- (firstn_skipn 99 l) at 2. intros H. apply in_or_app. now left.
  - rewrite length_firstn, L. reflexivity.
Qed.

Lemma added_record (st : Store) (buf : list char) (n : Z) (ms : list Z) :
  studentCount st < MAX_STUDENTS -> buf <> [] -> entered_ok n ms ->
  exists s,
    addStudent st buf n ms = (st ++ [s], MsgAdded s)
    /\ roll s = wrap32 (findMaxRoll st + 1)
    /\ name s = strncpy (MAX_NAME - 1) (sanitizeName buf)
    /\ valid_scores s /\ length (marks s) = Z.to_nat MAX_SUBJECTS
    /\ subjectCount s = n /\ scores s = ms
    /\ average s = average (recompute s) /\ grade s = grade (recompute s)
    /\ average s = float_mean ms
    /\ grade s = calculateGrade (average s)
    /\ grade s = grade_of_mean (mean ms).
Proof.
  intros Hc Hb Hok. unfold addStudent.
  destruct (studentCount st >=? MAX_STUDENTS) eqn:E; [lia|].
  destruct buf as [|b buf]; [congruence|].
  set (s0 := set_name (set_roll zeroStudent (wrap32 (findMaxRoll st + 1)))
                      (strncpy (MAX_NAME - 1) (sanitizeName (b :: buf)))).
  destruct (entered_scores_valid s0 n ms Hok eq_refl) as [Hv Es].
  cbv zeta in Hv, Es.
  set (s1 := set_marks (set_subjectCount s0 n) (write_marks n ms (marks s0))) in *.
  destruct (recompute_correct s1 Hv) as (FM & _ & _ & _ & _ & G & GM).
  cbv zeta in FM, G, GM. rewrite Es in FM, GM.
  exists (recompute s1). split; [reflexivity|].
  split; [reflexivity|]. split; [reflexivity|].
  split; [exact Hv|].
  split.
  { change (length (write_marks n ms (marks s0)) = Z.to_nat MAX_SUBJECTS).
    destruct Hok as (Hn & Hl & _). unfold MAX_SUBJECTS in *.
    assert (Lm : length (marks s0) = 10%nat) by reflexivity.
    rewrite write_marks_spec by (try assumption; lia).
    rewrite length_app, length_skipn, Lm. change (Z.to_nat 10) with 10%nat. lia. }
  split; [reflexivity|]. split; [exact Es|].
  split; [reflexivity|]. split; [reflexivity|].
  split; [exact FM|]. split; assumption.
Qed.

(** An add that is let through (fewer than MAX_STUDENTS records, a name
    line that is not empty, scores as the input helper returns them)
    appends one record and leaves the earlier ones where they are.  The
    new record holds the first 99 characters of the line with every comma
    turned into a space, the scores entered, and the average and grade
    derived from them. *)
Theorem addStudent_appends_record (st : Store) (buf : list char) (n : Z) (ms : list Z) :
  studentCount st < MAX_STUDENTS -> buf <> [] -> entered_ok n ms ->
  exists s,
    addStudent st buf n ms = (st ++ [s], MsgAdded s)
    /\ studentCount (st ++ [s]) = studentCount st + 1
    /\ (forall i, (i < length st)%nat ->
                  nth i (st ++ [s]) zeroStudent = nth i st zeroStudent)
    /\ name s = firstn 99 (sanitizeName buf)
    /\ name s <> [] /\ ~ In (ch ","%char) (name s)
    /\ length (name s) = Nat.min 99 (length buf)
    /\ subjectCount s = n /\ scores s = ms
    /\ average s = float_mean ms
    /\ grade s = calculateGrade (average s)
    /\ grade s = grade_of_mean (mean ms).
Proof.
  intros Hc Hb Hok.
  destruct (added_record st buf n ms Hc Hb Hok)
    as (s & E & _ & En & _ & _ & Ec & Es & _ & _ & FM & G & GM).
  destruct (stored_name buf Hb) as (N1 & N2 & N3). cbv zeta in N1, N2, N3.
  rewrite <- En in N1, N2, N3.
  exists s. split; [exact E|].
  split; [unfold studentCount; rewrite length_app; simpl; lia|].
  split; [intros i Hi; now apply app_nth1|].
  split; [exact En|].
  repeat split; assumption.
Qed.

(** Whatever is entered, each of the three editing actions either reports
    success or leaves the array as it was: an add that is refused, an
    update or a deletion of a roll that is not there, an update with an
    empty name or cancelled, a deletion not confirmed.  A deletion that
    succeeds takes exactly one record away. *)
Theorem actions_change_only_on_success (st : Store) (r choice c : Z)
        (buf : list char) (n : Z) (ms : list Z) :
  ((fst (addStudent st buf n ms) = st
    /\ (snd (addStudent st buf n ms) = MsgLimitReached
        \/ snd (addStudent st buf n ms) = MsgNameEmpty))
   \/ exists s, addStudent st buf n ms = (st ++ [s], MsgAdded s))
  /\ ((fst (updateStudent st r choice buf n ms) = st
       /\ snd (updateStudent st r choice buf n ms) <> MsgUpdated)
      \/ (snd (updateStudent st r choice buf n ms) = MsgUpdated
          /\ length (fst (updateStudent st r choice buf n ms)) = length st))
  /\ ((fst (deleteStudent st r c) = st
       /\ snd (deleteStudent st r c) <> MsgDeleted)
      \/ (snd (deleteStudent st r c) = MsgDeleted
          /\ S (length (fst (deleteStudent st r c))) = length st)).
Proof.
  split; [|split].
  - unfold addStudent.
    destruct (studentCount st >=? MAX_STUDENTS); [left; split; [reflexivity | now left]|].
    destruct buf; [left; split; [reflexivity | now right]|].
    right. eexists. reflexivity.
  - unfold updateStudent. destruct st as [|s0 st0]; [left; split; [reflexivity | discriminate]|].
    set (st := s0 :: st0).
    destruct (findIndexByRoll st r <? 0); [left; split; [reflexivity | discriminate]|].
    destruct (choice =? 1).
    + destruct buf; [left; split; [reflexivity | discriminate]|].
      right. split; [reflexivity|]. cbn [fst]. apply set_nth_length.
    + destruct (choice =? 2); [|left; split; [reflexivity | discriminate]].
      right. split; [reflexivity|]. cbn [fst]. apply set_nth_length.
  - destruct (deleteStudent_cases st r c) as [E | (pre & x & post & E & _ & _ & D)].
    + destruct (snd (deleteStudent st r c)) eqn:M;
        try (left; split; [exact E | discriminate]).
      right. split; [reflexivity|].
      unfold deleteStudent in E, M. destruct st as [|s0 st0]; [discriminate M|].
      set (st := s0 :: st0) in *.
      destruct (findIndexByRoll st r <? 0); [discriminate M|].
      destruct (negb (c =? ch "y"%char) && negb (c =? ch "Y"%char)); [discriminate M|].
      cbn [fst] in E. exfalso.
      assert (L : length (shift_left (Z.to_nat (findIndexByRoll st r)) st) = length st)
        by now rewrite E.
      unfold shift_left in L. rewrite length_firstn in L.
      assert (L0 : length st = S (length st0)) by reflexivity. lia.
    + right. rewrite D. cbn [fst snd]. split; [reflexivity|].
      rewrite E, !length_app. cbn [length]. lia.
Qed.

Lemma delete_unconfirmed (st : Store) (r c : Z) :
  In r (rolls st) -> c <> ch "y"%char -> c <> ch "Y"%char ->
  deleteStudent st r c = (st, MsgCancelled).
Proof.
  intros Hin Hy HY.
  destruct (findIndex_present st r 0 Hin) as (pre & x & post & E & Hx & Hn & Hi).
  unfold deleteStudent. destruct st as [|s0 st0]; [destruct pre; discriminate E|].
  fold (findIndexByRoll (s0 :: st0) r) in Hi. rewrite Hi. simpl Z.add.
  destruct (Z.of_nat (length pre) <? 0) eqn:L; [lia|].
  apply Z.eqb_neq in Hy, HY. now rewrite Hy, HY.
Qed.

(** A deletion of a roll that is in the array is confirmed by the answer
    [y] or [Y] and by no other: confirmed, it takes the first record with
    that roll out of the array and keeps the others in their order;
    otherwise it leaves the array as it is and reports that it is
    cancelled.  When the rolls are pairwise distinct, the roll deleted is
    then held by no record, and a search for it finds nothing. *)
Theorem deleteStudent_removes_record (st : Store) (r c : Z) :
  In r (rolls st) ->
  exists pre x post,
    st = pre ++ x :: post /\ roll x = r /\ ~ In r (rolls pre)
    /\ deleteStudent st r c
       = (if (c =? ch "y"%char) || (c =? ch "Y"%char)
          then (pre ++ post, MsgDeleted) else (st, MsgCancelled))
    /\ (NoDup (rolls st) ->
        ~ In r (rolls (pre ++ post))
        /\ findIndexByRoll (pre ++ post) r = -1
        /\ searchByRoll (pre ++ post) r
           = match pre ++ post with
             | [] => cstr "No records." ++ endl
             | _ => cstr "No student with roll " ++ fmt_d r ++ cstr "." ++ endl
             end).
Proof.
  intros Hin.
  destruct (findIndex_present st r 0 Hin) as (pre & x & post & E & Hx & Hn & Hi).
  exists pre, x, post. split; [exact E|]. split; [exact Hx|]. split; [exact Hn|].
  split.
  - destruct ((c =? ch "y"%char) || (c =? ch "Y"%char)) eqn:Ec.
    + unfold deleteStudent. destruct st as [|s0 st0]; [destruct pre; discriminate E|].
      fold (findIndexByRoll (s0 :: st0) r) in Hi. rewrite Hi. simpl Z.add.
      destruct (Z.of_nat (length pre) <? 0) eqn:L; [lia|].
      replace (negb (c =? ch "y"%char) && negb (c =? ch "Y"%char)) with false
        by (rewrite <- negb_orb, Ec; reflexivity).
      rewrite Nat2Z.id, E. now rewrite shift_left_removes.
    + apply orb_false_elim in Ec. destruct Ec as [Ey EY].
      apply Z.eqb_neq in Ey, EY. now apply delete_unconfirmed.
  - intros ND.
    assert (Hout : ~ In r (rolls (pre ++ post))).
    { rewrite E in ND. unfold rolls in *. rewrite map_app in *. cbn [map] in ND.
      apply NoDup_remove_2 in ND. now rewrite Hx in ND. }
    split; [exact Hout|].
    split; [now apply findIndex_absent|].
    unfold searchByRoll. destruct (pre ++ post) eqn:Ep; [reflexivity|].
    unfold findIndexByRoll. rewrite findIndex_absent by assumption. reflexivity.
Qed.


(** ** The records of the arrays the program reaches *)

Lemma updated_record (st : Store) (r choice : Z) (buf : list char) (n : Z) (ms : list Z) :
  fst (updateStudent st r choice buf n ms) = st
  \/ exists pre x post s',
       st = pre ++ x :: post /\ roll x = r
       /\ fst (updateStudent st r choice buf n ms) = pre ++ s' :: post
       /\ ((buf <> []
            /\ s' = recompute (set_name x (strncpy (MAX_NAME - 1) (sanitizeName buf))))
           \/ s' = recompute (recompute
                     (set_marks (set_subjectCount x n) (write_marks n ms (marks x))))).
Proof.
  destruct (in_dec Z.eq_dec r (rolls st)) as [Hin|Hout].
  - destruct (findIndex_present st r 0 Hin) as (pre & x & post & E & Hx & _ & Hi).
    fold (findIndexByRoll st r) in Hi. simpl in Hi.
    unfold updateStudent. destruct st as [|s0 st0]; [now left|].
    set (st := s0 :: st0) in *. rewrite Hi.
    destruct (Z.of_nat (length pre) <? 0); [now left|].
    rewrite Nat2Z.id.
    assert (En : nth (length pre) st zeroStudent = x) by (rewrite E; apply nth_app_mid).
    rewrite En.
    destruct (choice =? 1).
    + destruct buf as [|b buf]; [now left|]. right.
      exists pre, x, post. eexists. split; [exact E|]. split; [exact Hx|].
      split; [cbn [fst]; rewrite E; apply set_nth_app|].
      left. split; [discriminate | reflexivity].
    + destruct (choice =? 2); [|now left]. right.
      exists pre, x, post. eexists. split; [exact E|]. split; [exact Hx|].
      split; [cbn [fst]; rewrite E; apply set_nth_app|].
      right. reflexivity.
  - left. unfold updateStudent. destruct st as [|s0 st0]; [reflexivity|].
    unfold findIndexByRoll. rewrite findIndex_absent by assumption. reflexivity.
Qed.

Lemma kept_after_rename (x : Student) (buf : list char) :
  kept_record x -> buf <> [] ->
  kept_record (recompute (set_name x (strncpy (MAX_NAME - 1) (sanitizeName buf)))).
Proof.
  intros ((Hi & _ & _ & _ & Hv & _ & _) & Hr & Hm) Hb.
  destruct (stored_name buf Hb) as (N1 & N2 & N3). cbv zeta in N1, N2, N3.
  split; [|split; [exact Hr | exact Hm]].
  split; [exact Hi|]. split; [exact N1|]. split; [exact N2|].
  split.
  { change (Z.of_nat (length (strncpy (MAX_NAME - 1) (sanitizeName buf))) < MAX_NAME).
    rewrite N3. unfold MAX_NAME. lia. }
  split; [exact Hv|]. split; reflexivity.
Qed.

Lemma kept_after_scores (x : Student) (n : Z) (ms : list Z) :
  kept_record x -> entered_ok n ms ->
  kept_record (recompute (recompute
                 (set_marks (set_subjectCount x n) (write_marks n ms (marks x))))).
Proof.
  intros ((Hi & Hn1 & Hn2 & Hn3 & _ & _ & _) & Hr & Hm) Hok.
  destruct (entered_scores_valid x n ms Hok Hm) as [Hv _]. cbv zeta in Hv.
  split; [|split; [exact Hr|]].
  - split; [exact Hi|]. split; [exact Hn1|]. split; [exact Hn2|].
    split; [exact Hn3|]. split; [exact Hv|]. split; reflexivity.
  - change (length (write_marks n ms (marks x)) = Z.to_nat MAX_SUBJECTS).
    destruct Hok as (Hn & Hl & _). unfold MAX_SUBJECTS in *.
    rewrite write_marks_spec by (try assumption; lia).
    rewrite length_app, length_skipn, Hm. lia.
Qed.

Lemma reachable_kept (st : Store) :
  reachable st -> studentCount st <= MAX_STUDENTS /\ Forall kept_record st.
Proof.
  induction 1 as [ | st file _ [IHc IHk] | st buf n ms _ [IHc IHk] Hok Hmax
                 | st r choice buf n ms _ [IHc IHk] Hok
                 | st r c _ [IHc IHk] | st choice st' _ [IHc IHk] Hs ].
  - split; [unfold studentCount, MAX_STUDENTS; simpl; lia | constructor].
  - rewrite loadAll_result. destruct file as [[|]|]; auto;
      (split; [unfold studentCount, MAX_STUDENTS; simpl; lia | constructor]).
  - destruct (Z_lt_le_dec (studentCount st) MAX_STUDENTS) as [Hlt|Hge].
    + destruct buf as [|b buf].
      * unfold addStudent. destruct (studentCount st >=? MAX_STUDENTS); auto.
      * destruct (added_record st (b :: buf) n ms Hlt ltac:(discriminate) Hok)
          as (s & E & Er & En & Hv & Hm & _ & _ & Ea & Eg & _).
        rewrite E. cbn [fst]. split.
        -- unfold studentCount in *. rewrite length_app. simpl. lia.
        -- apply Forall_app. split; [exact IHk|]. constructor; [|constructor].
           destruct (next_roll_above st Hmax) as [Ew _].
           pose proof (findMaxRoll_nonneg st) as H0.
           destruct (stored_name (b :: buf) ltac:(discriminate)) as (N1 & N2 & N3).
           cbv zeta in N1, N2, N3. rewrite <- En in N1, N2, N3.
           split; [|split; [lia | exact Hm]].
           split; [unfold in_int, INT_MIN, INT_MAX in *; lia|].
           split; [exact N1|]. split; [exact N2|].
           split; [unfold MAX_NAME; lia|].
           split; [exact Hv|]. split; assumption.
    + unfold addStudent.
      destruct (studentCount st >=? MAX_STUDENTS) eqn:E; [auto | lia].
  - destruct (updated_record st r choice buf n ms)
      as [-> | (pre & x & post & s' & E & _ & -> & Hs')]; [auto|].
    subst st. split.
    + unfold studentCount in *. rewrite length_app in *. exact IHc.
    + apply Forall_app in IHk. destruct IHk as [K1 K2].
      inversion K2 as [|? ? Kx Kp]; subst.
      apply Forall_app. split; [exact K1|]. constructor; [|exact Kp].
      destruct Hs' as [[Hb ->] | ->].
      * now apply kept_after_rename.
      * now apply kept_after_scores.
  - destruct (deleteStudent_cases st r c) as [->|(pre & x & post & E & _ & _ & ->)];
      [auto|]. subst st. cbn [fst]. split.
    + unfold studentCount in *. rewrite length_app in *. cbn [length] in IHc. lia.
    + apply Forall_app in IHk. destruct IHk as [K1 K2].
      inversion K2; subst. apply Forall_app. auto.
  - apply sortMenu_permutation in Hs. split.
    + unfold studentCount in *. now rewrite <- (Permutation_length Hs).
    + eapply Permutation_Forall; eauto.
Qed.

(** Every array the program reaches holds at most MAX_STUDENTS records,
    and each of them is well formed: a positive roll that fits an [int], a
    name that is not empty, holds no comma and has at most 99 characters,
    between 1 and MAX_SUBJECTS scores in [0, 100], and the average and the
    grade that [recompute] derives from these scores. *)
Theorem reachable_records_well_formed (st : Store) :
  reachable st ->
  studentCount st <= MAX_STUDENTS
  /\ Forall (fun s => well_formed s /\ 1 <= roll s
                      /\ grade s = calculateGrade (average s)
                      /\ average s = float_mean (scores s)) st.
Proof.
  intros H. destruct (reachable_kept st H) as [Hc Hk]. split; [exact Hc|].
  eapply Forall_impl; [|exact Hk].
  intros s (Hw & Hr & _). pose proof Hw as (_ & _ & _ & _ & Hv & Ea & Eg).
  destruct (recompute_correct s Hv) as (FM & _ & _ & _ & _ & G & _).
  cbv zeta in FM, G.
  split; [exact Hw|]. split; [exact Hr|].
  split; [now rewrite Eg, Ea | now rewrite Ea].
Qed.

(** ** The grade counters of [showStats] *)

Lemma stats_step_grades (st : Store) (acc : Stats) (i : nat) :
  let g := grade (nth i st zeroStudent) in
  let a := stats_step st acc i in
  gradeA a = gradeA acc + (if g =? ch "A"%char then 1 else 0)
  /\ gradeB a = gradeB acc + (if g =? ch "B"%char then 1 else 0)
  /\ gradeC a = gradeC acc + (if g =? ch "C"%char then 1 else 0)
  /\ gradeD a = gradeD acc + (if g =? ch "D"%char then 1 else 0)
  /\ gradeF a = gradeF acc
                + (if negb ((g =? ch "A"%char) || (g =? ch "B"%char)
                            || (g =? ch "C"%char) || (g =? ch "D"%char))
                   then 1 else 0).
Proof.
  intros g a. unfold a, stats_step. fold g.
  change (ch "A"%char) with 65. change (ch "B"%char) with 66.
  change (ch "C"%char) with 67. change (ch "D"%char) with 68.
  destruct (g =? 65) eqn:EA.
  { apply Z.eqb_eq in EA. rewrite EA. cbn. repeat split; lia. }
  destruct (g =? 66) eqn:EB.
  { apply Z.eqb_eq in EB. rewrite EB. cbn. repeat split; lia. }
  destruct (g =? 67) eqn:EC.
  { apply Z.eqb_eq in EC. rewrite EC. cbn. repeat split; lia. }
  destruct (g =? 68) eqn:ED; cbn; repeat split; lia.
Qed.

Lemma filter_firstn_succ (f : Student -> bool) (st : Store) (k : nat) :
  (k < length st)%nat ->
  Z.of_nat (length (filter f (firstn (S k) st)))
  = Z.of_nat (length (filter f (firstn k st)))
    + (if f (nth k st zeroStudent) then 1 else 0).
Proof.
  intros H. rewrite (firstn_succ_nth st k zeroStudent H), filter_app, length_app.
  cbn [filter]. destruct (f (nth k st zeroStudent)); cbn [length]; lia.
Qed.

Lemma grade_counts_loop (st : Store) :
  forall k, (k <= length st)%nat ->
    let acc := fold_left (stats_step st) (seq 0 k) stats_init in
    gradeA acc = count_grade (ch "A"%char) (firstn k st)
    /\ gradeB acc = count_grade (ch "B"%char) (firstn k st)
    /\ gradeC acc = count_grade (ch "C"%char) (firstn k st)
    /\ gradeD acc = count_grade (ch "D"%char) (firstn k st)
    /\ gradeF acc = count_other (firstn k st)
    /\ gradeA acc + gradeB acc + gradeC acc + gradeD acc + gradeF acc = Z.of_nat k.
Proof.
  induction k as [|k IH]; intros Hk.
  - cbn. repeat split.
  - rewrite seq_S, fold_left_app. cbn [fold_left Nat.add].
    specialize (IH ltac:(lia)). cbv zeta in IH.
    set (acc := fold_left (stats_step st) (seq 0 k) stats_init) in *.
    destruct IH as (A & B & C & D & F & T).
    destruct (stats_step_grades st acc k) as (SA & SB & SC & SD & SF).
    cbv zeta in *. unfold count_grade, count_other in *.
    rewrite !filter_firstn_succ by lia.
    rewrite SA, SB, SC, SD, SF, <- A, <- B, <- C, <- D, <- F.
    repeat split.
    rewrite Nat2Z.inj_succ, <- T.
    set (g := grade (nth k st zeroStudent)).
    change (ch "A"%char) with 65. change (ch "B"%char) with 66.
    change (ch "C"%char) with 67. change (ch "D"%char) with 68.
    destruct (g =? 65) eqn:EA; [apply Z.eqb_eq in EA; rewrite EA; cbn; lia|].
    destruct (g =? 66) eqn:EB; [apply Z.eqb_eq in EB; rewrite EB; cbn; lia|].
    destruct (g =? 67) eqn:EC; [apply Z.eqb_eq in EC; rewrite EC; cbn; lia|].
    destruct (g =? 68) eqn:ED; cbn; lia.
Qed.

(** The five counters [showStats] prints are the numbers of records whose
    grade is A, B, C and D, and, under F, the number of all the others,
    whatever their grade character is; they add up to the number of
    records. *)
Theorem showStats_grade_counts (st : Store) :
  st <> [] ->
  exists r,
    showStats st = Some r
    /\ grades r = (count_grade (ch "A"%char) st, count_grade (ch "B"%char) st,
                   count_grade (ch "C"%char) st, count_grade (ch "D"%char) st,
                   count_other st)
    /\ count_grade (ch "A"%char) st + count_grade (ch "B"%char) st
       + count_grade (ch "C"%char) st + count_grade (ch "D"%char) st
       + count_other st = studentCount st.
Proof.
  intros Hne.
  destruct (grade_counts_loop st (length st) (le_n _)) as (A & B & C & D & F & T).
  fold (stats_loop st) in *. rewrite firstn_all in *.
  destruct st as [|s0 st0]; [congruence|]. set (st := s0 :: st0) in *.
  eexists. split; [reflexivity|]. cbn [grades].
  rewrite A, B, C, D, F in *. split; [reflexivity | exact T].
Qed.

(** ** The class average of the arrays the program reaches *)

Lemma kept_average (s : Student) :
  kept_record s -> average_derived s /\ not_nan s.
Proof.
  intros ((_ & _ & _ & _ & Hv & Ea & _) & _).
  split; [split; assumption|].
  unfold not_nan. rewrite Ea.
  destruct (average_ok s Hv) as [[-> | (m & e & -> & _)] _]; reflexivity.
Qed.

(** In every non-empty array the program reaches, the class average that
    [showStats] reports is within 2^-8 + 2^-18 of the exact mean of the
    average fields. *)
Theorem reachable_class_average (st : Store) :
  reachable st -> st <> [] ->
  exists r,
    showStats st = Some r
    /\ (Qabs (f32_value (classAvg r) - qmean (map (fun s => f32_value (average s)) st))
        <= (1 # 256) + (1 # 262144))%Q.
Proof.
  intros Hr Hne. destruct (reachable_kept st Hr) as [Hc Hk].
  assert (Hd : Forall average_derived st)
    by (eapply Forall_impl; [|exact Hk]; intros s K; now apply kept_average).
  assert (Hn : Forall not_nan st)
    by (eapply Forall_impl; [|exact Hk]; intros s K; now apply kept_average).
  destruct (stats_loop_invariant st Hn (length st) (le_n _)) as (HS & _).
  fold (stats_loop st) in HS. rewrite firstn_all in HS.
  destruct st as [|s0 st0]; [congruence|]. set (st := s0 :: st0) in *.
  eexists. split; [reflexivity|]. cbn [classAvg]. rewrite HS.
  rewrite <- (map_map average f32_value).
  apply class_average_accuracy.
  - apply Forall_map. eapply Forall_impl; [|exact Hd].
    intros s [Hv ->]. now apply average_ok.
  - unfold studentCount. now rewrite length_map.
  - unfold studentCount, MAX_STUDENTS in *.
    assert (0 < length st)%nat by (unfold st; simpl; lia). lia.
Qed.

(** ** Sorting, then the statistics *)

Lemma sorted_head_top (cmp : comparator) (h : Student) (t : Store) (j : nat) :
  StronglySorted (fun x y => cmp x y <= 0) (h :: t) ->
  (0 < j < length (h :: t))%nat ->
  cmp h (nth j (h :: t) zeroStudent) <= 0.
Proof.
  intros HS Hj. inversion HS as [|? ? _ F]; subst.
  rewrite Forall_forall in F. apply F.
  destruct j as [|j]; [lia|]. cbn [nth]. apply nth_In. cbn [length] in Hj. lia.
Qed.

(** After a sort by average in descending order (entry 6) the topper that
    [showStats] reports is the first record of the array; after a sort by
    average in ascending order (entry 5) the lowest it reports is the
    first record. *)
Theorem sorted_by_average_extreme_first (st st5 st6 : Store) :
  st <> [] -> Forall not_nan st ->
  sortMenu st 5 st5 -> sortMenu st 6 st6 ->
  (exists r, showStats st6 = Some r /\ topper r = nth 0 st6 zeroStudent)
  /\ (exists r, showStats st5 = Some r /\ lowest r = nth 0 st5 zeroStudent).
Proof.
  intros Hne Hn H5 H6.
  pose proof (sortMenu_permutation _ _ _ H5) as P5.
  pose proof (sortMenu_permutation _ _ _ H6) as P6.
  destruct st as [|s0 st0]; [congruence|].
  destruct H5 as (c5 & E5 & _ & S5). destruct H6 as (c6 & E6 & _ & S6).
  inversion E5; subst c5. inversion E6; subst c6. clear E5 E6.
  split.
  - assert (Hn6 : Forall not_nan st6) by (eapply Permutation_Forall; eauto).
    destruct (stats_loop_invariant st6 Hn6 (length st6) (le_n _))
      as (_ & T1 & _ & T3 & _).
    fold (stats_loop st6) in *.
    destruct st6 as [|h t]; [apply Permutation_sym, Permutation_nil in P6; discriminate P6|].
    eexists. split; [reflexivity|]. cbn [topper].
    destruct (topIdx (stats_loop (h :: t))) as [|j] eqn:Et; [reflexivity|].
    exfalso. specialize (T3 O ltac:(lia)).
    pose proof (sorted_head_top _ h t (S j) S6) as C.
    rewrite Nat.max_r in T1 by (cbn [length]; lia).
    specialize (C ltac:(lia)). unfold cmpAvgDesc, cmpAvgAsc in C.
    unfold avg_at in T3. cbn [nth] in T3 |- *. cbn [nth] in C.
    rewrite T3 in C. vm_compute in C. now apply C.
  - assert (Hn5 : Forall not_nan st5) by (eapply Permutation_Forall; eauto).
    destruct (stats_loop_invariant st5 Hn5 (length st5) (le_n _))
      as (_ & _ & _ & _ & L1 & _ & L3).
    fold (stats_loop st5) in *.
    destruct st5 as [|h t]; [apply Permutation_sym, Permutation_nil in P5; discriminate P5|].
    eexists. split; [reflexivity|]. cbn [lowest].
    destruct (lowIdx (stats_loop (h :: t))) as [|j] eqn:El; [reflexivity|].
    exfalso. specialize (L3 O ltac:(lia)).
    pose proof (sorted_head_top _ h t (S j) S5) as C.
    rewrite Nat.max_r in L1 by (cbn [length]; lia).
    specialize (C ltac:(lia)). unfold cmpAvgAsc in C.
    unfold avg_at in L3. cbn [nth] in L3 |- *. cbn [nth] in C.
    assert (Nh : f32_is_nan (average h) = false)
      by (inversion Hn5; assumption).
    assert (Nj : f32_is_nan (average (nth j t zeroStudent)) = false)
      by (now apply f32_lt_numbers in L3).
    rewrite (f32_lt_asym _ _ Nj Nh L3) in C.
    change (f32_gt (average h) (average (nth j t zeroStudent)))
      with (f32_lt (average (nth j t zeroStudent)) (average h)) in C.
    rewrite L3 in C. lia.
Qed.

Lemma sorted_keys (cmp : comparator) (key : Student -> Z) (P : Student -> Prop)
      (R : Z -> Z -> Prop) (l : Store) :
  (forall x y, P x -> P y -> cmp x y <= 0 -> key x <> key y -> R (key x) (key y)) ->
  Forall P l -> NoDup (map key l) ->
  StronglySorted (fun x y => cmp x y <= 0) l ->
  StronglySorted R (map key l).
Proof.
  intros HR. induction l as [|h t IH]; intros F ND HS; cbn [map]; [constructor|].
  inversion F as [|? ? Ph Pt]; subst.
  inversion ND as [|? ? Nh Nt]; subst.
  inversion HS as [|? ? St Fh]; subst.
  constructor; [now apply IH|].
  rewrite Forall_map, Forall_forall. intros y Hy.
  rewrite Forall_forall in Pt, Fh.
  apply HR; auto.
  intros E. apply Nh. rewrite E. now apply in_map.
Qed.

(** On an array of pairwise distinct positive rolls, a sort by roll leaves
    the same records with their rolls in strictly increasing order (entry
    1) or in strictly decreasing order (entry 2). *)
Theorem sort_by_roll_orders_rolls (st st1 st2 : Store) :
  Forall (fun s => 1 <= roll s <= INT_MAX) st -> NoDup (rolls st) ->
  sortMenu st 1 st1 -> sortMenu st 2 st2 ->
  Permutation st st1 /\ StronglySorted Z.lt (rolls st1)
  /\ Permutation st st2 /\ StronglySorted Z.gt (rolls st2).
Proof.
  intros F ND H1 H2.
  pose proof (sortMenu_permutation _ _ _ H1) as P1.
  pose proof (sortMenu_permutation _ _ _ H2) as P2.
  split; [exact P1|]. split; [|split; [exact P2|]].
  - destruct st as [|s0 st0]; [simpl in H1; subst st1; constructor|].
    destruct H1 as (c & E & _ & HS). inversion E; subst c.
    apply (sorted_keys cmpRollAsc roll (fun s => 1 <= roll s <= INT_MAX)); auto.
    + intros x y Hx Hy C N. unfold cmpRollAsc in C.
      rewrite wrap32_id in C by (unfold in_int, INT_MIN, INT_MAX in *; lia). lia.
    + eapply Permutation_Forall; eauto.
    + eapply Permutation_NoDup; [|exact ND]. now apply Permutation_map.
  - destruct st as [|s0 st0]; [simpl in H2; subst st2; constructor|].
    destruct H2 as (c & E & _ & HS). inversion E; subst c.
    apply (sorted_keys cmpRollDesc roll (fun s => 1 <= roll s <= INT_MAX)); auto.
    + intros x y Hx Hy C N. unfold cmpRollDesc, cmpRollAsc in C.
      rewrite (wrap32_id (roll x - roll y)) in C
        by (unfold in_int, INT_MIN, INT_MAX in *; lia).
      rewrite wrap32_id in C by (unfold in_int, INT_MIN, INT_MAX in *; lia). lia.
    + eapply Permutation_Forall; eauto.
    + eapply Permutation_NoDup; [|exact ND]. now apply Permutation_map.
Qed.

(** ** The report file *)

Lemma export_fold (st : Store) (k : nat) :
  fold_left (export_step st) (seq 0 k) (S754_zero false, O, O)
  = (classSum (fold_left (stats_step st) (seq 0 k) stats_init),
     topIdx (fold_left (stats_step st) (seq 0 k) stats_init),
     lowIdx (fold_left (stats_step st) (seq 0 k) stats_init)).
Proof.
  induction k as [|k IH]; [reflexivity|].
  rewrite seq_S, !fold_left_app. cbn [fold_left Nat.add]. rewrite IH.
  set (acc := fold_left (stats_step st) (seq 0 k) stats_init).
  destruct (stats_step_fields st acc k) as (ES & ET & EL).
  rewrite ES, ET, EL. reflexivity.
Qed.

(** For a non-empty array [exportReport] writes its banner, the table
    with the rows that [listAll] prints, in the same order, and a summary
    that carries the number of records and the class average, topper and
    lowest that [showStats] reports for the same array; [listAll] prints
    one row per record. *)
Theorem exportReport_agrees_with_screen (st : Store) :
  st <> [] ->
  exists r,
    showStats st = Some r
    /\ listAll st = printTableHeader ++ concat (map printStudentRow st)
    /\ exportReport st
       = Some (report_banner ++ fmt_table_head
               ++ concat (map printStudentRow st)
               ++ fmt_summary (total r) (classAvg r) (topper r) (lowest r)).
Proof.
  intros Hne. destruct st as [|s0 st0]; [congruence|]. set (st := s0 :: st0).
  eexists. split; [reflexivity|]. split.
  - unfold listAll. fold st. now rewrite rows_fold.
  - unfold exportReport. fold st. rewrite export_fold. fold (stats_loop st).
    rewrite rows_fold. reflexivity.
Qed.

(** ** Reading a line *)

Lemma fgets_chars_line (l rest : list char) :
  ~ In 10 l -> forall n, (length l < n)%nat ->
  fgets_chars n (l ++ 10 :: rest) = (l ++ [10], rest).
Proof.
  induction l as [|c l IH]; intros Hn n Hl.
  - destruct n; [simpl in Hl; lia|]. reflexivity.
  - destruct n; [simpl in Hl; lia|]. cbn [app fgets_chars].
    destruct (c =? 10) eqn:E; [exfalso; apply Hn; left; apply Z.eqb_eq in E; lia|].
    rewrite IH; [reflexivity | intros C; apply Hn; now right | simpl in Hl; lia].
Qed.

Lemma fgets_chars_cut (l rest : list char) :
  ~ In 10 l -> forall n, (n <= length l)%nat ->
  fgets_chars n (l ++ rest) = (firstn n l, skipn n l ++ rest).
Proof.
  induction l as [|c l IH]; intros Hn n Hl.
  - destruct n; [|simpl in Hl; lia]. destruct rest; reflexivity.
  - destruct n; [reflexivity|]. cbn [app fgets_chars firstn skipn].
    destruct (c =? 10) eqn:E; [exfalso; apply Hn; left; apply Z.eqb_eq in E; lia|].
    rewrite IH; [reflexivity | intros C; apply Hn; now right | simpl in Hl; lia].
Qed.

Lemma c_string_all (l : list char) : ~ In 0 l -> c_string l = l.
Proof.
  induction l as [|c l IH]; intros H; [reflexivity|]. cbn [c_string].
  destruct (c =? 0) eqn:E; [exfalso; apply H; left; apply Z.eqb_eq in E; lia|].
  rewrite IH; [reflexivity | intros C; apply H; now right].
Qed.

Lemma last_not_newline (l : list char) :
  ~ In 10 l ->
  match rev l with
  | c :: r => if c =? 10 then rev r else l
  | [] => l
  end = l.
Proof.
  intros H. destruct (rev l) as [|c r] eqn:E; [reflexivity|].
  destruct (c =? 10) eqn:T; [|reflexivity].
  exfalso. apply H. apply (proj2 (in_rev l 10)). rewrite E. left. apply Z.eqb_eq in T. lia.
Qed.

Lemma safeGets_line (size : Z) (l rest : list char) :
  2 <= size -> ~ In 10 l -> ~ In 0 l ->
  (Z.of_nat (length l) <= size - 2 ->
   safeGets size (l ++ 10 :: rest) = (Some l, rest))
  /\ (size - 1 <= Z.of_nat (length l) ->
      safeGets size (l ++ 10 :: rest)
      = (Some (firstn (Z.to_nat (size - 1)) l),
         skipn (Z.to_nat (size - 1)) l ++ 10 :: rest))
  /\ safeGets size [] = (None, []).
Proof.
  intros Hs Hn H0. split; [|split; [|reflexivity]].
  - intros Hl. unfold safeGets, fgets.
    destruct (l ++ 10 :: rest) eqn:E; [destruct l; discriminate E|]. rewrite <- E.
    rewrite fgets_chars_line by (try assumption; lia).
    rewrite c_string_all
      by (intros C; apply in_app_or in C; destruct C as [C|[C|[]]]; [tauto | discriminate C]).
    rewrite rev_app_distr. cbn [rev app]. rewrite Z.eqb_refl.
    now rewrite rev_involutive.
  - intros Hl. unfold safeGets, fgets.
    destruct (l ++ 10 :: rest) eqn:E; [destruct l; discriminate E|]. rewrite <- E.
    rewrite fgets_chars_cut by (try assumption; lia).
    assert (F10 : ~ In 10 (firstn (Z.to_nat (size - 1)) l)).
    { intros C. apply Hn. rewrite <- (firstn_skipn (Z.to_nat (size - 1)) l).
      apply in_or_app. now left. }
    assert (F0 : ~ In 0 (firstn (Z.to_nat (size - 1)) l)).
    { intros C. apply H0. rewrite <- (firstn_skipn (Z.to_nat (size - 1)) l).
      apply in_or_app. now left. }
    rewrite c_string_all by assumption.
    now rewrite last_not_newline.
Qed.

(** [safeGets] on a line that ends with a newline and holds no NUL: when
    the line has at most [size - 2] characters it is returned without
    its newline and the input continues after it; when it is longer, its
    first [size - 1] characters are returned and the others stay in the
    input with the newline, for the next read.  At the end of the input
    nothing is stored. *)
Theorem safeGets_reads_line (size : Z) (l rest : list char) :
  2 <= size -> ~ In 10 l -> ~ In 0 l ->
  (Z.of_nat (length l) <= size - 2 ->
   safeGets size (l ++ 10 :: rest) = (Some l, rest))
  /\ (size - 1 <= Z.of_nat (length l) ->
      safeGets size (l ++ 10 :: rest)
      = (Some (firstn (Z.to_nat (size - 1)) l),
         skipn (Z.to_nat (size - 1)) l ++ 10 :: rest))
  /\ safeGets size [] = (None, []).
Proof. exact (safeGets_line size l rest). Qed.

(** ** Reading a number *)

Lemma skip_spaces_blank (ws : list char) :
  Forall (fun c => isspace c = true) ws ->
  forall l, skip_spaces (ws ++ l) = skip_spaces l.
Proof.
  induction 1 as [|c ws Hc _ IH]; intros l; [reflexivity|].
  cbn [app skip_spaces]. now rewrite Hc.
Qed.

Lemma flush_line_end (l rest : list char) :
  ~ In 10 l -> flush_line (l ++ 10 :: rest) = rest.
Proof.
  induction l as [|c l IH]; intros H; cbn [app flush_line]; [reflexivity|].
  destruct (c =? 10) eqn:E; [exfalso; apply H; left; apply Z.eqb_eq in E; lia|].
  apply IH. intros C. apply H. now right.
Qed.

Lemma wrap32_int (z : Z) : in_int (wrap32 z).
Proof.
  unfold in_int, wrap32, INT_MIN, INT_MAX.
  pose proof (Z.mod_pos_bound (z + 2 ^ 31) (2 ^ 32) ltac:(lia)). lia.
Qed.

Lemma scanf_d_int (stdin rest : list char) (x : Z) :
  scanf_d stdin = (Scanned x, rest) -> in_int x.
Proof.
  unfold scanf_d. destruct (read_sign (skip_spaces stdin)) as [neg l].
  destruct (read_digits l 0 0) as [[v k] r]. destruct k; [discriminate|].
  intros H. inversion H; subst. apply wrap32_int.
Qed.

Lemma scanf_d_digits (c : char) (t tail : list char) :
  Forall (fun c => isdigit c = true) (c :: t) -> stops tail ->
  let v := decimal_value (c :: t) 0 in
  scanf_d ((c :: t) ++ tail)
  = (Scanned (wrap32 (Z.max LONG_MIN (Z.min LONG_MAX v))), tail)
  /\ scanf_d (ch "-"%char :: (c :: t) ++ tail)
     = (Scanned (wrap32 (Z.max LONG_MIN (Z.min LONG_MAX (- v)))), tail).
Proof.
  intros F Ht v. pose proof F as F'. inversion F' as [|? ? Hc _]; subst.
  destruct (digit_not_special c Hc) as (Sp & M & Pl & _).
  assert (R : read_digits ((c :: t) ++ tail) 0 0 = (v, S (length t), tail)).
  { rewrite read_digits_all by assumption. reflexivity. }
  unfold scanf_d. split.
  - change ((c :: t) ++ tail) with (c :: (t ++ tail)) at 1.
    cbn [skip_spaces]. rewrite Sp. cbn [read_sign]. rewrite M, Pl.
    change (c :: (t ++ tail)) with ((c :: t) ++ tail). rewrite R. reflexivity.
  - cbn [skip_spaces]. change (isspace (ch "-"%char)) with false. cbv iota.
    cbn [read_sign]. rewrite Z.eqb_refl. rewrite R. reflexivity.
Qed.

(** What [printf("%d")] writes for an [int], [scanf("%d")] reads back,
    and it stops in front of what follows. *)
Lemma scanf_d_numeral (z : Z) (tail : list char) :
  in_int z -> stops tail -> scanf_d (fmt_d z ++ tail) = (Scanned z, tail).
Proof.
  intros Hz Ht.
  assert (R : forall x, in_int x -> wrap32 (Z.max LONG_MIN (Z.min LONG_MAX x)) = x).
  { intros x Hx. pose proof Hx as [A B]. unfold INT_MIN, INT_MAX in A, B.
    unfold LONG_MIN, LONG_MAX. rewrite Z.min_r, Z.max_r by lia.
    now apply wrap32_id. }
  unfold fmt_d. destruct z as [|p|p]; cbn [Z.to_int].
  - cbn [Pos.to_uint uint_chars].
    destruct (scanf_d_digits 48 [] tail ltac:(repeat constructor) Ht) as [E _].
    exact E.
  - destruct (uint_chars_nonnil p) as (c & t & E & Hc).
    pose proof (uint_chars_digits (Pos.to_uint p)) as F.
    pose proof (decimal_value_pos p) as V. rewrite E in F, V |- *.
    destruct (scanf_d_digits c t tail F Ht) as [E1 _]. cbv zeta in E1.
    rewrite V, (R _ Hz) in E1. exact E1.
  - destruct (uint_chars_nonnil p) as (c & t & E & Hc).
    pose proof (uint_chars_digits (Pos.to_uint p)) as F.
    pose proof (decimal_value_pos p) as V. rewrite E in F, V |- *.
    destruct (scanf_d_digits c t tail F Ht) as [_ E1]. cbv zeta in E1.
    rewrite V in E1. change (- Zpos p) with (Zneg p) in E1.
    rewrite (R _ Hz) in E1. exact E1.
Qed.

Lemma inputIntInRange_bounds (turns : nat) (min max : Z)
        (stdin rest : list char) (x : Z) :
  inputIntInRange turns min max stdin = Entered x rest ->
  min <= x <= max /\ in_int x.
Proof.
  revert stdin. induction turns as [|turns IH]; intros stdin H; [discriminate H|].
  cbn [inputIntInRange] in H.
  destruct (scanf_d stdin) as [[y|] r] eqn:E.
  - destruct ((min <=? y) && (y <=? max)) eqn:B.
    + inversion H; subst. apply andb_prop in B. destruct B as [B1 B2].
      apply Z.leb_le in B1, B2. split; [lia|]. eapply scanf_d_int; eauto.
    + eapply IH; eauto.
  - eapply IH; eauto.
Qed.

(** Whatever is typed, numbers that do not fit an [int] included, what
    [inputIntInRange] returns lies within the bounds it was given, and
    is an [int]. *)
Theorem inputIntInRange_within_bounds (turns : nat) (min max : Z)
        (stdin rest : list char) (x : Z) :
  inputIntInRange turns min max stdin = Entered x rest ->
  min <= x <= max /\ in_int x.
Proof. exact (inputIntInRange_bounds turns min max stdin rest x). Qed.

Lemma numeral_line (turns : nat) (min max x : Z)
        (ws tail rest : list char) :
  Forall (fun c => isspace c = true) ws -> in_int x ->
  stops tail -> ~ In 10 tail ->
  inputIntInRange (S turns) min max (ws ++ fmt_d x ++ tail ++ 10 :: rest)
  = if (min <=? x) && (x <=? max) then Entered x rest
    else inputIntInRange turns min max rest.
Proof.
  intros Hw Hx Ht Hn. cbn [inputIntInRange].
  assert (E : scanf_d (ws ++ fmt_d x ++ tail ++ 10 :: rest)
              = (Scanned x, tail ++ 10 :: rest)).
  { assert (St : stops (tail ++ 10 :: rest)) by (destruct tail; [reflexivity | exact Ht]).
    pose proof (scanf_d_numeral x _ Hx St) as S0.
    unfold scanf_d in *. now rewrite skip_spaces_blank. }
  rewrite E, flush_line_end by assumption. reflexivity.
Qed.

(** On a line that starts, after white space, with the numeral of an
    [int] followed by something that is not a digit, [inputIntInRange]
    returns the number when it is within the bounds, whatever else the
    line holds, and the input continues after the line; when the number
    is out of bounds the whole line is dropped and the next is read. *)
Theorem inputIntInRange_reads_numeral (turns : nat) (min max x : Z)
        (ws tail rest : list char) :
  Forall (fun c => isspace c = true) ws -> in_int x ->
  stops tail -> ~ In 10 tail ->
  inputIntInRange (S turns) min max (ws ++ fmt_d x ++ tail ++ 10 :: rest)
  = if (min <=? x) && (x <=? max) then Entered x rest
    else inputIntInRange turns min max rest.
Proof. exact (numeral_line turns min max x ws tail rest). Qed.

(** A line whose first character after white space is neither a sign nor
    a digit is dropped whole, and [inputIntInRange] asks again. *)
Theorem inputIntInRange_drops_text (turns : nat) (min max : Z) (c : char)
        (ws line rest : list char) :
  Forall (fun c => isspace c = true) ws ->
  isspace c = false -> isdigit c = false ->
  c <> ch "-"%char -> c <> ch "+"%char -> ~ In 10 line ->
  inputIntInRange (S turns) min max (ws ++ c :: line ++ 10 :: rest)
  = inputIntInRange turns min max rest.
Proof.
  intros Hw Hs Hd Hm Hp Hn. cbn [inputIntInRange].
  assert (E : scanf_d (ws ++ c :: line ++ 10 :: rest)
              = (NoMatch, c :: line ++ 10 :: rest)).
  { unfold scanf_d. rewrite skip_spaces_blank by assumption.
    cbn [skip_spaces]. rewrite Hs. cbn [read_sign].
    apply Z.eqb_neq in Hm, Hp. rewrite Hm, Hp.
    cbn [read_digits]. now rewrite Hd. }
  rewrite E.
  assert (Hc : (c =? 10) = false).
  { apply Z.eqb_neq. intros ->. discriminate Hs. }
  cbn [flush_line]. rewrite Hc. now rewrite flush_line_end.
Qed.

(** On an input that holds nothing but white space, and so at the end of
    the input, [inputIntInRange] never returns: it is still asking after
    any number of turns. *)
Theorem inputIntInRange_never_returns_on_blank (turns : nat) (min max : Z)
        (stdin : list char) :
  Forall (fun c => isspace c = true) stdin ->
  inputIntInRange turns min max stdin = StillAsking.
Proof.
  intros Hw.
  assert (E : scanf_d stdin = (NoMatch, [])).
  { unfold scanf_d. rewrite <- (app_nil_r stdin), skip_spaces_blank by assumption.
    reflexivity. }
  revert stdin Hw E. induction turns as [|turns IH]; intros stdin Hw E; [reflexivity|].
  cbn [inputIntInRange]. rewrite E. cbn [flush_line].
  apply IH; [constructor | reflexivity].
Qed.

(** ** The width of numerals *)

Lemma decimal_value_bounds (ds : list char) :
  Forall (fun c => isdigit c = true) ds ->
  forall acc, 0 <= acc ->
    acc * 10 ^ Z.of_nat (length ds) <= decimal_value ds acc
    < (acc + 1) * 10 ^ Z.of_nat (length ds).
Proof.
  induction 1 as [|c ds Hc _ IH]; intros acc Ha.
  - cbn [length decimal_value Z.of_nat]. rewrite Z.pow_0_r. lia.
  - cbn [length decimal_value]. rewrite Nat2Z.inj_succ, Z.pow_succ_r by lia.
    unfold isdigit in Hc. apply andb_prop in Hc. destruct Hc as [C1 C2].
    apply Z.leb_le in C1, C2.
    specialize (IH (acc * 10 + (c - 48)) ltac:(lia)).
    assert (P : 0 < 10 ^ Z.of_nat (length ds)) by (apply Z.pow_pos_nonneg; lia).
    nia.
Qed.

Lemma to_uint_leading (p : positive) :
  exists c t, uint_chars (Pos.to_uint p) = c :: t /\ 49 <= c <= 57.
Proof.
  assert (N : Pos.to_uint p = Decimal.unorm (Pos.to_uint p)).
  { pose proof (DecimalPos.Unsigned.to_of (Pos.to_uint p)) as H.
    rewrite DecimalPos.Unsigned.of_to in H. exact H. }
  pose proof (DecimalPos.Unsigned.to_uint_nonzero p) as NZ.
  pose proof (DecimalPos.Unsigned.to_uint_nonnil p) as NN.
  destruct (Pos.to_uint p) as [|u|u|u|u|u|u|u|u|u|u] eqn:E;
    try (cbn [uint_chars]; eexists; eexists; split; [reflexivity | lia]).
  - congruence.
  - exfalso. rewrite DecimalFacts.unorm_D0 in N.
    destruct u as [|u|u|u|u|u|u|u|u|u|u]; [congruence | ..];
      match type of N with
      | _ = Decimal.unorm ?v =>
          pose proof (DecimalFacts.nb_digits_unorm v ltac:(discriminate)) as L;
          rewrite <- N in L; cbn [Decimal.nb_digits] in L; lia
      end.
Qed.

(** The numeral of a positive number below [10 ^ k] has at most [k]
    characters, that of a larger one has more. *)
Lemma fmt_d_width (z : Z) (k : nat) :
  1 <= z ->
  (z < 10 ^ Z.of_nat k -> (length (fmt_d z) <= k)%nat)
  /\ (10 ^ Z.of_nat k <= z -> (k < length (fmt_d z))%nat).
Proof.
  intros Hz. destruct z as [|p|p]; try lia.
  unfold fmt_d. cbn [Z.to_int].
  destruct (to_uint_leading p) as (c & t & E & Hc).
  pose proof (uint_chars_digits (Pos.to_uint p)) as F.
  pose proof (decimal_value_pos p) as V. rewrite E in F, V |- *.
  inversion F as [|? ? _ Ft]; subst.
  cbn [decimal_value] in V.
  pose proof (decimal_value_bounds t Ft (0 * 10 + (c - 48)) ltac:(lia)) as B.
  rewrite V in B. cbn [length].
  assert (P : 0 < 10 ^ Z.of_nat (length t)) by (apply Z.pow_pos_nonneg; lia).
  split; intros H.
  - assert (L : 10 ^ Z.of_nat (length t) < 10 ^ Z.of_nat k) by nia.
    apply Z.pow_lt_mono_r_iff in L; lia.
  - assert (L : 10 ^ Z.of_nat k < 10 ^ Z.of_nat (S (length t))).
    { rewrite Nat2Z.inj_succ, Z.pow_succ_r by lia. nia. }
    apply Z.pow_lt_mono_r_iff in L; lia.
Qed.

Lemma fmt_d_int_width (z : Z) : in_int z -> (length (fmt_d z) <= 11)%nat.
Proof.
  unfold in_int, INT_MIN, INT_MAX. intros H. destruct z as [|p|p].
  - simpl. lia.
  - apply (fmt_d_width (Zpos p) 11); lia.
  - pose proof (proj1 (fmt_d_width (Zpos p) 10 ltac:(lia)) ltac:(lia)) as L.
    unfold fmt_d in *. cbn [Z.to_int] in *. cbn [length]. lia.
Qed.

(** ** The width of a row *)

Lemma pad_right_length (w : nat) (l : list char) :
  length (pad_right w l) = Nat.max w (length l).
Proof. unfold pad_right. rewrite length_app, repeat_length. lia. Qed.

Lemma check_average_width_all :
  forallb (fun n => forallb (check_average_width n) (Zrange 0 (100 * n + 1)))
          (Zrange 1 11) = true.
Proof. vm_compute. reflexivity. Qed.

Lemma average_width (s : Student) :
  valid_scores s ->
  (4 <= length (fmt_2f (average (recompute s))) <= 6)%nat
  /\ ~ In 10 (fmt_2f (average (recompute s))).
Proof.
  intros Hv. destruct (sum_marks_exact s Hv) as (_ & _ & B).
  pose proof Hv as (Hc & _). unfold MAX_SUBJECTS in Hc.
  pose proof check_average_width_all as H.
  rewrite forallb_forall in H.
  specialize (H _ (Zrange_In 1 11 (subjectCount s) ltac:(lia))).
  rewrite forallb_forall in H.
  specialize (H _ (Zrange_In 0 (100 * subjectCount s + 1) (sum_marks s) ltac:(lia))).
  unfold check_average_width in H. cbv zeta in H.
  cbn [recompute average set_grade set_average].
  apply andb_prop in H. destruct H as [H N]. apply andb_prop in H. destruct H as [H1 H2].
  apply Nat.leb_le in H1, H2. split; [lia|].
  intros C. apply negb_true_iff in N.
  assert (T : existsb (Z.eqb 10)
                (fmt_2f (f32_div (f32_of_int (sum_marks s)) (f32_of_int (subjectCount s))))
              = true).
  { apply existsb_exists. exists 10. split; [exact C | apply Z.eqb_refl]. }
  congruence.
Qed.

(** The row of a well-formed record with a positive roll is a line of 60
    characters, as wide as the two lines of the table header, exactly
    when the roll is below 10^6; a larger roll makes the row longer and
    moves the other columns.  At most the first 25 characters of the name
    are shown. *)
Theorem printStudentRow_width (s : Student) :
  well_formed s -> 1 <= roll s ->
  length fmt_table_head = (61 + 61)%nat
  /\ (roll s < 10 ^ 6 -> length (printStudentRow s) = 61%nat)
  /\ (10 ^ 6 <= roll s -> (61 < length (printStudentRow s))%nat)
  /\ printStudentRow s = printStudentRow (set_name s (firstn 25 (name s))).
Proof.
  intros (_ & _ & _ & _ & Hv & Ea & _) Hr.
  destruct (average_width s Hv) as [Wa _]. rewrite <- Ea in Wa.
  pose proof Hv as (Hc & _). unfold MAX_SUBJECTS in Hc.
  pose proof (proj1 (fmt_d_width (subjectCount s) 2 ltac:(lia)) ltac:(lia)) as Wc.
  assert (Wn : (length (firstn 25 (name s)) <= 25)%nat)
    by (rewrite length_firstn; lia).
  assert (L : length (printStudentRow s)
              = (Nat.max 6 (length (fmt_d (roll s))) + 55)%nat).
  { unfold printStudentRow, endl. rewrite !length_app, !pad_right_length.
    change (length (cstr "  ")) with 2%nat. cbn [length]. lia. }
  split; [reflexivity|]. split; [|split].
  - intros H. pose proof (proj1 (fmt_d_width (roll s) 6 Hr) H). lia.
  - intros H. pose proof (proj2 (fmt_d_width (roll s) 6 Hr) H). lia.
  - unfold printStudentRow. cbn [roll name subjectCount average grade set_name].
    now rewrite firstn_firstn.
Qed.

(** ** The lines of the data file and the buffer that reads them *)

Lemma fmt_d_no_newline (z : Z) : ~ In 10 (fmt_d z).
Proof.
  assert (D : forall d, ~ In 10 (uint_chars d)).
  { intros d C. pose proof (uint_chars_digits d) as F. rewrite Forall_forall in F.
    apply F in C. discriminate C. }
  unfold fmt_d. destruct (Z.to_int z) as [d|d]; [apply D|].
  intros [C|C]; [discriminate C | now apply D in C].
Qed.

Lemma join_marks_no_newline (ms : list Z) : ~ In 10 (join_marks ms).
Proof.
  induction ms as [|m ms IH]; [intros []|]. cbn [join_marks].
  intros C. apply in_app_or in C. destruct C as [C|C];
    [now apply fmt_d_no_newline in C|].
  destruct ms; [destruct C|]. destruct C as [C|C]; [discriminate C | now apply IH].
Qed.

Lemma calculateGrade_letter (avg : float) :
  In (calculateGrade avg) [ch "A"%char; ch "B"%char; ch "C"%char; ch "D"%char; ch "F"%char].
Proof.
  unfold calculateGrade.
  destruct (f32_ge avg (f32_of_int 90)); [now left|].
  destruct (f32_ge avg (f32_of_int 75)); [right; now left|].
  destruct (f32_ge avg (f32_of_int 60)); [right; right; now left|].
  destruct (f32_ge avg (f32_of_int 50)); [right; right; right; now left|].
  right; right; right; right; now left.
Qed.

Lemma fmt_record_line (s : Student) :
  well_formed s -> ~ In 10 (name s) ->
  (length (fmt_record s) <= 164)%nat /\ ~ In 10 (fmt_record s).
Proof.
  intros (Hi & _ & _ & Hl & Hv & Ea & Eg) Hn.
  destruct (average_width s Hv) as [Wa Na]. rewrite <- Ea in Wa, Na.
  pose proof Hv as (Hc & _ & Hf). unfold MAX_SUBJECTS in Hc.
  pose proof (proj1 (fmt_d_width (subjectCount s) 2 ltac:(lia)) ltac:(lia)) as Wc.
  pose proof (fmt_d_int_width (roll s) Hi) as Wr.
  pose proof (join_marks_length (scores s) Hf) as Wm.
  assert (Ls : (length (scores s) <= 10)%nat)
    by (unfold scores; rewrite length_firstn; lia).
  unfold MAX_NAME in Hl.
  unfold fmt_record. rewrite (fmt_marks_join s Hv). split.
  - rewrite !length_app. cbn [length]. lia.
  - intros C.
    repeat (apply in_app_or in C; destruct C as [C|C]);
      try (now apply fmt_d_no_newline in C);
      try (destruct C as [C|[]]; discriminate C);
      try contradiction.
    + now apply join_marks_no_newline in C.
    + destruct C as [C|[]]. rewrite Eg in C.
      cbn [recompute grade set_grade] in C.
      match type of C with
      | calculateGrade ?a = _ => pose proof (calculateGrade_letter a) as G
      end.
      rewrite C in G. cbn in G. intuition discriminate.
Qed.

(** The file [saveAll] writes starts with the header line, which the
    loader recognises, and every line it writes for a well-formed record
    whose name holds no newline has at most 165 characters with its
    newline: [fgets] with the buffer of 1024 bytes that [loadAll] uses
    takes each line whole and leaves the following ones. *)
Theorem saveAll_lines_fit_buffer (s : Student) (st : Store) :
  well_formed s -> ~ In 10 (name s) ->
  let line := fun x => fmt_record x ++ [ch "010"%char] in
  fgets 1024 (saveAll (s :: st)) = Some (header_line, concat (map line (s :: st)))
  /\ has_header (c_string header_line) = true
  /\ (length (line s) <= 165)%nat
  /\ fgets 1024 (concat (map line (s :: st))) = Some (line s, concat (map line st)).
Proof.
  intros Hw Hn line. destruct (fmt_record_line s Hw Hn) as [L N].
  split; [reflexivity|]. split; [reflexivity|].
  split; [unfold line; rewrite length_app; cbn [length]; lia|].
  cbn [map concat]. unfold line at 1 3. rewrite <- app_assoc. cbn [app].
  unfold fgets.
  destruct (fmt_record s ++ ch "010"%char :: concat (map line st)) eqn:E;
    [destruct (fmt_record s); discriminate E|].
  rewrite <- E. change (ch "010"%char) with 10.
  rewrite fgets_chars_line by (try assumption; simpl; lia). reflexivity.
Qed.

(** ** What [loadAll] stores *)

(** Whatever the data file holds, [loadAll] stores no record: it leaves
    the array empty, or, when the file exists and is empty, as it was;
    called on the empty array, as [main] does, it leaves the array
    empty. *)
Theorem loadAll_stores_nothing (st : Store) (file : option (list char)) :
  loadAll st file = match file with Some [] => st | _ => [] end
  /\ loadAll [] file = [].
Proof.
  split; [apply loadAll_result|].
  rewrite loadAll_result. destruct file as [[|]|]; reflexivity.
Qed.

(** ** Names that differ in letter case *)

(** Two records whose names differ in nothing but the case of their
    letters are equal for the comparison by name, in both directions, and
    only such records are: a sort by name does not fix their order. *)
Theorem cmpName_ties_ignore_case (x y : Student) :
  Forall (fun c => 1 <= c <= 255) (name x) ->
  Forall (fun c => 1 <= c <= 255) (name y) ->
  (cmpNameAsc x y = 0 <-> map tolower (name x) = map tolower (name y))
  /\ (cmpNameDesc x y = 0 <-> map tolower (name x) = map tolower (name y)).
Proof.
  intros Fx Fy.
  assert (Lx : Forall (fun c => 1 <= c) (name x))
    by (eapply Forall_impl; [|exact Fx]; cbv beta; intros; lia).
  assert (Ly : Forall (fun c => 1 <= c) (name y))
    by (eapply Forall_impl; [|exact Fy]; cbv beta; intros; lia).
  assert (Bx : Forall (fun c => 0 <= c <= 255) (name x))
    by (eapply Forall_impl; [|exact Fx]; cbv beta; intros; lia).
  assert (By : Forall (fun c => 0 <= c <= 255) (name y))
    by (eapply Forall_impl; [|exact Fy]; cbv beta; intros; lia).
  pose proof (strcasecmp_zero (name x) Lx (name y) Ly) as H.
  pose proof (strcasecmp_range (name x) (name y) Bx By) as R.
  unfold cmpNameDesc, cmpNameAsc. split; [exact H|].
  rewrite <- H.
  rewrite wrap32_id by (unfold in_int, INT_MIN, INT_MAX; lia). lia.
Qed.

(** ** The dialogues of [addStudent] and [deleteStudent] *)

Lemma input_marks_entered (turns : nat) (k : nat) :
  forall stdin ms rest,
    input_marks turns k stdin = Some (ms, rest) ->
    length ms = k /\ Forall (fun m => 0 <= m <= 100) ms.
Proof.
  induction k as [|k IH]; intros stdin ms rest H; cbn [input_marks] in H.
  - inversion H; subst. split; [reflexivity | constructor].
  - destruct (inputIntInRange turns 0 100 stdin) as [m r|] eqn:E; try discriminate H.
    destruct (input_marks turns k r) as [[ms' r']|] eqn:E2; [|discriminate H].
    inversion H; subst. destruct (IH _ _ _ E2) as [L F].
    destruct (inputIntInRange_bounds _ _ _ _ _ _ E) as [B _].
    split; [cbn [length]; now rewrite L | now constructor].
Qed.

Lemma input_marks_lines (turns : nat) (ms : list Z) (rest : list char) :
  Forall (fun m => 0 <= m <= 100) ms ->
  input_marks (S turns) (length ms)
              (concat (map (fun m => fmt_d m ++ [10]) ms) ++ rest)
  = Some (ms, rest).
Proof.
  induction 1 as [|m ms Hm _ IH]; [reflexivity|].
  cbn [length input_marks map concat]. rewrite <- !app_assoc.
  pose proof (numeral_line turns 0 100 m [] [] (concat (map (fun m => fmt_d m ++ [10]) ms) ++ rest)
                ltac:(constructor)
                ltac:(unfold in_int, INT_MIN, INT_MAX; lia) I ltac:(intros [])) as E.
  replace ((0 <=? m) && (m <=? 100)) with true in E
    by (symmetry; apply andb_true_intro; split; apply Z.leb_le; lia).
  cbn [app] in E. cbn [app].
  match goal with
  | |- context [inputIntInRange ?a ?b ?c ?d] =>
      assert (E' : inputIntInRange a b c d
                   = Entered m (concat (map (fun m => fmt_d m ++ [10]) ms) ++ rest))
        by exact E;
      rewrite E'
  end.
  now rewrite IH.
Qed.

Lemma add_input_entered (turns : nat) (st st' : Store) (msg : message)
        (buf0 stdin rest : list char) :
  addStudent_input turns st buf0 stdin = Some (st', msg, rest) ->
  (st' = st /\ (msg = MsgLimitReached \/ msg = MsgNameEmpty))
  \/ exists buf n ms,
       buf <> [] /\ entered_ok n ms
       /\ addStudent st buf n ms = (st', msg)
       /\ exists s, st' = st ++ [s] /\ msg = MsgAdded s.
Proof.
  unfold addStudent_input. intros H.
  destruct (studentCount st >=? MAX_STUDENTS) eqn:EL.
  { inversion H; subst. left. split; [reflexivity | now left]. }
  destruct (safeGets 256 stdin) as [got r0].
  destruct (buffer_after buf0 got) as [|b buf].
  { inversion H; subst. left. split; [reflexivity | now right]. }
  destruct (inputIntInRange turns 1 MAX_SUBJECTS r0) as [n r1|] eqn:En;
    try discriminate H.
  destruct (input_marks turns (Z.to_nat n) r1) as [[ms r2]|] eqn:Em; [|discriminate H].
  destruct (inputIntInRange_bounds _ _ _ _ _ _ En) as [Bn _].
  destruct (input_marks_entered _ _ _ _ _ Em) as [Lm Fm].
  assert (Hok : entered_ok n ms) by (split; [exact Bn | split; [lia | exact Fm]]).
  destruct (addStudent_success st (b :: buf) n ms ltac:(lia) ltac:(discriminate))
    as (s & Es & _).
  rewrite Es in H. inversion H; subst.
  right. exists (b :: buf), n, ms.
  split; [discriminate|]. split; [exact Hok|]. split; [exact Es|].
  exists s. split; reflexivity.
Qed.

(** Whatever is typed, numbers that do not fit an [int] included, and
    whatever its name buffer held, when [addStudent] returns it has
    refused the add or it has added the record made of a name that is not
    empty and of scores that satisfy what the editing actions rely on: a
    number of subjects in [1, MAX_SUBJECTS] and as many marks, each in
    [0, 100]. *)
Theorem addStudent_input_entered (turns : nat) (st st' : Store) (msg : message)
        (buf0 stdin rest : list char) :
  addStudent_input turns st buf0 stdin = Some (st', msg, rest) ->
  (st' = st /\ (msg = MsgLimitReached \/ msg = MsgNameEmpty))
  \/ exists buf n ms,
       buf <> [] /\ entered_ok n ms
       /\ addStudent st buf n ms = (st', msg)
       /\ exists s, st' = st ++ [s] /\ msg = MsgAdded s.
Proof. exact (add_input_entered turns st st' msg buf0 stdin rest). Qed.

(** A name of at most 254 characters, the number of subjects and the
    marks, typed one per line, make [addStudent] add the record with
    exactly these data and leave the rest of the input. *)
Theorem addStudent_input_lines (turns : nat) (st : Store) (buf0 nm : list char)
        (n : Z) (ms : list Z) (rest : list char) :
  studentCount st < MAX_STUDENTS ->
  nm <> [] -> ~ In 10 nm -> ~ In 0 nm -> (length nm <= 254)%nat ->
  entered_ok n ms ->
  addStudent_input (S turns) st buf0
    (nm ++ [10] ++ fmt_d n ++ [10] ++ concat (map (fun m => fmt_d m ++ [10]) ms) ++ rest)
  = Some (fst (addStudent st nm n ms), snd (addStudent st nm n ms), rest)
  /\ exists s, addStudent st nm n ms = (st ++ [s], MsgAdded s)
               /\ scores s = ms /\ name s = firstn 99 (sanitizeName nm).
Proof.
  intros Hc Hne Hnl H0 Hl Hok.
  destruct (added_record st nm n ms Hc Hne Hok) as (s & Es & _ & En & _ & _ & _ & Ess & _).
  split; [|exists s; split; [exact Es|]; split; [exact Ess | exact En]].
  unfold addStudent_input.
  destruct (studentCount st >=? MAX_STUDENTS) eqn:EL; [lia|].
  cbn [app].
  destruct (safeGets_line 256 nm
              (fmt_d n ++ 10 :: concat (map (fun m => fmt_d m ++ [10]) ms) ++ rest)
              ltac:(lia) Hnl H0) as [E _].
  rewrite (E ltac:(lia)). cbn [buffer_after].
  destruct nm as [|c0 nm0]; [congruence|].
  pose proof Hok as (Bn & Ln & Fm).
  pose proof (numeral_line turns 1 MAX_SUBJECTS n [] []
                (concat (map (fun m => fmt_d m ++ [10]) ms) ++ rest)
                ltac:(constructor)
                ltac:(unfold in_int, INT_MIN, INT_MAX, MAX_SUBJECTS in *; lia)
                I ltac:(intros [])) as E1.
  cbn [app] in E1. rewrite E1.
  replace ((1 <=? n) && (n <=? MAX_SUBJECTS)) with true
    by (symmetry; apply andb_true_intro; split; apply Z.leb_le; lia).
  rewrite <- Ln, Nat2Z.id, input_marks_lines by assumption.
  rewrite Ln. destruct (addStudent st (c0 :: nm0) n ms). reflexivity.
Qed.

(** The confirmation of a deletion is the first character of the answer
    line, whatever follows it on that line; an answer that is the empty
    line cancels the deletion, and the line typed after it is taken off
    the input as well. *)
Theorem deleteStudent_input_answer (turns : nat) (st : Store) (r c : Z)
        (tail next rest : list char) :
  In r (rolls st) -> 1 <= r <= 1000000000 ->
  c <> 10 -> ~ In 10 tail -> ~ In 10 next ->
  deleteStudent_input (S turns) st (fmt_d r ++ [10] ++ c :: tail ++ [10] ++ rest)
  = Some (fst (deleteStudent st r c), snd (deleteStudent st r c), rest)
  /\ deleteStudent_input (S turns) st (fmt_d r ++ [10] ++ [10] ++ next ++ [10] ++ rest)
     = Some (st, MsgCancelled, rest).
Proof.
  intros Hin Hr Hc Ht Hn.
  destruct (findIndex_present st r 0 Hin) as (pre & x & post & E & Hx & _ & Hi).
  fold (findIndexByRoll st r) in Hi. simpl in Hi.
  assert (Hidx : (findIndexByRoll st r <? 0) = false)
    by (rewrite Hi; apply Z.ltb_ge; lia).
  assert (Rg : (1 <=? r) && (r <=? 1000000000) = true)
    by (apply andb_true_intro; split; apply Z.leb_le; lia).
  assert (Hint : in_int r) by (unfold in_int, INT_MIN, INT_MAX; lia).
  unfold deleteStudent_input.
  destruct st as [|s0 st0]; [destruct Hin|]. set (st := s0 :: st0) in *.
  split.
  - pose proof (numeral_line turns 1 1000000000 r [] [] (c :: tail ++ [10] ++ rest)
                  ltac:(constructor) Hint I ltac:(intros [])) as E1.
    cbn [app] in E1 |- *. rewrite E1, Rg, Hidx. cbn [getchar].
    rewrite flush_line_end by assumption.
    destruct (deleteStudent st r c). reflexivity.
  - pose proof (numeral_line turns 1 1000000000 r [] [] (10 :: next ++ [10] ++ rest)
                  ltac:(constructor) Hint I ltac:(intros [])) as E1.
    cbn [app] in E1 |- *. rewrite E1, Rg, Hidx. cbn [getchar].
    rewrite flush_line_end by assumption.
    rewrite (delete_unconfirmed st r 10 Hin) by discriminate. reflexivity.
Qed.

(** ** The grade of a higher average *)

Lemma f32_ge_trans (x y t : float) :
  f32_is_nan x = false -> f32_is_nan y = false -> f32_is_nan t = false ->
  f32_ge y x = true -> f32_ge x t = true -> f32_ge y t = true.
Proof.
  intros Nx Ny Nt Hyx Hxt.
  destruct (f32_lt y t) eqn:L; [|now apply f32_not_lt_ge].
  exfalso.
  pose proof (f32_ge_lt_trans x y t Nx Ny Nt Hyx L) as L1.
  pose proof (f32_ge_lt_trans t x t Nt Nx Nt Hxt L1) as L2.
  rewrite (f32_lt_irrefl t Nt) in L2. discriminate L2.
Qed.

(** The grade never gets worse when the average gets higher: for two
    averages that are numbers, the letter of the higher one is the same
    or comes earlier in the alphabet. *)
Theorem calculateGrade_monotone (x y : float) :
  f32_is_nan x = false -> f32_is_nan y = false -> f32_ge y x = true ->
  calculateGrade y <= calculateGrade x.
Proof.
  intros Nx Ny H.
  assert (T : forall k, f32_ge x (f32_of_int k) = true ->
                        f32_is_nan (f32_of_int k) = false ->
                        f32_ge y (f32_of_int k) = true)
    by (intros k Hk Nk; now apply (f32_ge_trans x y (f32_of_int k))).
  unfold calculateGrade.
  change (ch "A"%char) with 65. change (ch "B"%char) with 66.
  change (ch "C"%char) with 67. change (ch "D"%char) with 68.
  change (ch "F"%char) with 70.
  destruct (f32_ge x (f32_of_int 90)) eqn:A;
    [rewrite (T 90 A eq_refl); lia|].
  destruct (f32_ge x (f32_of_int 75)) eqn:B;
    [rewrite (T 75 B eq_refl); destruct (f32_ge y (f32_of_int 90)); lia|].
  destruct (f32_ge x (f32_of_int 60)) eqn:C;
    [rewrite (T 60 C eq_refl); destruct (f32_ge y (f32_of_int 90));
     destruct (f32_ge y (f32_of_int 75)); lia|].
  destruct (f32_ge x (f32_of_int 50)) eqn:D;
    [rewrite (T 50 D eq_refl); destruct (f32_ge y (f32_of_int 90));
     destruct (f32_ge y (f32_of_int 75)); destruct (f32_ge y (f32_of_int 60)); lia|].
  destruct (f32_ge y (f32_of_int 90)); destruct (f32_ge y (f32_of_int 75));
    destruct (f32_ge y (f32_of_int 60)); destruct (f32_ge y (f32_of_int 50)); lia.
Qed.

Lemma calculateGrade_monotone_witness :
  calculateGrade (f32_of_int 90) <= calculateGrade (f32_of_int 89).
Proof.
  apply (calculateGrade_monotone (f32_of_int 89) (f32_of_int 90)); reflexivity.
Defined.

(** ** The whole program *)

Lemma update_other_entry (st : Store) (r choice : Z) (buf : list char) (n : Z) (ms : list Z) :
  choice <> 1 -> choice <> 2 -> fst (updateStudent st r choice buf n ms) = st.
Proof.
  intros H1 H2. unfold updateStudent. destruct st as [|s0 st0]; [reflexivity|].
  destruct (findIndexByRoll (s0 :: st0) r <? 0); [reflexivity|].
  apply Z.eqb_neq in H1, H2. now rewrite H1, H2.
Qed.

Lemma update_name_entry (st : Store) (r : Z) (buf : list char) (n n' : Z) (ms ms' : list Z) :
  updateStudent st r 1 buf n ms = updateStudent st r 1 buf n' ms'.
Proof.
  unfold updateStudent. destruct st as [|s0 st0]; [reflexivity|].
  destruct (findIndexByRoll (s0 :: st0) r <? 0); reflexivity.
Qed.

Lemma one_mark_entered : entered_ok 1 [0].
Proof.
  unfold entered_ok, MAX_SUBJECTS. split; [lia|]. split; [reflexivity|].
  repeat constructor; lia.
Qed.

Lemma add_input_reachable (turns : nat) (st st' : Store) (msg : message)
      (buf0 stdin rest : list char) :
  (studentCount st < MAX_STUDENTS -> findMaxRoll st < INT_MAX) ->
  addStudent_input turns st buf0 stdin = Some (st', msg, rest) ->
  reachable st -> reachable st'.
Proof.
  intros Hg H R.
  destruct (add_input_entered _ _ _ _ _ _ _ H)
    as [[-> _] | (buf & n & ms & Hb & Hok & E & s & Es & _)]; [exact R|].
  replace st' with (fst (addStudent st buf n ms)) by now rewrite E.
  apply reach_add; [exact R | exact Hok|]. apply Hg.
  destruct (Z_lt_le_dec (studentCount st) MAX_STUDENTS) as [L|L]; [exact L|].
  exfalso. unfold addStudent in E.
  destruct (studentCount st >=? MAX_STUDENTS) eqn:EL; [|lia].
  inversion E as [[E1 E2]]. rewrite Es in E1.
  apply (f_equal (@length Student)) in E1. rewrite length_app in E1. simpl in E1. lia.
Qed.

Lemma update_input_reachable (turns : nat) (st st' : Store) (msg : message)
      (buf0 stdin rest : list char) :
  updateStudent_input turns st buf0 stdin = Some (st', msg, rest) ->
  reachable st -> reachable st'.
Proof.
  unfold updateStudent_input. intros H R.
  destruct st as [|s0 st0]; [inversion H; subst; exact R|].
  set (st := s0 :: st0) in *.
  destruct (inputIntInRange turns 1 1000000000 stdin) as [r r0|]; try discriminate H.
  destruct (findIndexByRoll st r <? 0); [inversion H; subst; exact R|].
  destruct (inputIntInRange turns 1 3 r0) as [choice r1|] eqn:Ec; try discriminate H.
  destruct (choice =? 1) eqn:C1.
  - apply Z.eqb_eq in C1. subst choice.
    destruct (safeGets 256 r1) as [got r2].
    set (buf := buffer_after buf0 got) in *.
    rewrite (update_name_entry st r buf 0 1 [] [0]) in H.
    destruct (updateStudent st r 1 buf 1 [0]) as [st1 m1] eqn:E.
    inversion H; subst.
    replace st' with (fst (updateStudent st r 1 buf 1 [0])) by now rewrite E.
    apply reach_update; [exact R | exact one_mark_entered].
  - destruct (choice =? 2) eqn:C2.
    + apply Z.eqb_eq in C2. subst choice.
      destruct (inputIntInRange turns 1 MAX_SUBJECTS r1) as [n r2|] eqn:En;
        try discriminate H.
      destruct (input_marks turns (Z.to_nat n) r2) as [[ms r3]|] eqn:Em;
        [|discriminate H].
      destruct (inputIntInRange_bounds _ _ _ _ _ _ En) as [Bn _].
      destruct (input_marks_entered _ _ _ _ _ Em) as [Lm Fm].
      destruct (updateStudent st r 2 [] n ms) as [st1 m1] eqn:E.
      inversion H; subst.
      replace st' with (fst (updateStudent st r 2 [] n ms)) by now rewrite E.
      apply reach_update; [exact R|].
      split; [exact Bn | split; [lia | exact Fm]].
    + apply Z.eqb_neq in C1, C2.
      pose proof (update_other_entry st r choice [] 0 [] C1 C2) as E.
      destruct (updateStudent st r choice [] 0 []) as [st1 m1].
      inversion H; subst. cbn [fst] in E. rewrite E. exact R.
Qed.

Lemma delete_input_reachable (turns : nat) (st st' : Store) (msg : message)
      (stdin rest : list char) :
  deleteStudent_input turns st stdin = Some (st', msg, rest) ->
  reachable st -> reachable st'.
Proof.
  unfold deleteStudent_input. intros H R.
  destruct st as [|s0 st0]; [inversion H; subst; exact R|].
  set (st := s0 :: st0) in *.
  destruct (inputIntInRange turns 1 1000000000 stdin) as [r r0|]; try discriminate H.
  destruct (findIndexByRoll st r <? 0); [inversion H; subst; exact R|].
  destruct (getchar r0) as [c r1].
  destruct (deleteStudent st r c) as [st1 m1] eqn:E.
  inversion H; subst.
  replace st' with (fst (deleteStudent st r c)) by now rewrite E.
  now apply reach_delete.
Qed.

Lemma menu_action_reachable (turns : nat) (choice : Z) (st st' : Store)
      (stdin rest : list char) :
  menu_action turns choice st stdin st' rest -> reachable st -> reachable st'.
Proof.
  unfold menu_action. intros H R.
  destruct (choice =? 1);
    [destruct H as [Hg (buf0 & msg & H)]; eapply add_input_reachable; eauto|].
  destruct (choice =? 3); [destruct H as [-> _]; exact R|].
  destruct (choice =? 4); [destruct H as [-> _]; exact R|].
  destruct (choice =? 5);
    [destruct H as (buf0 & msg & H); eapply update_input_reachable; eauto|].
  destruct (choice =? 6); [destruct H as [msg H]; eapply delete_input_reachable; eauto|].
  destruct (choice =? 7).
  - unfold sortMenu_input in H. destruct st as [|s0 st0]; [destruct H as [-> _]; exact R|].
    destruct H as (c & _ & Hs). eapply reach_sort; eauto.
  - destruct H as [-> _]. exact R.
Qed.

Lemma menu_reachable (turns : nat) (st st' : Store) (stdin rest : list char) :
  menu turns st stdin st' rest -> reachable st -> reachable st'.
Proof.
  induction 1 as [|st stdin choice rest st1 rest1 st' rest' _ _ Ha _ IH]; intros R;
    [exact R|].
  apply IH. eapply menu_action_reachable; eauto.
Qed.

(** Whatever the data file holds and whatever is typed, numbers that do
    not fit an [int] and names asked at the end of the input included,
    the array that the program holds when the user leaves the menu is one
    of the arrays reached by the actions: its rolls are pairwise distinct
    and positive, it has at most MAX_STUDENTS records, and each of them
    is well formed. *)
Theorem main_keeps_records_sound (turns : nat) (file : option (list char))
        (stdin : list char) (st : Store) (rest : list char) :
  main turns file stdin st rest ->
  reachable st
  /\ NoDup (rolls st) /\ Forall (fun x => 0 < roll x) st
  /\ studentCount st <= MAX_STUDENTS /\ Forall well_formed st.
Proof.
  unfold main. intros H.
  assert (R : reachable st).
  { eapply menu_reachable; [exact H|]. apply reach_load. constructor. }
  destruct (reachable_rolls st R) as [N P].
  destruct (reachable_kept st R) as [C K].
  repeat split; try assumption.
  eapply Forall_impl; [|exact K]. now intros s [W _].
Qed.

(** ** The further theorems at concrete inputs *)

Ltac absent := let C := fresh "C" in
  intros C; vm_compute in C;
  repeat (destruct C as [C|C]; [discriminate C|]); exact C.

Ltac differ := let C := fresh "C" in intros C; vm_compute in C; discriminate C.

Lemma alice_well_formed : well_formed (recompute alice_entry).
Proof.
  pose proof alice_store_well_formed as F. rewrite alice_store_eq in F.
  now inversion F.
Qed.

Lemma alice_reachable : reachable alice_store.
Proof.
  apply (reach_add [] (cstr "Alice") 3 [85; 90; 78] reach_init alice_entered).
  reflexivity.
Qed.

Lemma alice_listed : In 1 (rolls alice_store).
Proof. rewrite alice_store_eq. left. reflexivity. Qed.

Lemma searchByName_lists_matches_witness :
  searchByName alice_bob_store (cstr "BO")
  = cstr "Enter name (or part of it): " ++ printTableHeader
    ++ concat (map printStudentRow (name_matches (cstr "BO") alice_bob_store))
    ++ match name_matches (cstr "BO") alice_bob_store with
       | [] => cstr "No matches for " ++ [34] ++ cstr "BO" ++ [34] ++ cstr "." ++ endl
       | _ => []
       end.
Proof.
  apply (searchByName_lists_matches alice_bob_store (cstr "BO")); discriminate.
Defined.

Lemma searchByRoll_shows_record_witness :
  exists pre x post,
    alice_store = pre ++ x :: post /\ roll x = 1 /\ ~ In 1 (rolls pre)
    /\ searchByRoll alice_store 1
       = printTableHeader ++ printStudentRow x
         ++ cstr "Marks: " ++ fmt_marks_detail x ++ endl
    /\ (valid_scores x -> fmt_marks_detail x = join_detail (scores x)).
Proof.
  refine (proj2 (searchByRoll_shows_record alice_store 1 _) _);
    [discriminate | exact alice_listed].
Defined.

Lemma addStudent_appends_record_witness :
  exists s,
    addStudent [] (cstr "Alice") 3 [85; 90; 78] = ([] ++ [s], MsgAdded s)
    /\ studentCount ([] ++ [s]) = studentCount [] + 1
    /\ (forall i, (i < length (@nil Student))%nat ->
                  nth i ([] ++ [s]) zeroStudent = nth i [] zeroStudent)
    /\ name s = firstn 99 (sanitizeName (cstr "Alice"))
    /\ name s <> [] /\ ~ In (ch ","%char) (name s)
    /\ length (name s) = Nat.min 99 (length (cstr "Alice"))
    /\ subjectCount s = 3 /\ scores s = [85; 90; 78]
    /\ average s = float_mean [85; 90; 78]
    /\ grade s = calculateGrade (average s)
    /\ grade s = grade_of_mean (mean [85; 90; 78]).
Proof.
  apply (addStudent_appends_record [] (cstr "Alice") 3 [85; 90; 78]);
    [reflexivity | discriminate | exact alice_entered].
Defined.

Lemma deleteStudent_removes_record_witness :
  exists pre x post,
    alice_store = pre ++ x :: post /\ roll x = 1 /\ ~ In 1 (rolls pre)
    /\ deleteStudent alice_store 1 (ch "y"%char)
       = (if (ch "y"%char =? ch "y"%char) || (ch "y"%char =? ch "Y"%char)
          then (pre ++ post, MsgDeleted) else (alice_store, MsgCancelled))
    /\ (NoDup (rolls alice_store) ->
        ~ In 1 (rolls (pre ++ post))
        /\ findIndexByRoll (pre ++ post) 1 = -1
        /\ searchByRoll (pre ++ post) 1
           = match pre ++ post with
             | [] => cstr "No records." ++ endl
             | _ => cstr "No student with roll " ++ fmt_d 1 ++ cstr "." ++ endl
             end).
Proof.
  apply (deleteStudent_removes_record alice_store 1 (ch "y"%char)).
  exact alice_listed.
Defined.


Lemma reachable_records_well_formed_witness :
  studentCount alice_store <= MAX_STUDENTS
  /\ Forall (fun s => well_formed s /\ 1 <= roll s
                      /\ grade s = calculateGrade (average s)
                      /\ average s = float_mean (scores s)) alice_store.
Proof.
  apply (reachable_records_well_formed alice_store). exact alice_reachable.
Defined.

Lemma showStats_grade_counts_witness :
  exists r,
    showStats three_store = Some r
    /\ grades r = (count_grade (ch "A"%char) three_store,
                   count_grade (ch "B"%char) three_store,
                   count_grade (ch "C"%char) three_store,
                   count_grade (ch "D"%char) three_store,
                   count_other three_store)
    /\ count_grade (ch "A"%char) three_store + count_grade (ch "B"%char) three_store
       + count_grade (ch "C"%char) three_store + count_grade (ch "D"%char) three_store
       + count_other three_store = studentCount three_store.
Proof.
  apply (showStats_grade_counts three_store). discriminate.
Defined.

Lemma reachable_class_average_witness :
  exists r,
    showStats three_store = Some r
    /\ (Qabs (f32_value (classAvg r)
              - qmean (map (fun s => f32_value (average s)) three_store))
        <= (1 # 256) + (1 # 262144))%Q.
Proof.
  apply (reachable_class_average three_store);
    [exact three_store_reachable | discriminate].
Defined.

Lemma alice_bob_numbers : Forall not_nan alice_bob_store.
Proof. repeat constructor. Qed.

Lemma alice_bob_sorted (choice : Z) (cmp : comparator) (st' : Store) :
  menu_comparator choice = Some cmp ->
  Permutation alice_bob_store st' ->
  StronglySorted (fun x y => cmp x y <= 0) st' ->
  sortMenu alice_bob_store choice st'.
Proof.
  intros E P S. evaluate alice_bob_store. exists cmp. split; [exact E|].
  split; [|exact S]. exact P.
Qed.

Lemma alice_bob_by_average :
  sortMenu alice_bob_store 5 (rev alice_bob_store)
  /\ sortMenu alice_bob_store 6 alice_bob_store.
Proof.
  split.
  - apply (alice_bob_sorted 5 cmpAvgAsc); [reflexivity | apply Permutation_rev |].
    evaluate (rev alice_bob_store). repeat constructor. vm_compute. discriminate.
  - apply (alice_bob_sorted 6 cmpAvgDesc); [reflexivity | apply Permutation_refl |].
    evaluate alice_bob_store. repeat constructor. vm_compute. discriminate.
Qed.

Lemma alice_bob_by_roll :
  sortMenu alice_bob_store 1 alice_bob_store
  /\ sortMenu alice_bob_store 2 (rev alice_bob_store).
Proof.
  split.
  - apply (alice_bob_sorted 1 cmpRollAsc); [reflexivity | apply Permutation_refl |].
    evaluate alice_bob_store. repeat constructor. vm_compute. discriminate.
  - apply (alice_bob_sorted 2 cmpRollDesc); [reflexivity | apply Permutation_rev |].
    evaluate (rev alice_bob_store). repeat constructor. vm_compute. discriminate.
Qed.

Lemma sorted_by_average_extreme_first_witness :
  (exists r, showStats alice_bob_store = Some r
             /\ topper r = nth 0 alice_bob_store zeroStudent)
  /\ (exists r, showStats (rev alice_bob_store) = Some r
                /\ lowest r = nth 0 (rev alice_bob_store) zeroStudent).
Proof.
  apply (sorted_by_average_extreme_first alice_bob_store (rev alice_bob_store)
           alice_bob_store);
    [discriminate | exact alice_bob_numbers
     | exact (proj1 alice_bob_by_average) | exact (proj2 alice_bob_by_average)].
Defined.

Lemma alice_bob_rolls :
  Forall (fun s => 1 <= roll s <= INT_MAX) alice_bob_store
  /\ NoDup (rolls alice_bob_store).
Proof.
  split.
  - eapply Forall_impl; [|exact alice_bob_valid_keys]. now intros s [H _].
  - change (rolls alice_bob_store) with [1; 2].
    repeat constructor; simpl; intuition discriminate.
Qed.

Lemma sort_by_roll_orders_rolls_witness :
  Permutation alice_bob_store alice_bob_store
  /\ StronglySorted Z.lt (rolls alice_bob_store)
  /\ Permutation alice_bob_store (rev alice_bob_store)
  /\ StronglySorted Z.gt (rolls (rev alice_bob_store)).
Proof.
  apply (sort_by_roll_orders_rolls alice_bob_store alice_bob_store (rev alice_bob_store));
    [exact (proj1 alice_bob_rolls) | exact (proj2 alice_bob_rolls)
     | exact (proj1 alice_bob_by_roll) | exact (proj2 alice_bob_by_roll)].
Defined.

Lemma exportReport_agrees_with_screen_witness :
  exists r,
    showStats three_store = Some r
    /\ listAll three_store = printTableHeader ++ concat (map printStudentRow three_store)
    /\ exportReport three_store
       = Some (report_banner ++ fmt_table_head
               ++ concat (map printStudentRow three_store)
               ++ fmt_summary (total r) (classAvg r) (topper r) (lowest r)).
Proof.
  apply (exportReport_agrees_with_screen three_store). discriminate.
Defined.

Lemma safeGets_reads_line_witness :
  safeGets 256 (cstr "Alice" ++ 10 :: cstr "3") = (Some (cstr "Alice"), cstr "3").
Proof.
  refine (proj1 (safeGets_reads_line 256 (cstr "Alice") (cstr "3") _ _ _) _);
    [discriminate | absent | absent | discriminate].
Defined.

Lemma inputIntInRange_within_bounds_witness : 1 <= 3 <= 10 /\ in_int 3.
Proof.
  apply (inputIntInRange_within_bounds 1 1 10 (cstr "4294967299" ++ [10]) [] 3).
  reflexivity.
Defined.

Lemma inputIntInRange_reads_numeral_witness :
  inputIntInRange 1 1 10 (cstr " " ++ fmt_d 7 ++ cstr "abc" ++ 10 :: [])
  = if (1 <=? 7) && (7 <=? 10) then Entered 7 [] else inputIntInRange 0 1 10 [].
Proof.
  apply (inputIntInRange_reads_numeral 0 1 10 7 (cstr " ") (cstr "abc") []);
    [repeat constructor | split; discriminate | reflexivity | absent].
Defined.

Lemma inputIntInRange_drops_text_witness :
  inputIntInRange 2 1 10 ([] ++ ch "x"%char :: cstr "yz" ++ 10 :: cstr "5" ++ [10])
  = inputIntInRange 1 1 10 (cstr "5" ++ [10]).
Proof.
  apply (inputIntInRange_drops_text 1 1 10 (ch "x"%char) [] (cstr "yz") (cstr "5" ++ [10]));
    [constructor | reflexivity | reflexivity | differ | differ | absent].
Defined.

Lemma inputIntInRange_never_returns_on_blank_witness :
  inputIntInRange 5 1 10 (cstr "  " ++ [10]) = StillAsking.
Proof.
  apply (inputIntInRange_never_returns_on_blank 5 1 10 (cstr "  " ++ [10])).
  repeat constructor.
Defined.

Lemma printStudentRow_width_witness :
  length (printStudentRow (recompute alice_entry)) = 61%nat.
Proof.
  refine (proj1 (proj2 (printStudentRow_width (recompute alice_entry) _ _)) _);
    [exact alice_well_formed | discriminate | reflexivity].
Defined.

Lemma saveAll_lines_fit_buffer_witness :
  let line := fun x => fmt_record x ++ [ch "010"%char] in
  fgets 1024 (saveAll [recompute alice_entry])
  = Some (header_line, concat (map line [recompute alice_entry]))
  /\ has_header (c_string header_line) = true
  /\ (length (line (recompute alice_entry)) <= 165)%nat
  /\ fgets 1024 (concat (map line [recompute alice_entry]))
     = Some (line (recompute alice_entry), concat (map line [])).
Proof.
  apply (saveAll_lines_fit_buffer (recompute alice_entry) []);
    [exact alice_well_formed | absent].
Defined.

Lemma cmpName_ties_ignore_case_witness :
  cmpNameAsc (set_name zeroStudent (cstr "Bob")) (set_name zeroStudent (cstr "BOB")) = 0.
Proof.
  refine (proj2 (proj1 (cmpName_ties_ignore_case
                          (set_name zeroStudent (cstr "Bob"))
                          (set_name zeroStudent (cstr "BOB")) _ _)) _);
    [vm_compute; repeat constructor; discriminate
     | vm_compute; repeat constructor; discriminate
     | reflexivity].
Defined.

Lemma addStudent_input_entered_witness :
  (alice_store = [] /\ (MsgAdded (recompute alice_entry) = MsgLimitReached
                        \/ MsgAdded (recompute alice_entry) = MsgNameEmpty))
  \/ exists buf n ms,
       buf <> [] /\ entered_ok n ms
       /\ addStudent [] buf n ms = (alice_store, MsgAdded (recompute alice_entry))
       /\ exists s, alice_store = [] ++ [s] /\ MsgAdded (recompute alice_entry) = MsgAdded s.
Proof.
  apply (addStudent_input_entered 1 [] alice_store (MsgAdded (recompute alice_entry)) []
           (cstr "Alice" ++ [10] ++ cstr "4294967299" ++ [10] ++ cstr "85" ++ [10]
            ++ cstr "90" ++ [10] ++ cstr "78" ++ [10]) []).
  vm_compute. reflexivity.
Defined.

Lemma addStudent_input_lines_witness :
  addStudent_input 1 [] (cstr "?")
    (cstr "Alice" ++ [10] ++ fmt_d 3 ++ [10]
     ++ concat (map (fun m => fmt_d m ++ [10]) [85; 90; 78]) ++ [])
  = Some (fst (addStudent [] (cstr "Alice") 3 [85; 90; 78]),
          snd (addStudent [] (cstr "Alice") 3 [85; 90; 78]), [])
  /\ exists s, addStudent [] (cstr "Alice") 3 [85; 90; 78] = ([] ++ [s], MsgAdded s)
               /\ scores s = [85; 90; 78]
               /\ name s = firstn 99 (sanitizeName (cstr "Alice")).
Proof.
  apply (addStudent_input_lines 0 [] (cstr "?") (cstr "Alice") 3 [85; 90; 78] []);
    [reflexivity | discriminate | absent | absent
     | vm_compute; repeat constructor | exact alice_entered].
Defined.

Lemma deleteStudent_input_answer_witness :
  deleteStudent_input 1 alice_store
    (fmt_d 1 ++ [10] ++ ch "y"%char :: cstr "es" ++ [10] ++ [])
  = Some (fst (deleteStudent alice_store 1 (ch "y"%char)),
          snd (deleteStudent alice_store 1 (ch "y"%char)), [])
  /\ deleteStudent_input 1 alice_store
       (fmt_d 1 ++ [10] ++ [10] ++ cstr "2" ++ [10] ++ [])
     = Some (alice_store, MsgCancelled, []).
Proof.
  apply (deleteStudent_input_answer 0 alice_store 1 (ch "y"%char) (cstr "es") (cstr "2") []);
    [exact alice_listed | split; discriminate | differ | absent | absent].
Defined.

Lemma alice_bob_session :
  main 1 None
       (cstr "1" ++ [10] ++ cstr "Alice" ++ [10] ++ cstr "3" ++ [10]
        ++ cstr "85" ++ [10] ++ cstr "90" ++ [10] ++ cstr "78" ++ [10]
        ++ [10] ++ [10]
        ++ cstr "1" ++ [10] ++ cstr "Bob" ++ [10] ++ cstr "4294967299" ++ [10]
        ++ cstr "40" ++ [10] ++ cstr "45" ++ [10] ++ cstr "50" ++ [10]
        ++ [10] ++ [10] ++ cstr "0" ++ [10])
       alice_bob_store [].
Proof.
  unfold main.
  eapply (menu_turn 1 _ _ 1 _ alice_store);
    [vm_compute; reflexivity | discriminate | |].
  - split; [intros _; reflexivity|].
    exists [], (MsgAdded (recompute alice_entry)). vm_compute. reflexivity.
  - eapply (menu_turn 1 _ _ 1 _ alice_bob_store);
      [vm_compute; reflexivity | discriminate | |].
    + split; [intros _; reflexivity|].
      exists [], (snd (addStudent alice_store (cstr "Bob") 3 [40; 45; 50])).
      vm_compute. reflexivity.
    + apply menu_exit. vm_compute. reflexivity.
Qed.

Lemma main_keeps_records_sound_witness :
  reachable alice_bob_store
  /\ NoDup (rolls alice_bob_store) /\ Forall (fun x => 0 < roll x) alice_bob_store
  /\ studentCount alice_bob_store <= MAX_STUDENTS /\ Forall well_formed alice_bob_store.
Proof.
  exact (main_keeps_records_sound _ _ _ _ _ alice_bob_session).
Defined.
